(** * Thermocouple voltage/temperature conversion ([thermocouple_sensor.c])

    A shallow embedding of [LIB/thermocouple_sensor.c] and of the header
    [thermocouple_sensor.h], followed by the properties of the two public
    conversions [TC_CalculateTemperature] and [TC_CalculateVoltage] and of
    the two internal stages [FindPolyCoeff] and [Polynomial_Evaluate].

    Modelling choices.
    - A C [double] is a binary64 value: Rocq's primitive [float], whose
      operations are the IEEE 754 ones with rounding to nearest even.  The
      decimal literals of the source are read by the same correctly rounded
      conversion.  The statement [result * input + pCoefficient[i]] is one
      rounded product followed by one rounded sum (no fused multiply-add).
    - [uint8_t], [int8_t] and [size_t] values are integers in [Z]; the
      conversions to the 8-bit types are written out ([to_uint8], [to_int8]).
    - [ThermocoupleType] is a C enumeration, that is an integer: a caller can
      pass a value that is none of the eight enumerators, and the [switch]
      has a [default] for it.  The type is therefore [Z].
    - A pointer to an array is [ptr A]: [None] is [NULL], [Some l] points to
      the first element of an array holding [l].  Reading through [NULL] or
      outside the array is a fault.
    - Every function runs in the monad [M]: it yields the sequence of
      function calls and array reads it performed together with its result,
      or no result when an array read faulted.
    - [exp] and [pow] come from the C library ([math.h]); they are
      parameters of the model. *)

From Stdlib Require Import ZArith List Bool Lia Floats.
Import ListNotations.
#[local] Set Warnings "-inexact-float".
Local Open Scope Z_scope.

(** ** Integer conversions of C *)

(** Conversion to [uint8_t]: reduction modulo 2^8. *)
Definition to_uint8 (z : Z) : Z := z mod 256.

(** Conversion to [int8_t]: the value whose 8-bit two's complement pattern
    is the low byte of [z]. *)
Definition to_int8 (z : Z) : Z := (z + 128) mod 256 - 128.

(** ** Calls, array reads and faults *)

Inductive event : Type :=
| Call_FindPolyCoeff
| Call_Polynomial_Evaluate
| Read_ranges (i : Z)          (* ranges[i] *)
| Read_pCoefficient (i : Z).   (* pCoefficient[i] *)

(** A run: the events in program order, and the result unless a read faulted. *)
Definition M (A : Type) : Type := (list event * option A)%type.

Definition ret {A} (a : A) : M A := ([], Some a).

Definition bind {A B} (m : M A) (k : A -> M B) : M B :=
  match m with
  | (t, None) => (t, None)
  | (t, Some a) => let (t', r) := k a in (t ++ t', r)
  end.

Definition tell (e : event) : M unit := ([e], Some tt).

Definition trace {A} (m : M A) : list event := fst m.
Definition result {A} (m : M A) : option A := snd m.

Declare Scope run_scope.
Delimit Scope run_scope with run.
Notation "x <- m ;; k" := (bind m (fun x => k))
  (at level 61, m at next level, right associativity) : run_scope.
Notation "m ;;; k" := (bind m (fun _ => k))
  (at level 61, right associativity) : run_scope.
Local Open Scope run_scope.

Definition ptr (A : Type) : Type := option (list A).

(** [p[i]]: logged with [ev i]; a fault when [p] is [NULL] or [i] is not an
    index of the array. *)
Definition load {A} (ev : Z -> event) (p : ptr A) (i : Z) : M A :=
  match p with
  | None => ([ev i], None)
  | Some l =>
      if i <? 0 then ([ev i], None)
      else ([ev i], nth_error l (Z.to_nat i))
  end.

(** [sizeof(a) / sizeof(a[0])] of an array holding [l]. *)
Definition countof {A} (l : list A) : Z := Z.of_nat (List.length l).

(** ** Types of [thermocouple_sensor.h] *)

(** [#define TC_CONVERSION_FAILED -1.0e6] *)
Definition TC_CONVERSION_FAILED : float := (-1.0e6)%float.

Definition ThermocoupleType : Type := Z.
Definition TC_TYPE_R : ThermocoupleType := 0.
Definition TC_TYPE_S : ThermocoupleType := 1.
Definition TC_TYPE_B : ThermocoupleType := 2.
Definition TC_TYPE_J : ThermocoupleType := 3.
Definition TC_TYPE_T : ThermocoupleType := 4.
Definition TC_TYPE_E : ThermocoupleType := 5.
Definition TC_TYPE_K : ThermocoupleType := 6.
Definition TC_TYPE_N : ThermocoupleType := 7.

Record PolyCoeff : Type := {
  pCoefficients : ptr float;   (* const double *pCoefficients *)
  length : Z                   (* uint8_t length *)
}.

Record RangePoly : Type := {
  min : float;
  max : float;
  poly : PolyCoeff
}.

(** ** Coefficient tables of [thermocouple_sensor.c] *)

Definition TC_Coeff_R_mVToTemp_Range1 : list float :=
  [ 0.0000000E+00; 1.8891380E+02; -9.3835290E+01; 1.3068619E+02;
    -2.2703580E+02; 3.5145659E+02; -3.8953900E+02; 2.8239471E+02;
    -1.2607281E+02; 3.1353611E+01; -3.3187769E+00 ]%float.

Definition TC_Coeff_R_mVToTemp_Range2 : list float :=
  [ 1.334584505E+01; 1.472644573E+02; -1.844024844E+01; 4.031129726E+00;
    -6.249428360E-01; 6.468412046E-02; -4.458750426E-03; 1.994710149E-04;
    -5.313401790E-06; 6.481976217E-08; 0.000000000E+00 ]%float.

Definition TC_Coeff_R_mVToTemp_Range3 : list float :=
  [ -8.199599416E+01; 1.553962042E+02; -8.342197663E+00; 4.279433549E-01;
    -1.191577910E-02; 1.492290091E-04; 0.000000000E+00; 0.000000000E+00;
    0.000000000E+00; 0.000000000E+00; 0.000000000E+00 ]%float.

Definition TC_Coeff_R_mVToTemp_Range4 : list float :=
  [ 3.406177836E+04; -7.023729171E+03; 5.582903813E+02; -1.952394635E+01;
    2.560740231E-01; 0.000000000E+00; 0.000000000E+00; 0.000000000E+00;
    0.000000000E+00; 0.000000000E+00; 0.000000000E+00 ]%float.

Definition TC_R_mVToTemp : list RangePoly :=
  [
    {| min := -0.228; max := 1.923;
       poly := {| pCoefficients := Some TC_Coeff_R_mVToTemp_Range1;
                  length := countof TC_Coeff_R_mVToTemp_Range1 |} |};
    {| min := 1.923; max := 11.361;
       poly := {| pCoefficients := Some TC_Coeff_R_mVToTemp_Range2;
                  length := countof TC_Coeff_R_mVToTemp_Range2 |} |};
    {| min := 11.361; max := 19.739;
       poly := {| pCoefficients := Some TC_Coeff_R_mVToTemp_Range3;
                  length := countof TC_Coeff_R_mVToTemp_Range3 |} |};
    {| min := 19.739; max := 21.105;
       poly := {| pCoefficients := Some TC_Coeff_R_mVToTemp_Range4;
                  length := countof TC_Coeff_R_mVToTemp_Range4 |} |}
  ]%float.

Definition TC_R_mVToTemp_len : Z := countof TC_R_mVToTemp.

Definition TC_Coeff_R_TempToMV_Range1 : list float :=
  [ 0.000000000000E+00; 0.528961729765E-02; 0.139166589782E-04;
    -0.238855693017E-07; 0.356916001063E-10; -0.462347666298E-13;
    0.500777441034E-16; -0.373105886191E-19; 0.157716482367E-22;
    -0.281038625251E-26 ]%float.

Definition TC_Coeff_R_TempToMV_Range2 : list float :=
  [ 0.295157925316E+01; -0.252061251332E-02; 0.159564501865E-04;
    -0.764085947576E-08; 0.205305291024E-11; -0.293359668173E-15 ]%float.

Definition TC_Coeff_R_TempToMV_Range3 : list float :=
  [ 0.152232118209E+03; -0.268819888545E+00; 0.171280280471E-03;
    -0.345895706453E-07; -0.934633971046E-14 ]%float.

Definition TC_R_TempToMV : list RangePoly :=
  [
    {| min := -50.5; max := 1064.18;
       poly := {| pCoefficients := Some TC_Coeff_R_TempToMV_Range1;
                  length := countof TC_Coeff_R_TempToMV_Range1 |} |};
    {| min := 1064.18; max := 1664.5;
       poly := {| pCoefficients := Some TC_Coeff_R_TempToMV_Range2;
                  length := countof TC_Coeff_R_TempToMV_Range2 |} |};
    {| min := 1664.5; max := 1768.5;
       poly := {| pCoefficients := Some TC_Coeff_R_TempToMV_Range3;
                  length := countof TC_Coeff_R_TempToMV_Range3 |} |}
  ]%float.

Definition TC_R_TempToMV_len : Z := countof TC_R_TempToMV.

Definition TC_Coeff_S_mVToTemp_Range1 : list float :=
  [ 0.00000000E+00; 1.84949460E+02; -8.00504062E+01; 1.02237430E+02;
    -1.52248592E+02; 1.88821343E+02; -1.59085941E+02; 8.23027880E+01;
    -2.34181944E+01; 2.79786260E+00 ]%float.

Definition TC_Coeff_S_mVToTemp_Range2 : list float :=
  [ 1.291507177E+01; 1.466298863E+02; -1.534713402E+01; 3.145945973E+00;
    -4.163257839E-01; 3.187963771E-02; -1.291637500E-03; 2.183475087E-05;
    -1.447379511E-07; 8.211272125E-09 ]%float.

Definition TC_Coeff_S_mVToTemp_Range3 : list float :=
  [ -8.087801117E+01; 1.621573104E+02; -8.536869453E+00; 4.719686976E-01;
    -1.441693666E-02; 2.081618890E-04; 0.000000000E+00; 0.000000000E+00;
    0.000000000E+00; 0.000000000E+00 ]%float.

Definition TC_Coeff_S_mVToTemp_Range4 : list float :=
  [ 5.333875126E+04; -1.235892298E+04; 1.092657613E+03; -4.265693686E+01;
    6.247205420E-01; 0.000000000E+00; 0.000000000E+00; 0.000000000E+00;
    0.000000000E+00; 0.000000000E+00 ]%float.

Definition TC_S_mVToTemp : list RangePoly :=
  [
    {| min := -0.237; max := 1.874;
       poly := {| pCoefficients := Some TC_Coeff_S_mVToTemp_Range1;
                  length := countof TC_Coeff_S_mVToTemp_Range1 |} |};
    {| min := 1.874; max := 10.332;
       poly := {| pCoefficients := Some TC_Coeff_S_mVToTemp_Range2;
                  length := countof TC_Coeff_S_mVToTemp_Range2 |} |};
    {| min := 10.332; max := 17.536;
       poly := {| pCoefficients := Some TC_Coeff_S_mVToTemp_Range3;
                  length := countof TC_Coeff_S_mVToTemp_Range3 |} |};
    {| min := 17.536; max := 18.697;
       poly := {| pCoefficients := Some TC_Coeff_S_mVToTemp_Range4;
                  length := countof TC_Coeff_S_mVToTemp_Range4 |} |}
  ]%float.

Definition TC_S_mVToTemp_len : Z := countof TC_S_mVToTemp.

Definition TC_Coeff_S_TempToMV_Range1 : list float :=
  [ 0.000000000000E+00; 0.540313308631E-02; 0.125934289740E-04;
    -0.232477968689E-07; 0.322028823036E-10; -0.331465196389E-13;
    0.255744251786E-16; -0.125068871393E-19; 0.271443176145E-23 ]%float.

Definition TC_Coeff_S_TempToMV_Range2 : list float :=
  [ 0.132900444085E+01; 0.334509311344E-02; 0.654805192818E-05;
    -0.164856259209E-08; 0.129989605174E-13 ]%float.

Definition TC_Coeff_S_TempToMV_Range3 : list float :=
  [ 0.146628232636E+03; -0.258430516752E+00; 0.163693574641E-03;
    -0.330439046987E-07; -0.943223690612E-14 ]%float.

Definition TC_S_TempToMV : list RangePoly :=
  [
    {| min := -50.5; max := 1064.18;
       poly := {| pCoefficients := Some TC_Coeff_S_TempToMV_Range1;
                  length := countof TC_Coeff_S_TempToMV_Range1 |} |};
    {| min := 1064.18; max := 1664.5;
       poly := {| pCoefficients := Some TC_Coeff_S_TempToMV_Range2;
                  length := countof TC_Coeff_S_TempToMV_Range2 |} |};
    {| min := 1664.5; max := 1768.5;
       poly := {| pCoefficients := Some TC_Coeff_S_TempToMV_Range3;
                  length := countof TC_Coeff_S_TempToMV_Range3 |} |}
  ]%float.

Definition TC_S_TempToMV_len : Z := countof TC_S_TempToMV.

Definition TC_Coeff_B_mVToTemp_Range1 : list float :=
  [ 9.8423321E+01; 6.9971500E+02; -8.4765304E+02; 1.0052644E+03;
    -8.3345952E+02; 4.5508542E+02; -1.5523037E+02; 2.9886750E+01;
    -2.4742860E+00 ]%float.

Definition TC_Coeff_B_mVToTemp_Range2 : list float :=
  [ 2.1315071E+02; 2.8510504E+02; -5.2742887E+01; 9.9160804E+00;
    -1.2965303E+00; 1.1195870E-01; -6.0625199E-03; 1.8661696E-04;
    -2.4878585E-06 ]%float.

Definition TC_B_mVToTemp : list RangePoly :=
  [
    {| min := 0.292; max := 2.431;
       poly := {| pCoefficients := Some TC_Coeff_B_mVToTemp_Range1;
                  length := countof TC_Coeff_B_mVToTemp_Range1 |} |};
    {| min := 2.431; max := 13.825;
       poly := {| pCoefficients := Some TC_Coeff_B_mVToTemp_Range2;
                  length := countof TC_Coeff_B_mVToTemp_Range2 |} |}
  ]%float.

Definition TC_B_mVToTemp_len : Z := countof TC_B_mVToTemp.

Definition TC_Coeff_B_TempToMV_Range1 : list float :=
  [ 0.000000000000E+00; -0.246508183460E-03; 0.590404211710E-05;
    -0.132579316360E-08; 0.156682919010E-11; -0.169445292400E-14;
    0.629903470940E-18 ]%float.

Definition TC_Coeff_B_TempToMV_Range2 : list float :=
  [ -0.389381686210E+01; 0.285717474700E-01; -0.848851047850E-04;
    0.157852801640E-06; -0.168353448640E-09; 0.111097940130E-12;
    -0.445154310330E-16; 0.989756408210E-20; -0.937913302890E-24 ]%float.

Definition TC_B_TempToMV : list RangePoly :=
  [
    {| min := -0.5; max := 630.615;
       poly := {| pCoefficients := Some TC_Coeff_B_TempToMV_Range1;
                  length := countof TC_Coeff_B_TempToMV_Range1 |} |};
    {| min := 630.615; max := 1820.5;
       poly := {| pCoefficients := Some TC_Coeff_B_TempToMV_Range2;
                  length := countof TC_Coeff_B_TempToMV_Range2 |} |}
  ]%float.

Definition TC_B_TempToMV_len : Z := countof TC_B_TempToMV.

Definition TC_Coeff_J_mVToTemp_Range1 : list float :=
  [ 0.0000000E+00; 1.9528268E+01; -1.2286185E+00; -1.0752178E+00;
    -5.9086933E-01; -1.7256713E-01; -2.8131513E-02; -2.3963370E-03;
    -8.3823321E-05 ]%float.

Definition TC_Coeff_J_mVToTemp_Range2 : list float :=
  [ 0.000000E+00; 1.978425E+01; -2.001204E-01; 1.036969E-02; -2.549687E-04;
    3.585153E-06; -5.344285E-08; 5.099890E-10; 0.000000E+00 ]%float.

Definition TC_Coeff_J_mVToTemp_Range3 : list float :=
  [ -3.11358187E+03; 3.00543684E+02; -9.94773230E+00; 1.70276630E-01;
    -1.43033468E-03; 4.73886084E-06; 0.00000000E+00; 0.00000000E+00;
    0.00000000E+00 ]%float.

Definition TC_J_mVToTemp : list RangePoly :=
  [
    {| min := -8.1; max := 0.0;
       poly := {| pCoefficients := Some TC_Coeff_J_mVToTemp_Range1;
                  length := countof TC_Coeff_J_mVToTemp_Range1 |} |};
    {| min := 0.0; max := 42.914;
       poly := {| pCoefficients := Some TC_Coeff_J_mVToTemp_Range2;
                  length := countof TC_Coeff_J_mVToTemp_Range2 |} |};
    {| min := 42.914; max := 69.58;
       poly := {| pCoefficients := Some TC_Coeff_J_mVToTemp_Range3;
                  length := countof TC_Coeff_J_mVToTemp_Range3 |} |}
  ]%float.

Definition TC_J_mVToTemp_len : Z := countof TC_J_mVToTemp.

Definition TC_Coeff_J_TempToMV_Range1 : list float :=
  [ 0.000000000000E+00; 0.503811878150E-01; 0.304758369300E-04;
    -0.856810657200E-07; 0.132281952950E-09; -0.170529583370E-12;
    0.209480906970E-15; -0.125383953360E-18; 0.156317256970E-22 ]%float.

Definition TC_Coeff_J_TempToMV_Range2 : list float :=
  [ 0.296456256810E+03; -0.149761277860E+01; 0.317871039240E-02;
    -0.318476867010E-05; 0.157208190040E-08; -0.306913690560E-12 ]%float.

Definition TC_J_TempToMV : list RangePoly :=
  [
    {| min := -210.5; max := 760.0;
       poly := {| pCoefficients := Some TC_Coeff_J_TempToMV_Range1;
                  length := countof TC_Coeff_J_TempToMV_Range1 |} |};
    {| min := 760.0; max := 1200.5;
       poly := {| pCoefficients := Some TC_Coeff_J_TempToMV_Range2;
                  length := countof TC_Coeff_J_TempToMV_Range2 |} |}
  ]%float.

Definition TC_J_TempToMV_len : Z := countof TC_J_TempToMV.

Definition TC_Coeff_T_mVToTemp_Range1 : list float :=
  [ 0.0000000E+00; 2.5949192E+01; -2.1316967E-01; 7.9018692E-01;
    4.2527777E-01; 1.3304473E-01; 2.0241446E-02; 1.2668171E-03 ]%float.

Definition TC_Coeff_T_mVToTemp_Range2 : list float :=
  [ 0.000000E+00; 2.592800E+01; -7.602961E-01; 4.637791E-02; -2.165394E-03;
    6.048144E-05; -7.293422E-07; 0.000000E+00 ]%float.

Definition TC_T_mVToTemp : list RangePoly :=
  [
    {| min := -5.61; max := 0.0;
       poly := {| pCoefficients := Some TC_Coeff_T_mVToTemp_Range1;
                  length := countof TC_Coeff_T_mVToTemp_Range1 |} |};
    {| min := 0.0; max := 20.88;
       poly := {| pCoefficients := Some TC_Coeff_T_mVToTemp_Range2;
                  length := countof TC_Coeff_T_mVToTemp_Range2 |} |}
  ]%float.

Definition TC_T_mVToTemp_len : Z := countof TC_T_mVToTemp.

Definition TC_Coeff_T_TempToMV_Range1 : list float :=
  [ 0.000000000000E+00; 0.387481063640E-01; 0.441944343470E-04;
    0.118443231050E-06; 0.200329735540E-07; 0.901380195590E-09;
    0.226511565930E-10; 0.360711542050E-12; 0.384939398830E-14;
    0.282135219250E-16; 0.142515947790E-18; 0.487686622860E-21;
    0.107955392700E-23; 0.139450270620E-26; 0.797951539270E-30 ]%float.

Definition TC_Coeff_T_TempToMV_Range2 : list float :=
  [ 0.000000000000E+00; 0.387481063640E-01; 0.332922278800E-04;
    0.206182434040E-06; -0.218822568460E-08; 0.109968809280E-10;
    -0.308157587720E-13; 0.454791352900E-16; -0.275129016730E-19 ]%float.

Definition TC_T_TempToMV : list RangePoly :=
  [
    {| min := -270.5; max := 0.0;
       poly := {| pCoefficients := Some TC_Coeff_T_TempToMV_Range1;
                  length := countof TC_Coeff_T_TempToMV_Range1 |} |};
    {| min := 0.0; max := 400.5;
       poly := {| pCoefficients := Some TC_Coeff_T_TempToMV_Range2;
                  length := countof TC_Coeff_T_TempToMV_Range2 |} |}
  ]%float.

Definition TC_T_TempToMV_len : Z := countof TC_T_TempToMV.

Definition TC_Coeff_E_mVToTemp_Range1 : list float :=
  [ 0.0000000E+00; 1.6977288E+01; -4.3514970E-01; -1.5859697E-01;
    -9.2502871E-02; -2.6084314E-02; -4.1360199E-03; -3.4034030E-04;
    -1.1564890E-05; 0.0000000E+00 ]%float.

Definition TC_Coeff_E_mVToTemp_Range2 : list float :=
  [ 0.0000000E+00; 1.7057035E+01; -2.3301759E-01; 6.5435585E-03;
    -7.3562749E-05; -1.7896001E-06; 8.4036165E-08; -1.3735879E-09;
    1.0629823E-11; -3.2447087E-14 ]%float.

Definition TC_E_mVToTemp : list RangePoly :=
  [
    {| min := -8.84; max := 0.0;
       poly := {| pCoefficients := Some TC_Coeff_E_mVToTemp_Range1;
                  length := countof TC_Coeff_E_mVToTemp_Range1 |} |};
    {| min := 0.0; max := 76.38;
       poly := {| pCoefficients := Some TC_Coeff_E_mVToTemp_Range2;
                  length := countof TC_Coeff_E_mVToTemp_Range2 |} |}
  ]%float.

Definition TC_E_mVToTemp_len : Z := countof TC_E_mVToTemp.

Definition TC_Coeff_E_TempToMV_Range1 : list float :=
  [ 0.000000000000E+00; 0.586655087080E-01; 0.454109771240E-04;
    -0.779980486860E-06; -0.258001608430E-07; -0.594525830570E-09;
    -0.932140586670E-11; -0.102876055340E-12; -0.803701236210E-15;
    -0.439794973910E-17; -0.164147763550E-19; -0.396736195160E-22;
    -0.558273287210E-25; -0.346578420130E-28 ]%float.

Definition TC_Coeff_E_TempToMV_Range2 : list float :=
  [ 0.000000000000E+00; 0.586655087100E-01; 0.450322755820E-04;
    0.289084072120E-07; -0.330568966520E-09; 0.650244032700E-12;
    -0.191974955040E-15; -0.125366004970E-17; 0.214892175690E-20;
    -0.143880417820E-23; 0.359608994810E-27 ]%float.

Definition TC_E_TempToMV : list RangePoly :=
  [
    {| min := -270.5; max := 0.0;
       poly := {| pCoefficients := Some TC_Coeff_E_TempToMV_Range1;
                  length := countof TC_Coeff_E_TempToMV_Range1 |} |};
    {| min := 0.0; max := 1000.5;
       poly := {| pCoefficients := Some TC_Coeff_E_TempToMV_Range2;
                  length := countof TC_Coeff_E_TempToMV_Range2 |} |}
  ]%float.

Definition TC_E_TempToMV_len : Z := countof TC_E_TempToMV.

Definition TC_Coeff_K_mVToTemp_Range1 : list float :=
  [ 0.0000000E+00; 2.5173462E+01; -1.1662878E+00; -1.0833638E+00;
    -8.9773540E-01; -3.7342377E-01; -8.6632643E-02; -1.0450598E-02;
    -5.1920577E-04; 0.0000000E+00 ]%float.

Definition TC_Coeff_K_mVToTemp_Range2 : list float :=
  [ 0.000000E+00; 2.508355E+01; 7.860106E-02; -2.503131E-01; 8.315270E-02;
    -1.228034E-02; 9.804036E-04; -4.413030E-05; 1.057734E-06; -1.052755E-08 ]%float.

Definition TC_Coeff_K_mVToTemp_Range3 : list float :=
  [ -1.318058E+02; 4.830222E+01; -1.646031E+00; 5.464731E-02; -9.650715E-04;
    8.802193E-06; -3.110810E-08; 0.000000E+00; 0.000000E+00; 0.000000E+00 ]%float.

Definition TC_K_mVToTemp : list RangePoly :=
  [
    {| min := -5.895; max := 0.0;
       poly := {| pCoefficients := Some TC_Coeff_K_mVToTemp_Range1;
                  length := countof TC_Coeff_K_mVToTemp_Range1 |} |};
    {| min := 0.0; max := 20.644;
       poly := {| pCoefficients := Some TC_Coeff_K_mVToTemp_Range2;
                  length := countof TC_Coeff_K_mVToTemp_Range2 |} |};
    {| min := 20.644; max := 52.425;
       poly := {| pCoefficients := Some TC_Coeff_K_mVToTemp_Range3;
                  length := countof TC_Coeff_K_mVToTemp_Range3 |} |}
  ]%float.

Definition TC_K_mVToTemp_len : Z := countof TC_K_mVToTemp.

Definition TC_Coeff_K_TempToMV_A0 : float := (0.118597600000E+00)%float.

Definition TC_Coeff_K_TempToMV_A1 : float := (-0.118343200000E-03)%float.

Definition TC_Coeff_K_TempToMV_A2 : float := (0.126968600000E+03)%float.

Definition TC_Coeff_K_TempToMV_Range1 : list float :=
  [ 0.000000000000E+00; 0.394501280250E-01; 0.236223735980E-04;
    -0.328589067840E-06; -0.499048287770E-08; -0.675090591730E-10;
    -0.574103274280E-12; -0.310888728940E-14; -0.104516093650E-16;
    -0.198892668780E-19; -0.163226974860E-22 ]%float.

Definition TC_Coeff_K_TempToMV_Range2 : list float :=
  [ -0.176004136860E-01; 0.389212049750E-01; 0.185587700320E-04;
    -0.994575928740E-07; 0.318409457190E-09; -0.560728448890E-12;
    0.560750590590E-15; -0.320207200030E-18; 0.971511471520E-22;
    -0.121047212750E-25 ]%float.

Definition TC_Coeff_N_mVToTemp_Range1 : list float :=
  [ 0.0000000E+00; 3.8436847E+01; 1.1010485E+00; 5.2229312E+00;
    7.2060525E+00; 5.8488586E+00; 2.7754916E+00; 7.7075166E-01;
    1.1582665E-01; 7.3138868E-03 ]%float.

Definition TC_Coeff_N_mVToTemp_Range2 : list float :=
  [ 0.00000E+00; 3.86896E+01; -1.08267E+00; 4.70205E-02; -2.12169E-06;
    -1.17272E-04; 5.39280E-06; -7.98156E-08; 0.00000E+00; 0.00000E+00 ]%float.

Definition TC_Coeff_N_mVToTemp_Range3 : list float :=
  [ 1.972485E+01; 3.300943E+01; -3.915159E-01; 9.855391E-03; -1.274371E-04;
    7.767022E-07; 0.000000E+00; 0.000000E+00; 0.000000E+00; 0.000000E+00 ]%float.

Definition TC_N_mVToTemp : list RangePoly :=
  [
    {| min := -4; max := 0.0;
       poly := {| pCoefficients := Some TC_Coeff_N_mVToTemp_Range1;
                  length := countof TC_Coeff_N_mVToTemp_Range1 |} |};
    {| min := 0.0; max := 20.613;
       poly := {| pCoefficients := Some TC_Coeff_N_mVToTemp_Range2;
                  length := countof TC_Coeff_N_mVToTemp_Range2 |} |};
    {| min := 20.613; max := 47.52;
       poly := {| pCoefficients := Some TC_Coeff_N_mVToTemp_Range3;
                  length := countof TC_Coeff_N_mVToTemp_Range3 |} |}
  ]%float.

Definition TC_N_mVToTemp_len : Z := countof TC_N_mVToTemp.

Definition TC_Coeff_N_TempToMV_Range1 : list float :=
  [ 0.000000000000E+00; 0.261591059620E-01; 0.109574842280E-04;
    -0.938411115540E-07; -0.464120397590E-10; -0.263033577160E-11;
    -0.226534380030E-13; -0.760893007910E-16; -0.934196678350E-19 ]%float.

Definition TC_Coeff_N_TempToMV_Range2 : list float :=
  [ 0.000000000000E+00; 0.259293946010E-01; 0.157101418800E-04;
    0.438256272370E-07; -0.252611697940E-09; 0.643118193390E-12;
    -0.100634715190E-14; 0.997453389920E-18; -0.608632456070E-21;
    0.208492293390E-24; -0.306821961510E-28 ]%float.

Definition TC_N_TempToMV : list RangePoly :=
  [
    {| min := -270.5; max := 0.0;
       poly := {| pCoefficients := Some TC_Coeff_N_TempToMV_Range1;
                  length := countof TC_Coeff_N_TempToMV_Range1 |} |};
    {| min := 0.0; max := 1300.5;
       poly := {| pCoefficients := Some TC_Coeff_N_TempToMV_Range2;
                  length := countof TC_Coeff_N_TempToMV_Range2 |} |}
  ]%float.

Definition TC_N_TempToMV_len : Z := countof TC_N_TempToMV.
(** ** Functions of [thermocouple_sensor.c] *)

(** The [for] loop of [FindPolyCoeff] with [n] iterations left, at index [i]. *)
Fixpoint FindPolyCoeff_loop (ranges : ptr RangePoly) (n : nat) (i : Z)
    (value : float) : M (option PolyCoeff) :=
  match n with
  | O => ret None
  | S n' =>
      r <- load Read_ranges ranges i ;;
      if ((min r <=? value) && (value <=? max r))%float
      then ret (Some (poly r))
      else FindPolyCoeff_loop ranges n' (i + 1) value
  end.

(** [FindPolyCoeff(ranges, len, value)]: [None] is the [NULL] result. *)
Definition FindPolyCoeff (ranges : ptr RangePoly) (len : Z) (value : float)
    : M (option PolyCoeff) :=
  tell Call_FindPolyCoeff ;;;
  FindPolyCoeff_loop ranges (Z.to_nat len) 0 value.

(** The [for] loop of [Polynomial_Evaluate] when [i + 1 = n]: the body runs
    for [i = n - 1] down to [0]. *)
Fixpoint Polynomial_Evaluate_loop (pCoefficient : ptr float) (n : nat)
    (input result : float) : M float :=
  match n with
  | O => ret result
  | S i =>
      c <- load Read_pCoefficient pCoefficient (Z.of_nat i) ;;
      Polynomial_Evaluate_loop pCoefficient i input (result * input + c)%float
  end.

(** [Polynomial_Evaluate(pCoefficient, length, input)].  The argument is
    converted to the [uint8_t] parameter; [int8_t i = length - 1] converts
    the [int] value [length - 1]; the loop runs while [i >= 0]. *)
Definition Polynomial_Evaluate (pCoefficient : ptr float) (length : Z)
    (input : float) : M float :=
  tell Call_Polynomial_Evaluate ;;;
  let length := to_uint8 length in
  let i := to_int8 (length - 1) in
  Polynomial_Evaluate_loop pCoefficient (Z.to_nat (i + 1)) input 0%float.

(** The [switch] of [TC_CalculateTemperature]: the values of [ranges] and
    [ranges_len] after it. *)
Definition TC_mVToTemp_table (type : ThermocoupleType) : ptr RangePoly * Z :=
  if type =? TC_TYPE_R then (Some TC_R_mVToTemp, TC_R_mVToTemp_len)
  else if type =? TC_TYPE_S then (Some TC_S_mVToTemp, TC_S_mVToTemp_len)
  else if type =? TC_TYPE_B then (Some TC_B_mVToTemp, TC_B_mVToTemp_len)
  else if type =? TC_TYPE_J then (Some TC_J_mVToTemp, TC_J_mVToTemp_len)
  else if type =? TC_TYPE_T then (Some TC_T_mVToTemp, TC_T_mVToTemp_len)
  else if type =? TC_TYPE_E then (Some TC_E_mVToTemp, TC_E_mVToTemp_len)
  else if type =? TC_TYPE_K then (Some TC_K_mVToTemp, TC_K_mVToTemp_len)
  else if type =? TC_TYPE_N then (Some TC_N_mVToTemp, TC_N_mVToTemp_len)
  else (None, 0).

(** The part shared by both conversions after the [switch]:
    [if (ranges != NULL) { poly = FindPolyCoeff(...); if (poly != NULL) ... }]. *)
Definition lookup_and_evaluate (ranges : ptr RangePoly) (ranges_len : Z)
    (x : float) (current : float) : M float :=
  match ranges with
  | None => ret current
  | Some _ =>
      p <- FindPolyCoeff ranges ranges_len x ;;
      match p with
      | None => ret current
      | Some p => Polynomial_Evaluate (pCoefficients p) (length p) x
      end
  end.

Definition TC_CalculateTemperature (type : ThermocoupleType) (voltage : float)
    : M float :=
  let temperature := TC_CONVERSION_FAILED in
  let '(ranges, ranges_len) := TC_mVToTemp_table type in
  lookup_and_evaluate ranges ranges_len voltage temperature.

Section Libm.

(** [exp] and [pow] of [math.h]. *)
Variable exp : float -> float.
Variable pow : float -> float -> float.

(** [case TC_TYPE_K] of [TC_CalculateVoltage]: the value of [voltage] at
    its [break]. *)
Definition TC_CalculateVoltage_case_K (temperature : float) : M float :=
  let voltage := TC_CONVERSION_FAILED in
  let '(pCoeff, length, voltage) :=
    if ((-270.5 <=? temperature) && (temperature <=? 0.0))%float then
      (Some TC_Coeff_K_TempToMV_Range1,
       countof TC_Coeff_K_TempToMV_Range1, voltage)
    else if ((0.0 <? temperature) && (temperature <=? 1372.5))%float then
      (Some TC_Coeff_K_TempToMV_Range2,
       countof TC_Coeff_K_TempToMV_Range2, voltage)
    else
      (None, 0, TC_CONVERSION_FAILED) in
  voltage <- Polynomial_Evaluate pCoeff length temperature ;;
  if (0.0 <? temperature)%float then
    let correction :=
      (TC_Coeff_K_TempToMV_A0
       * exp (TC_Coeff_K_TempToMV_A1
              * pow (temperature - TC_Coeff_K_TempToMV_A2) 2.0))%float in
    ret (voltage + correction)%float
  else ret voltage.

(** The [switch] of [TC_CalculateVoltage]: the values of [voltage],
    [ranges] and [ranges_len] after it. *)
Definition TC_CalculateVoltage_switch (type : ThermocoupleType)
    (temperature : float) : M (float * ptr RangePoly * Z) :=
  let voltage := TC_CONVERSION_FAILED in
  if type =? TC_TYPE_R then ret (voltage, Some TC_R_TempToMV, TC_R_TempToMV_len)
  else if type =? TC_TYPE_S then ret (voltage, Some TC_S_TempToMV, TC_S_TempToMV_len)
  else if type =? TC_TYPE_B then ret (voltage, Some TC_B_TempToMV, TC_B_TempToMV_len)
  else if type =? TC_TYPE_J then ret (voltage, Some TC_J_TempToMV, TC_J_TempToMV_len)
  else if type =? TC_TYPE_T then ret (voltage, Some TC_T_TempToMV, TC_T_TempToMV_len)
  else if type =? TC_TYPE_E then ret (voltage, Some TC_E_TempToMV, TC_E_TempToMV_len)
  else if type =? TC_TYPE_K then
    voltage <- TC_CalculateVoltage_case_K temperature ;;
    ret (voltage, None, 0)
  else if type =? TC_TYPE_N then ret (voltage, Some TC_N_TempToMV, TC_N_TempToMV_len)
  else ret (TC_CONVERSION_FAILED, None, 0).

Definition TC_CalculateVoltage (type : ThermocoupleType) (temperature : float)
    : M float :=
  s <- TC_CalculateVoltage_switch type temperature ;;
  let '(voltage, ranges, ranges_len) := s in
  lookup_and_evaluate ranges ranges_len temperature voltage.

End Libm.

(** ** Definitions used to state the properties *)

(** [value] lies in the closed interval of the entry [r]: the test of
    [FindPolyCoeff]. *)
Definition in_range (value : float) (r : RangePoly) : bool :=
  ((min r <=? value) && (value <=? max r))%float.

(** Horner's recurrence of the specification, over any arithmetic:
    [result = 0; for i from n-1 downto 0: result = result*x + c[i]]. *)
Section Horner.
Context {T : Type} (zero : T) (add mul : T -> T -> T).

Definition Horner_recurrence (c : list T) (x : T) : T :=
  fold_left (fun result ci => add (mul result x) ci) (rev c) zero.

(** The nested form [c0 + x*(c1 + x*(c2 + ...))], each step computed as
    [inner * x + ci]. *)
Fixpoint Horner (c : list T) (x : T) : T :=
  match c with
  | [] => zero
  | ci :: c' => add (mul (Horner c' x) x) ci
  end.
End Horner.

Definition Horner_recurrence_double : list float -> float -> float :=
  Horner_recurrence 0%float PrimFloat.add PrimFloat.mul.

Definition Horner_double : list float -> float -> float :=
  Horner 0%float PrimFloat.add PrimFloat.mul.

(** [c[0] + c[1]*x + ... + c[n-1]*x^(n-1)] over the integers, term by term. *)
Fixpoint power_sum_from (c : list Z) (x : Z) (k : nat) : Z :=
  match c with
  | [] => 0
  | ci :: c' => ci * x ^ Z.of_nat k + power_sum_from c' x (S k)
  end.

Definition power_sum (c : list Z) (x : Z) : Z := power_sum_from c x 0.

(** The eight enumerators. *)
Definition valid_type (type : ThermocoupleType) : bool :=
  (0 <=? type) && (type <=? 7).

Definition all_types : list ThermocoupleType :=
  [TC_TYPE_R; TC_TYPE_S; TC_TYPE_B; TC_TYPE_J;
   TC_TYPE_T; TC_TYPE_E; TC_TYPE_K; TC_TYPE_N].

(** The supported domains of section 6 of the specification, as pairs
    (lowest, highest): voltage in mV and temperature in degrees Celsius. *)
Definition voltage_domain (type : ThermocoupleType) : float * float :=
  if type =? TC_TYPE_R then (-0.228, 21.105)%float
  else if type =? TC_TYPE_S then (-0.237, 18.697)%float
  else if type =? TC_TYPE_B then (0.292, 13.825)%float
  else if type =? TC_TYPE_J then (-8.1, 69.58)%float
  else if type =? TC_TYPE_T then (-5.61, 20.88)%float
  else if type =? TC_TYPE_E then (-8.84, 76.38)%float
  else if type =? TC_TYPE_K then (-5.895, 52.425)%float
  else (-4, 47.52)%float.

Definition temperature_domain (type : ThermocoupleType) : float * float :=
  if type =? TC_TYPE_R then (-50.5, 1768.5)%float
  else if type =? TC_TYPE_S then (-50.5, 1768.5)%float
  else if type =? TC_TYPE_B then (-0.5, 1820.5)%float
  else if type =? TC_TYPE_J then (-210.5, 1200.5)%float
  else if type =? TC_TYPE_T then (-270.5, 400.5)%float
  else if type =? TC_TYPE_E then (-270.5, 1000.5)%float
  else if type =? TC_TYPE_K then (-270.5, 1372.5)%float
  else (-270.5, 1300.5)%float.

(** [x] lies in the closed interval [d]. *)
Definition in_domain (x : float) (d : float * float) : bool :=
  ((fst d <=? x) && (x <=? snd d))%float.

(** A table is a chain: every entry has [min < max], and the [max] of an
    entry is the [min] of the next one (the same binary64 value). *)
Fixpoint chain_ok (l : list RangePoly) : bool :=
  match l with
  | [] => true
  | r1 :: l' =>
      (min r1 <? max r1)%float
      && match l' with
         | [] => true
         | r2 :: _ => PrimFloat.Leibniz.eqb (max r1) (min r2)
         end
      && chain_ok l'
  end.

(** The entry points to an array of coefficients whose size is the recorded
    [length], between 1 and 128. *)
Definition entry_ok (r : RangePoly) : bool :=
  match pCoefficients (poly r) with
  | None => false
  | Some c =>
      (length (poly r) =? countof c) && (1 <=? countof c) && (countof c <=? 128)
  end.

(** The interval from the [min] of the first entry to the [max] of the last. *)
Definition hull (l : list RangePoly) : option (float * float) :=
  match l with
  | [] => None
  | r :: l' => Some (min r, max (last l' r))
  end.

(** The tables the two [switch] statements select, as lists. *)
Definition mVToTemp_ranges (type : ThermocoupleType) : list RangePoly :=
  match fst (TC_mVToTemp_table type) with
  | Some l => l
  | None => []
  end.

Definition TempToMV_ranges (type : ThermocoupleType) : list RangePoly :=
  if type =? TC_TYPE_R then TC_R_TempToMV
  else if type =? TC_TYPE_S then TC_S_TempToMV
  else if type =? TC_TYPE_B then TC_B_TempToMV
  else if type =? TC_TYPE_J then TC_J_TempToMV
  else if type =? TC_TYPE_T then TC_T_TempToMV
  else if type =? TC_TYPE_E then TC_E_TempToMV
  else if type =? TC_TYPE_N then TC_N_TempToMV
  else [].

(** Every [RangePoly] table of the source, with the domain that section 6 of
    the specification lists for its type and direction.  Type K has no table
    for the direction temperature to voltage: its two ranges are tested in
    [TC_CalculateVoltage] itself. *)
Definition all_tables : list (list RangePoly * (float * float)) :=
  [ (TC_R_mVToTemp, voltage_domain TC_TYPE_R);
    (TC_R_TempToMV, temperature_domain TC_TYPE_R);
    (TC_S_mVToTemp, voltage_domain TC_TYPE_S);
    (TC_S_TempToMV, temperature_domain TC_TYPE_S);
    (TC_B_mVToTemp, voltage_domain TC_TYPE_B);
    (TC_B_TempToMV, temperature_domain TC_TYPE_B);
    (TC_J_mVToTemp, voltage_domain TC_TYPE_J);
    (TC_J_TempToMV, temperature_domain TC_TYPE_J);
    (TC_T_mVToTemp, voltage_domain TC_TYPE_T);
    (TC_T_TempToMV, temperature_domain TC_TYPE_T);
    (TC_E_mVToTemp, voltage_domain TC_TYPE_E);
    (TC_E_TempToMV, temperature_domain TC_TYPE_E);
    (TC_K_mVToTemp, voltage_domain TC_TYPE_K);
    (TC_N_mVToTemp, voltage_domain TC_TYPE_N);
    (TC_N_TempToMV, temperature_domain TC_TYPE_N) ].

(** The result is a number other than the failure value. *)
Definition converted (m : M float) : bool :=
  match result m with
  | Some x => negb (x =? TC_CONVERSION_FAILED)%float
  | None => false
  end.

Section Correction.
Variable exp : float -> float.
Variable pow : float -> float -> float.

(** The term that [TC_CalculateVoltage] adds for type K above 0:
    [A0 * exp(A1 * pow(temperature - A2, 2.0))]. *)
Definition K_correction (temperature : float) : float :=
  (TC_Coeff_K_TempToMV_A0
   * exp (TC_Coeff_K_TempToMV_A1
          * pow (temperature - TC_Coeff_K_TempToMV_A2) 2.0))%float.
End Correction.

(** The coefficients that [TC_CalculateVoltage] evaluates at [temperature]:
    those of the first matching entry of the type's table, and for type K
    those chosen by the two tests of [case TC_TYPE_K]. *)
Definition matched_TempToMV (type : ThermocoupleType) (temperature : float)
    : option (list float) :=
  if type =? TC_TYPE_K then
    if ((-270.5 <=? temperature) && (temperature <=? 0.0))%float
    then Some TC_Coeff_K_TempToMV_Range1
    else if ((0.0 <? temperature) && (temperature <=? 1372.5))%float
    then Some TC_Coeff_K_TempToMV_Range2
    else None
  else
    match find (in_range temperature) (TempToMV_ranges type) with
    | Some r => pCoefficients (poly r)
    | None => None
    end.

(** ** A reference instance of the C library functions

    [exp] and [pow] are parameters of the model.  To run the conversions of
    type K above 0 degrees the parameters are instantiated by the two
    functions below, written with binary64 operations only. *)

(** The integer nearest to [y], for [|y| < 2^51]. *)
Definition round_to_integral (y : float) : float :=
  (y + 6755399441055744.0 - 6755399441055744.0)%float.

(** The integer value of a binary64 number that holds an integer. *)
Definition Z_of_integral (y : float) : Z :=
  match Prim2SF y with
  | S754_finite s m e =>
      let a := if 0 <=? e then Zpos m * 2 ^ e else Zpos m / 2 ^ (- e) in
      if s then - a else a
  | _ => 0
  end.

(** 1, 1, 1/2!, 1/3!, ..., 1/13!. *)
Definition exp_series : list float :=
  [ 1.0; 1.0; 0.5; 0.16666666666666666; 0.041666666666666664;
    0.0083333333333333332; 0.0013888888888888889; 0.00019841269841269841;
    2.4801587301587302e-05; 2.7557319223985893e-06; 2.7557319223985888e-07;
    2.5052108385441720e-08; 2.0876756987868100e-09; 1.6059043836821613e-10
  ]%float.

(** [exp_ref x]: [x = k ln 2 + r] with [k] an integer and [|r| <= (ln 2)/2];
    the result is [2^k] times the series of [e^r]. *)
Definition exp_ref (x : float) : float :=
  if negb (x =? x)%float then x
  else if (709.782712893384 <? x)%float then infinity
  else if (x <? -745.2)%float then 0%float
  else
    let k := round_to_integral (x * 1.4426950408889634)%float in
    let r := (x - k * 0.693147180369123816490
                - k * 1.90821492927058770002e-10)%float in
    Z.ldexp (Horner_double exp_series r) (Z_of_integral k).

(** [pow_ref x y] for the exponent [2.0], the only one the source passes:
    the rounded square of [x]. *)
Definition pow_ref (x y : float) : float := (x * x)%float.
(** ** The round trip temperature, voltage, temperature *)

Section RoundTrip.
Variable exp : float -> float.
Variable pow : float -> float -> float.


End RoundTrip.



(** ** The conversions as functions of their inputs

    What the two public functions compute, written without pointers, loops
    or faults.  [Horner_double] is the nested Horner form. *)

Definition temperature_of_voltage (type : ThermocoupleType) (voltage : float)
    : float :=
  match find (in_range voltage) (mVToTemp_ranges type) with
  | Some r =>
      match pCoefficients (poly r) with
      | Some c => Horner_double c voltage
      | None => TC_CONVERSION_FAILED
      end
  | None => TC_CONVERSION_FAILED
  end.

Section VoltageOfTemperature.
Variable exp : float -> float.
Variable pow : float -> float -> float.

Definition voltage_of_temperature (type : ThermocoupleType)
  (temperature : float) : float :=
if type =? TC_TYPE_K then
  let polynomial :=
    match matched_TempToMV TC_TYPE_K temperature with
    | Some c => Horner_double c temperature
    | None => 0%float
    end in
  if (0.0 <? temperature)%float
  then (polynomial + K_correction exp pow temperature)%float
  else polynomial
else
  match matched_TempToMV type temperature with
  | Some c => Horner_double c temperature
  | None => TC_CONVERSION_FAILED
  end.
End VoltageOfTemperature.

(** The number of entries that the scan of [FindPolyCoeff] reads in [l]:
    up to and including the first one that contains [value]. *)
Fixpoint scanned (value : float) (l : list RangePoly) : nat :=
  match l with
  | [] => 0
  | r :: l' => if in_range value r then 1 else S (scanned value l')
  end.

(** Numbers of array reads and of calls of each function in a trace. *)
Definition is_read (e : event) : bool :=
  match e with
  | Read_ranges _ | Read_pCoefficient _ => true
  | _ => false
  end.

Definition is_Call_FindPolyCoeff (e : event) : bool :=
  match e with
  | Call_FindPolyCoeff => true
  | _ => false
  end.

Definition is_Call_Polynomial_Evaluate (e : event) : bool :=
  match e with
  | Call_Polynomial_Evaluate => true
  | _ => false
  end.

Definition count (f : event -> bool) (t : list event) : nat :=
  List.length (filter f t).

Definition reads (t : list event) : nat := count is_read t.
Definition calls_FindPolyCoeff (t : list event) : nat :=
  count is_Call_FindPolyCoeff t.
Definition calls_Polynomial_Evaluate (t : list event) : nat :=
  count is_Call_Polynomial_Evaluate t.

(** The largest number of array reads of a lookup in [l] followed by the
    evaluation of the matched polynomial. *)
Fixpoint reads_bound (l : list RangePoly) : nat :=
  match l with
  | [] => 0
  | r :: l' => Nat.max (1 + Z.to_nat (length (poly r))) (1 + reads_bound l')
  end.


(** ** Values of binary64 numbers

    Definitions used to state the error of one rounded product and of one
    rounded sum. *)

(** After shifting [m0] right by [log2 K] bits: [m0 = m * K + rem] where
    the round bit says whether [rem] reaches [K / 2] and the sticky bit
    whether something lies strictly between. *)
Definition shr_inv (m0 K : Z) (st : shr_record) : Prop :=
  0 <= shr_m st /\
  exists t,
    2 * (m0 - shr_m st * K) = (if shr_r st then K else 0) + t /\
    (if shr_s st then 0 < t < K else t = 0).

(** The exponent that [binary_round_aux] gives to a number of [k] binary
    digits: [fexp prec emax] with the parameters of binary64. *)
Definition fexp64 (k : Z) : Z := Z.max (k - 53) (-1074).

(** The float that [binary_round_aux] builds from mantissa [mR] and
    exponent [eR]. *)
Definition SF_of (s : bool) (mR eR : Z) : spec_float :=
  match mR with
  | Z0 => S754_zero s
  | Zpos p => S754_finite s p eR
  | Zneg _ => S754_nan
  end.

(** [R] is the rounding of [m * 2^e]: it is [mR * 2^eR] with [e <= eR],
    and the error is at most [2^-53] of the value, or at most half of the
    smallest positive number when the input is finer than it. *)
Definition rounded (s : bool) (m e : Z) (R : spec_float) : Prop :=
  exists mR eR,
    R = SF_of s mR eR /\ 0 <= mR /\ e <= eR /\ -1074 <= eR <= 971 /\
    (2 ^ 53 * Z.abs (mR * 2 ^ (eR - e) - m) <= m
     \/ (e < -1074 /\ 2 * Z.abs (mR * 2 ^ (eR - e) - m) <= 2 ^ (-1074 - e))).

(** The value of a finite binary64 number in units of [2^-1074], the
    smallest positive one: an integer. *)
Definition SF2Z (x : spec_float) : Z :=
  match x with
  | S754_finite s m e => cond_Zopp s (Zpos m * 2 ^ (e + 1074))
  | _ => 0
  end.

(** Zeros and finite numbers: neither NaN nor an infinity. *)
Definition SFfinite (x : spec_float) : bool :=
  match x with
  | S754_zero _ | S754_finite _ _ _ => true
  | _ => false
  end.

(** The value of a finite float in units of [2^-1074]. *)
Definition F2Z (x : float) : Z := SF2Z (Prim2SF x).

(** The float is a number: neither NaN nor infinite. *)
Definition finite (x : float) : bool := SFfinite (Prim2SF x).


(** ** Bounds on a polynomial over an interval of inputs

    Intervals of values with integer bounds in units of [2^-256].  Each
    bound accounts for the rounding of every product and every sum of the
    recurrence. *)

Definition ivl : Type := (Z * Z)%type.

(** [2^-256] in units of [2^-1074]. *)
Definition ivl_unit : Z := 2 ^ 818.

(** [z], a value in units of [2^-1074], lies in the interval [J]. *)
Definition in_ivl (z : Z) (J : ivl) : Prop :=
  fst J * ivl_unit <= z <= snd J * ivl_unit.

(** An interval around a value given in units of [2^-1074]. *)
Definition ivl_of (z : Z) : ivl := (z / ivl_unit, z / ivl_unit + 1).

(** The products of a value of [R] by a value of [X], in units of
    [2^-512]. *)
Definition ivl_mul (R X : ivl) : ivl :=
  let '(rl, ru) := R in
  let '(xl, xu) := X in
  (Z.min (Z.min (rl * xl) (rl * xu)) (Z.min (ru * xl) (ru * xu)),
   Z.max (Z.max (rl * xl) (rl * xu)) (Z.max (ru * xl) (ru * xu))).

(** The rounded products that correspond to exact products in [P] (in
    units of [2^-512]); no result when the magnitude could overflow. *)
Definition ivl_round_mul (P : ivl) : option ivl :=
  let '(pl, pu) := P in
  let mag := Z.max (Z.abs pl) (Z.abs pu) in
  if Z.log2 mag <? 1400 then
    let err := mag / 2 ^ 53 + 2 in
    Some ((pl - err) / 2 ^ 256, (pu + err) / 2 ^ 256 + 1)
  else None.

(** The rounded sums that correspond to exact sums in [S]. *)
Definition ivl_round_add (S : ivl) : option ivl :=
  let '(sl, su) := S in
  let mag := Z.max (Z.abs sl) (Z.abs su) in
  if Z.log2 mag <? 1200 then
    let err := mag / 2 ^ 53 + 1 in
    Some (sl - err, su + err)
  else None.

(** One step [result * x + c] of the recurrence, for [c] in [C]. *)
Definition ivl_step (R X C : ivl) : option ivl :=
  match ivl_round_mul (ivl_mul R X) with
  | Some (pl, pu) => ivl_round_add (pl + fst C, pu + snd C)
  | None => None
  end.

(** The values of the nested Horner form with coefficients in the
    intervals [c], for inputs in [X]. *)
Fixpoint Horner_bounds (c : list ivl) (X : ivl) : option ivl :=
  match c with
  | [] => Some (0, 0)
  | ci :: c' =>
      match Horner_bounds c' X with
      | Some R => ivl_step R X ci
      | None => None
      end
  end.

(** The interval from [lo] to [hi] cut into pieces of the given width, at
    most [n + 1] of them. *)
Fixpoint ivl_pieces (lo hi width : Z) (n : nat) : list ivl :=
  match n with
  | O => [(lo, hi)]
  | S n' =>
      if lo + width <? hi
      then (lo, lo + width) :: ivl_pieces (lo + width) hi width n'
      else [(lo, hi)]
  end.

(** The hull of the bounds computed on each piece. *)
Fixpoint Horner_bounds_pieces (c : list ivl) (pieces : list ivl) : option ivl :=
  match pieces with
  | [] => None
  | X :: rest =>
      match rest with
      | [] => Horner_bounds c X
      | _ :: _ =>
          match Horner_bounds c X, Horner_bounds_pieces c rest with
          | Some (l1, u1), Some (l2, u2) => Some (Z.min l1 l2, Z.max u1 u2)
          | _, _ => None
          end
      end
  end.


(** ** Bounds for the polynomials of the source *)

(** Bounds on the nested Horner form with coefficients [c], computed in
    binary64, for every input between the floats [lo] and [hi]. *)
Definition polynomial_bounds (c : list float) (lo hi : float) : option ivl :=
  if forallb finite c && finite lo && finite hi then
    Horner_bounds (map (fun ci => ivl_of (F2Z ci)) c)
      (fst (ivl_of (F2Z lo)), snd (ivl_of (F2Z hi)))
  else None.

(** The magnitude of [TC_CONVERSION_FAILED], [10^6], in units of [2^-256]. *)
Definition ivl_limit : Z := 10 ^ 6 * 2 ^ 256.

(** Bounds were found and lie strictly between [-10^6] and [10^6]. *)
Definition within_limit (o : option ivl) : bool :=
  match o with
  | Some J => (- ivl_limit <? fst J) && (snd J <? ivl_limit)
  | None => false
  end.

(** The polynomial of the entry stays strictly between [-10^6] and [10^6]
    on the interval of the entry. *)
Definition range_bounded (r : RangePoly) : bool :=
  match pCoefficients (poly r) with
  | Some c => within_limit (polynomial_bounds c (min r) (max r))
  | None => false
  end.

(** Bounds on [voltage + A0 * e] for [voltage] in [V] and [e] between 0
    and 1: the sum that [TC_CalculateVoltage] returns for type K above 0
    when [e] is the value of the call of [exp]. *)
Definition K_correction_bounds (V : ivl) : option ivl :=
  match
    ivl_round_mul
      (ivl_mul (ivl_of (F2Z TC_Coeff_K_TempToMV_A0))
               (fst (ivl_of (F2Z 0)), snd (ivl_of (F2Z 1))))
  with
  | Some C => ivl_round_add (fst V + fst C, snd V + snd C)
  | None => None
  end.

(** [x] is a number strictly between [TC_CONVERSION_FAILED] and [1.0e6]. *)
Definition inside_limit (x : float) : bool :=
  ((TC_CONVERSION_FAILED <? x) && (x <? 1.0e6))%float.

(** The value that [exp] returns in the correction term of type K. *)
Section CorrectionExp.
Variable exp : float -> float.
Variable pow : float -> float -> float.

Definition K_correction_exp (temperature : float) : float :=
  exp (TC_Coeff_K_TempToMV_A1
       * pow (temperature - TC_Coeff_K_TempToMV_A2) 2.0)%float.
End CorrectionExp.
(** ** Order of binary64 values *)

Module F64.

(** An integer that orders binary64 values as [<=?] does; [None] for NaN. *)
Definition SFkey (x : spec_float) : option Z :=
  match x with
  | S754_nan => None
  | S754_zero _ => Some 0
  | S754_infinity s => Some (if s then - 2 ^ 65 else 2 ^ 65)
  | S754_finite s m e =>
      let k := (e + 1075) * 2 ^ 53 + Zpos m in
      Some (if s then - k else k)
  end.

Definition key (x : float) : option Z := SFkey (Prim2SF x).

Definition cmp_keys (f : Z -> Z -> bool) (a b : option Z) : bool :=
  match a, b with
  | Some a, Some b => f a b
  | _, _ => false
  end.

Lemma digits2_pos_bound (m : positive) : Zpos m < 2 ^ Zpos (digits2_pos m).
Proof.
  induction m as [m IH | m IH | ]; cbn [digits2_pos].
  - rewrite Pos2Z.inj_succ, Z.pow_succ_r by lia. lia.
  - rewrite Pos2Z.inj_succ, Z.pow_succ_r by lia. lia.
  - reflexivity.
Qed.

Lemma bounded_range (m : positive) (e : Z) :
  bounded prec emax m e = true ->
  Zpos m < 2 ^ 53 /\ -1074 <= e <= 971.
Proof.
  unfold bounded, canonical_mantissa, fexp, SpecFloat.emin, prec, emax.
  intros H. apply andb_prop in H. destruct H as [Hc He].
  apply Z.eqb_eq in Hc. apply Z.leb_le in He.
  pose proof (digits2_pos_bound m) as Hd.
  assert (Hle : Zpos (digits2_pos m) <= 53) by lia.
  split; [ | lia ].
  eapply Z.lt_le_trans; [ exact Hd | ].
  apply Z.pow_le_mono_r; lia.
Qed.

Lemma SFcompare_key (x y : spec_float) :
  valid_binary x = true -> valid_binary y = true ->
  SFcompare x y =
    match SFkey x, SFkey y with
    | Some a, Some b => Some (a ?= b)
    | _, _ => None
    end.
Proof.
  intros Hx Hy.
  destruct x as [sx | sx | | sx mx ex], y as [sy | sy | | sy my ey];
    cbn [SFcompare SFkey]; try reflexivity;
    try (destruct sx; reflexivity); try (destruct sy; reflexivity);
    try (destruct sx, sy; reflexivity).
  all: cbn [valid_binary SpecFloat.valid_binary] in Hx, Hy.
  all: try (apply bounded_range in Hx); try (apply bounded_range in Hy).
  all: set (K := 2 ^ 53) in *; assert (HK : K = 9007199254740992) by reflexivity.
  all: set (I := 2 ^ 65) in *; assert (HI : I = 36893488147419103232) by reflexivity.
  all: try change (Pos.compare_cont Eq mx my) with (Z.compare (Zpos mx) (Zpos my)).
  all: try destruct sx; try destruct sy.
  all: try destruct (Z.compare_spec ex ey) as [E | E | E]; try subst ey.
  all: try destruct (Z.compare_spec (Zpos mx) (Zpos my)) as [E' | E' | E'].
  all: cbn [CompOpp]; f_equal; symmetry.
  all: first [ apply Z.compare_lt_iff; lia | apply Z.compare_gt_iff; lia
             | apply Z.compare_eq_iff; lia ].
Qed.

Lemma compare_key (x y : float) :
  SFcompare (Prim2SF x) (Prim2SF y) =
    match key x, key y with
    | Some a, Some b => Some (a ?= b)
    | _, _ => None
    end.
Proof. apply SFcompare_key; apply Prim2SF_valid. Qed.

Lemma leb_key (x y : float) : (x <=? y)%float = cmp_keys Z.leb (key x) (key y).
Proof.
  rewrite leb_spec. unfold SFleb. rewrite compare_key. unfold cmp_keys.
  destruct (key x) as [a | ], (key y) as [b | ]; try reflexivity.
  all: unfold Z.leb; destruct (a ?= b); reflexivity.
Qed.

Lemma ltb_key (x y : float) : (x <? y)%float = cmp_keys Z.ltb (key x) (key y).
Proof.
  rewrite ltb_spec. unfold SFltb. rewrite compare_key. unfold cmp_keys.
  destruct (key x) as [a | ], (key y) as [b | ]; try reflexivity.
  all: unfold Z.ltb; destruct (a ?= b); reflexivity.
Qed.

Lemma eqb_key (x y : float) : (x =? y)%float = cmp_keys Z.eqb (key x) (key y).
Proof.
  rewrite eqb_spec. unfold SFeqb. rewrite compare_key. unfold cmp_keys.
  destruct (key x) as [a | ], (key y) as [b | ]; try reflexivity.
  all: destruct (Z.compare_spec a b), (Z.eqb_spec a b); try reflexivity; lia.
Qed.

End F64.

(** [float_order] decides a goal about [<=?], [<?] and [=?] on floats whose
    only facts needed are those of a total order on the values that are not
    NaN; constants are replaced by their keys. *)
Ltac float_key_of x :=
  let c := eval vm_compute in ((x =? x)%float || negb (x =? x)%float) in
  lazymatch c with
  | true => let k := eval vm_compute in (F64.key x) in
            change (F64.key x) with k in *
  | _ => let k' := fresh "k" in
         set (k' := F64.key x) in *; clearbody k'; destruct k'
  end.

Ltac float_keys :=
  rewrite ?F64.leb_key, ?F64.ltb_key, ?F64.eqb_key in *;
  repeat match goal with
         | |- context [F64.key ?x] => float_key_of x
         | H : context [F64.key ?x] |- _ => float_key_of x
         end;
  unfold F64.cmp_keys in *.

Ltac float_order :=
  float_keys;
  repeat match goal with
         | H : _ && _ = true |- _ => apply andb_prop in H; destruct H
         | H : _ && _ = false |- _ => apply andb_false_iff in H; destruct H
         | H : _ || _ = true |- _ => apply orb_prop in H; destruct H
         | H : _ || _ = false |- _ => apply orb_false_iff in H; destruct H
         end;
  rewrite ?andb_true_iff, ?andb_false_iff, ?orb_true_iff, ?orb_false_iff in *;
  try discriminate; try lia.

(** ** Rounding of binary64 products and sums

    The error of one rounded product and of one rounded sum, read off the
    definitions of [SFmul] and [SFadd] that specify the primitive
    operations. *)

Module Rounding.

(** *** Number of binary digits *)

Lemma digits2_pos_upper (m : positive) : Zpos m < 2 ^ Zpos (digits2_pos m).
Proof.
  induction m as [m IH | m IH | ]; cbn [digits2_pos].
  - rewrite Pos2Z.inj_succ, Z.pow_succ_r by lia. lia.
  - rewrite Pos2Z.inj_succ, Z.pow_succ_r by lia. lia.
  - reflexivity.
Qed.

Lemma digits2_pos_lower (m : positive) : 2 ^ (Zpos (digits2_pos m) - 1) <= Zpos m.
Proof.
  induction m as [m IH | m IH | ]; cbn [digits2_pos].
  - rewrite Pos2Z.inj_succ.
    replace (Z.succ (Zpos (digits2_pos m)) - 1)
      with (Z.succ (Zpos (digits2_pos m) - 1)) by lia.
    rewrite Z.pow_succ_r by lia. lia.
  - rewrite Pos2Z.inj_succ.
    replace (Z.succ (Zpos (digits2_pos m)) - 1)
      with (Z.succ (Zpos (digits2_pos m) - 1)) by lia.
    rewrite Z.pow_succ_r by lia. lia.
  - reflexivity.
Qed.

Lemma Zdigits2_unique (x k : Z) :
  0 < x -> 2 ^ (k - 1) <= x < 2 ^ k -> Zdigits2 x = k.
Proof.
  intros Hx [Hlo Hhi]. destruct x as [ | p | p]; try lia.
  cbn [Zdigits2].
  pose proof (digits2_pos_upper p) as Hu.
  pose proof (digits2_pos_lower p) as Hl.
  set (d := Zpos (digits2_pos p)) in *.
  assert (Hk : 0 < k).
  { destruct (Z.le_gt_cases k 0) as [Hk | Hk]; [ | exact Hk ].
    assert (2 ^ k <= 2 ^ 0) by (apply Z.pow_le_mono_r; lia).
    change (2 ^ 0) with 1 in *. lia. }
  destruct (Z.lt_trichotomy d k) as [Hlt | [Heq | Hgt]]; [ | exact Heq | ].
  - assert (2 ^ d <= 2 ^ (k - 1)) by (apply Z.pow_le_mono_r; lia). lia.
  - assert (2 ^ k <= 2 ^ (d - 1)) by (apply Z.pow_le_mono_r; lia). lia.
Qed.

(** *** Shifting right with a round bit and a sticky bit *)

Lemma shr_1_inv (m0 K : Z) (st : shr_record) :
  0 < K -> shr_inv m0 K st -> shr_inv m0 (2 * K) (shr_1 st).
Proof.
  intros HK [Hm [t [Hrem Ht]]].
  destruct st as [m r s]. cbn [shr_m shr_r shr_s] in *.
  unfold shr_1.
  destruct m as [ | [p | p | ] | p]; try (exfalso; lia);
    unfold shr_inv; cbn [shr_m shr_r shr_s]; (split; [ lia | ]).
  all: exists ((if r then K else 0) + t).
  all: destruct r, s; cbn [orb]; lia.
Qed.

Lemma iter_pos_iter {A} (f : A -> A) (p : positive) (x : A) :
  iter_pos f p x = Pos.iter f x p.
Proof.
  revert x. induction p as [p IH | p IH | ]; intros x; cbn [iter_pos Pos.iter].
  - rewrite !IH, <- !Pos.iter_swap. reflexivity.
  - rewrite !IH. reflexivity.
  - reflexivity.
Qed.

Lemma shr_iter_inv (m0 : Z) (p : positive) :
  0 <= m0 ->
  shr_inv m0 (2 ^ Zpos p) (iter_pos shr_1 p (Build_shr_record m0 false false)).
Proof.
  intros Hm0. rewrite iter_pos_iter.
  induction p as [ | p IH] using Pos.peano_ind.
  - cbn [Pos.iter]. change (2 ^ 1) with (2 * 1).
    apply shr_1_inv; [ lia | ].
    split; [ exact Hm0 | ]. exists 0. cbn [shr_m shr_r shr_s]. lia.
  - rewrite Pos.iter_succ, Pos2Z.inj_succ, Z.pow_succ_r by lia.
    apply shr_1_inv; [ | exact IH ]. apply Z.pow_pos_nonneg; lia.
Qed.

(** Rounding to nearest even after the shift: the error is at most half of
    the unit [K]. *)
Lemma round_after_shr (m0 K : Z) (st : shr_record) :
  0 < K -> shr_inv m0 K st ->
  let m := round_nearest_even (shr_m st) (loc_of_shr_record st) in
  0 <= m /\ 2 * Z.abs (m * K - m0) <= K
  /\ (shr_m st <= m <= shr_m st + 1).
Proof.
  intros HK [Hm [t [Hrem Ht]]].
  destruct st as [m r s]. cbn [shr_m shr_r shr_s] in *.
  unfold loc_of_shr_record, round_nearest_even.
  destruct r, s; cbn zeta; try destruct (Z.even m); nia.
Qed.


(** *** [binary_round_aux] on an exact input *)

Lemma fexp_fexp64 (k : Z) : fexp prec emax k = fexp64 k.
Proof. reflexivity. Qed.

Lemma shr_fexp_no_shift (m e : Z) :
  fexp64 (Zdigits2 m + e) <= e ->
  shr_fexp prec emax m e loc_Exact = (Build_shr_record m false false, e).
Proof.
  intros H. unfold shr_fexp. rewrite fexp_fexp64. cbn [shr_record_of_loc].
  unfold shr. destruct (fexp64 (Zdigits2 m + e) - e) eqn:E; try reflexivity.
  lia.
Qed.

Lemma shr_fexp_shift (m e : Z) :
  0 <= m -> e < fexp64 (Zdigits2 m + e) ->
  exists st,
    shr_fexp prec emax m e loc_Exact = (st, fexp64 (Zdigits2 m + e))
    /\ shr_inv m (2 ^ (fexp64 (Zdigits2 m + e) - e)) st.
Proof.
  intros Hm H. unfold shr_fexp. rewrite fexp_fexp64. cbn [shr_record_of_loc].
  unfold shr. destruct (fexp64 (Zdigits2 m + e) - e) as [ | p | p] eqn:E;
    try lia.
  exists (iter_pos shr_1 p (Build_shr_record m false false)).
  split; [ f_equal; lia | ]. apply shr_iter_inv. exact Hm.
Qed.

Lemma pow2_pos (k : Z) : 0 <= k -> 0 < 2 ^ k.
Proof. intros H. apply Z.pow_pos_nonneg; lia. Qed.

Lemma pow2_split (a b : Z) : 0 <= a -> 0 <= b -> 2 ^ (a + b) = 2 ^ a * 2 ^ b.
Proof. intros Ha Hb. apply Z.pow_add_r; assumption. Qed.

Lemma binary_round_aux_exact (s : bool) (m : positive) (e : Z) :
  -1074 <= e <= 971 ->
  fexp64 (Zpos (digits2_pos m) + e) <= e ->
  rounded s (Zpos m) e (binary_round_aux prec emax s (Zpos m) e loc_Exact).
Proof.
  intros He Hn. unfold binary_round_aux.
  rewrite (shr_fexp_no_shift (Zpos m) e) by exact Hn.
  cbn [shr_m loc_of_shr_record round_nearest_even].
  rewrite (shr_fexp_no_shift (Zpos m) e) by exact Hn.
  cbn [shr_m].
  replace (e <=? emax - prec) with true
    by (symmetry; apply Z.leb_le; unfold emax, prec; lia).
  exists (Zpos m), e. split; [ reflexivity | ].
  rewrite Z.sub_diag. change (2 ^ 0) with 1.
  repeat split; lia.
Qed.


Lemma shr_inv_quotient (m K : Z) (st : shr_record) :
  0 < K -> shr_inv m K st ->
  shr_m st * K <= m < (shr_m st + 1) * K.
Proof.
  intros HK [Hm [t [Hrem Ht]]].
  destruct (shr_r st), (shr_s st); lia.
Qed.

Lemma mul_lt_cancel (a b K : Z) : 0 < K -> a * K < b * K -> a < b.
Proof. intros HK H. apply (Z.mul_lt_mono_pos_r K); assumption. Qed.

Lemma mul_le_cancel (a b K : Z) : 0 < K -> a * K <= b * K -> a <= b.
Proof. intros HK H. apply (Z.mul_le_mono_pos_r _ _ K); assumption. Qed.

Lemma binary_round_aux_normal (s : bool) (m : positive) (e : Z) :
  let d := Zpos (digits2_pos m) in
  d + e <= 1023 ->
  -1074 <= d + e - 53 ->
  53 < d ->
  rounded s (Zpos m) e (binary_round_aux prec emax s (Zpos m) e loc_Exact).
Proof.
  intros d Hd Hnormal H53.
  assert (Hfexp : fexp64 (Zdigits2 (Zpos m) + e) = d + e - 53)
    by (cbn [Zdigits2]; fold d; unfold fexp64; lia).
  destruct (shr_fexp_shift (Zpos m) e) as [st [Hshr Hinv]];
    [ lia | rewrite Hfexp; lia | ].
  rewrite Hfexp in Hshr, Hinv.
  replace (d + e - 53 - e) with (d - 53) in Hinv by lia.
  set (K := 2 ^ (d - 53)) in *.
  assert (HK : 0 < K) by (apply pow2_pos; lia).
  pose proof (digits2_pos_upper m) as Hup.
  pose proof (digits2_pos_lower m) as Hlo. fold d in Hup, Hlo.
  assert (Hd1 : 2 ^ (d - 1) = 2 ^ 52 * K).
  { unfold K. rewrite <- pow2_split by lia. f_equal. lia. }
  assert (Hd2 : 2 ^ d = 2 ^ 53 * K).
  { unfold K. rewrite <- pow2_split by lia. f_equal. lia. }
  pose proof (shr_inv_quotient _ _ _ HK Hinv) as [Hq1 Hq2].
  destruct (round_after_shr _ _ _ HK Hinv) as [Hm0 [Herr [Hr1 Hr2]]].
  set (m' := shr_m st) in *.
  set (m'' := round_nearest_even m' (loc_of_shr_record st)) in *.
  assert (Hm'lo : 2 ^ 52 <= m').
  { assert (H : 2 ^ 52 * K < (m' + 1) * K) by lia.
    apply mul_lt_cancel in H; [ lia | exact HK ]. }
  assert (Hm'hi : m' < 2 ^ 53).
  { assert (H : m' * K < 2 ^ 53 * K) by lia.
    apply mul_lt_cancel in H; [ exact H | exact HK ]. }
  unfold binary_round_aux. rewrite Hshr. fold m' m''.
  assert (Hcases : m'' < 2 ^ 53 \/ m'' = 2 ^ 53) by lia.
  destruct Hcases as [Hlt | Heq].
  - assert (Hdig : Zdigits2 m'' = 53)
      by (apply Zdigits2_unique; [ lia | change (53 - 1) with 52; lia ]).
    rewrite (shr_fexp_no_shift m'' (d + e - 53))
      by (rewrite Hdig; unfold fexp64; lia).
    cbn [shr_m].
    destruct m'' as [ | p | p] eqn:Em; try lia.
    replace (d + e - 53 <=? emax - prec) with true
      by (symmetry; apply Z.leb_le; unfold emax, prec; lia).
    exists (Zpos p), (d + e - 53). split; [ reflexivity | ].
    replace (d + e - 53 - e) with (d - 53) by lia. fold K.
    repeat split; try lia; left; nia.
  - assert (Hdig : Zdigits2 m'' = 54)
      by (rewrite Heq; reflexivity).
    unfold shr_fexp. rewrite fexp_fexp64, Hdig. cbn [shr_record_of_loc].
    replace (fexp64 (54 + (d + e - 53)) - (d + e - 53)) with 1
      by (unfold fexp64; lia).
    rewrite Heq. cbn [shr iter_pos shr_1 shr_m].
    replace (d + e - 53 + 1 <=? emax - prec) with true
      by (symmetry; apply Z.leb_le; unfold emax, prec; lia).
    exists (2 ^ 52), (d + e - 53 + 1). split; [ reflexivity | ].
    replace (d + e - 53 + 1 - e) with ((d - 53) + 1) by lia.
    rewrite pow2_split by lia. fold K. change (2 ^ 1) with 2.
    repeat split; try lia; left;
      replace (2 ^ 52 * (K * 2)) with (m'' * K)
        by (rewrite Heq; change (2 ^ 53) with (2 ^ 52 * 2); ring);
      nia.
Qed.


Lemma Zdigits2_small (x : Z) : 0 <= x <= 2 ^ 52 -> 0 <= Zdigits2 x <= 53.
Proof.
  intros Hx. destruct x as [ | p | p]; cbn [Zdigits2]; try lia.
  pose proof (digits2_pos_lower p) as Hlo.
  split; [ lia | ].
  destruct (Z.le_gt_cases (Zpos (digits2_pos p)) 53) as [H | H]; [ exact H | ].
  assert (2 ^ 53 <= 2 ^ (Zpos (digits2_pos p) - 1))
    by (apply Z.pow_le_mono_r; lia).
  change (2 ^ 53) with (2 * 2 ^ 52) in *. lia.
Qed.

Lemma binary_round_aux_subnormal (s : bool) (m : positive) (e : Z) :
  let d := Zpos (digits2_pos m) in
  d + e - 53 < -1074 ->
  e < -1074 ->
  rounded s (Zpos m) e (binary_round_aux prec emax s (Zpos m) e loc_Exact).
Proof.
  intros d Hsub He.
  assert (Hfexp : fexp64 (Zdigits2 (Zpos m) + e) = -1074)
    by (cbn [Zdigits2]; fold d; unfold fexp64; lia).
  destruct (shr_fexp_shift (Zpos m) e) as [st [Hshr Hinv]];
    [ lia | rewrite Hfexp; lia | ].
  rewrite Hfexp in Hshr, Hinv.
  set (K := 2 ^ (-1074 - e)) in *.
  assert (HK : 0 < K) by (apply pow2_pos; lia).
  pose proof (digits2_pos_upper m) as Hup. fold d in Hup.
  assert (Hd2 : 2 ^ d <= 2 ^ 52 * K).
  { unfold K. rewrite <- pow2_split by lia. apply Z.pow_le_mono_r; lia. }
  pose proof (shr_inv_quotient _ _ _ HK Hinv) as [Hq1 Hq2].
  destruct (round_after_shr _ _ _ HK Hinv) as [Hm0 [Herr [Hr1 Hr2]]].
  destruct Hinv as [Hm'0 _].
  set (m' := shr_m st) in *.
  set (m'' := round_nearest_even m' (loc_of_shr_record st)) in *.
  assert (Hm'hi : m' < 2 ^ 52).
  { assert (H : m' * K < 2 ^ 52 * K) by lia.
    apply mul_lt_cancel in H; [ exact H | exact HK ]. }
  unfold binary_round_aux. rewrite Hshr. fold m' m''.
  pose proof (Zdigits2_small m'' ltac:(lia)) as Hdig.
  rewrite (shr_fexp_no_shift m'' (-1074)) by (unfold fexp64; lia).
  cbn [shr_m].
  exists m'', (-1074). split.
  - unfold SF_of. destruct m'' as [ | p | p]; reflexivity.
  - fold K. repeat split; lia.
Qed.

(** The rounding of [m * 2^e] when the value is below [2^1023] and, in case
    no bit is dropped, the exponent is one of a binary64 number. *)
Lemma binary_round_aux_rounded (s : bool) (m : positive) (e : Z) :
  let d := Zpos (digits2_pos m) in
  d + e <= 1023 ->
  (d <= 53 -> -1074 <= e -> e <= 971) ->
  rounded s (Zpos m) e (binary_round_aux prec emax s (Zpos m) e loc_Exact).
Proof.
  intros d Hd Hexact.
  destruct (Z.lt_ge_cases e (-1074)) as [He | He].
  - destruct (Z.lt_ge_cases (d + e - 53) (-1074)) as [Hs | Hs].
    + apply binary_round_aux_subnormal; assumption.
    + apply binary_round_aux_normal; fold d; lia.
  - destruct (Z.le_gt_cases d 53) as [H53 | H53].
    + apply binary_round_aux_exact; [ lia | fold d; unfold fexp64; lia ].
    + apply binary_round_aux_normal; fold d; lia.
Qed.


(** *** Values *)

Lemma valid_finite (s : bool) (m : positive) (e : Z) :
  valid_binary (S754_finite s m e) = true ->
  -1074 <= e <= 971
  /\ Zpos (digits2_pos m) <= 53
  /\ (-1074 < e -> Zpos (digits2_pos m) = 53).
Proof.
  cbn [valid_binary SpecFloat.valid_binary].
  unfold bounded, canonical_mantissa. rewrite fexp_fexp64. unfold fexp64.
  intros H. apply andb_prop in H. destruct H as [Hc He].
  apply Z.eqb_eq in Hc. apply Z.leb_le in He.
  unfold emax, prec in He. lia.
Qed.

Lemma SF_of_value (s : bool) (mR eR : Z) :
  0 <= mR ->
  SFfinite (SF_of s mR eR) = true
  /\ SF2Z (SF_of s mR eR) = cond_Zopp s (mR * 2 ^ (eR + 1074)).
Proof.
  intros H. destruct mR as [ | p | p]; try lia; cbn.
  - split; [ reflexivity | destruct s; reflexivity ].
  - split; reflexivity.
Qed.

Lemma pow2_lt_inv (a b : Z) : 0 <= a -> 2 ^ a < 2 ^ b -> a < b.
Proof.
  intros Ha H. destruct (Z.lt_ge_cases a b) as [Hlt | Hge]; [ exact Hlt | ].
  destruct (Z.lt_ge_cases b 0) as [Hb | Hb].
  - rewrite (Z.pow_neg_r 2 b Hb) in H. pose proof (pow2_pos a Ha). lia.
  - assert (2 ^ b <= 2 ^ a) by (apply Z.pow_le_mono_r; lia). lia.
Qed.

Lemma abs_cond_Zopp (s : bool) (z : Z) : Z.abs (cond_Zopp s z) = Z.abs z.
Proof. destruct s; cbn; [ apply Z.abs_opp | reflexivity ]. Qed.

Lemma cond_Zopp_mul (s : bool) (a b : Z) :
  cond_Zopp s a * b = cond_Zopp s (a * b).
Proof. destruct s; cbn; ring. Qed.

Lemma cond_Zopp_sub (s : bool) (a b : Z) :
  cond_Zopp s a - cond_Zopp s b = cond_Zopp s (a - b).
Proof. destruct s; cbn; ring. Qed.

Lemma cond_Zopp_xorb (sx sy : bool) (a b : Z) :
  cond_Zopp sx a * cond_Zopp sy b = cond_Zopp (xorb sx sy) (a * b).
Proof. destruct sx, sy; cbn; ring. Qed.

(** *** Product *)

Lemma SFmul_value (x y : spec_float) :
  valid_binary x = true -> valid_binary y = true ->
  SFfinite x = true -> SFfinite y = true ->
  Z.abs (SF2Z x * SF2Z y) < 2 ^ 3171 ->
  let p := SFmul prec emax x y in
  SFfinite p = true
  /\ (2 ^ 53 * Z.abs (SF2Z p * 2 ^ 1074 - SF2Z x * SF2Z y)
        <= Z.abs (SF2Z x * SF2Z y)
      \/ 2 * Z.abs (SF2Z p * 2 ^ 1074 - SF2Z x * SF2Z y) <= 2 ^ 1074).
Proof.
  intros Vx Vy Fx Fy Hmag.
  destruct x as [sx | sx | | sx mx ex], y as [sy | sy | | sy my ey];
    try discriminate; cbn [SFmul].
  1-3: split; [ reflexivity | left; cbn [SF2Z]; rewrite ?Z.mul_0_r; cbn; lia ].
  apply valid_finite in Vx, Vy.
  destruct Vx as [Hex [Hdx Hnx]]. destruct Vy as [Hey [Hdy Hny]].
  cbn [SF2Z] in *. rewrite cond_Zopp_xorb in *. rewrite abs_cond_Zopp in *.
  set (m := (mx * my)%positive).
  set (e := ex + ey).
  set (G := 2 ^ (e + 2148)).
  assert (HG : 0 < G) by (apply pow2_pos; unfold e; lia).
  assert (Hprod : Zpos mx * 2 ^ (ex + 1074) * (Zpos my * 2 ^ (ey + 1074))
                  = Zpos m * G).
  { unfold G, e, m. rewrite Pos2Z.inj_mul.
    replace (ex + ey + 2148) with ((ex + 1074) + (ey + 1074)) by lia.
    rewrite (pow2_split (ex + 1074) (ey + 1074)) by lia. ring. }
  rewrite Hprod in *.
  rewrite Z.abs_eq in Hmag by lia.
  pose proof (digits2_pos_lower m) as Hlo.
  pose proof (digits2_pos_upper m) as Hup.
  pose proof (digits2_pos_lower mx) as Hlox.
  pose proof (digits2_pos_lower my) as Hloy.
  set (d := Zpos (digits2_pos m)) in *.
  set (dx := Zpos (digits2_pos mx)) in *.
  set (dy := Zpos (digits2_pos my)) in *.
  assert (Hd : d + e <= 1023).
  { assert (H : 2 ^ (d - 1 + (e + 2148)) < 2 ^ 3171).
    { rewrite (pow2_split (d - 1) (e + 2148)) by (unfold e; lia). fold G.
      eapply Z.le_lt_trans; [ | exact Hmag ].
      apply Z.mul_le_mono_nonneg_r; lia. }
    apply pow2_lt_inv in H; [ lia | unfold e; lia ]. }
  assert (Hdd : dx + dy - 1 <= d).
  { assert (H : 2 ^ (dx - 1 + (dy - 1)) < 2 ^ d).
    { rewrite (pow2_split (dx - 1) (dy - 1)) by lia. unfold m in Hup.
      rewrite Pos2Z.inj_mul in Hup.
      pose proof (pow2_pos (dx - 1) ltac:(lia)).
      pose proof (pow2_pos (dy - 1) ltac:(lia)). nia. }
    apply pow2_lt_inv in H; lia. }
  destruct (binary_round_aux_rounded (xorb sx sy) m e)
    as [mR [eR [HR [HmR [HeR [HeR' Herr]]]]]];
    [ fold d; exact Hd | fold d; unfold e; lia | ].
  rewrite HR.
  destruct (SF_of_value (xorb sx sy) mR eR HmR) as [Hfin Hval].
  split; [ exact Hfin | ].
  rewrite Hval, cond_Zopp_mul, cond_Zopp_sub, abs_cond_Zopp.
  replace (mR * 2 ^ (eR + 1074) * 2 ^ 1074) with (mR * 2 ^ (eR - e) * G).
  2: { unfold G. rewrite <- !Z.mul_assoc.
       rewrite <- (pow2_split (eR - e) (e + 2148)) by (unfold e; lia).
       rewrite <- (pow2_split (eR + 1074) 1074) by lia.
       do 2 f_equal. lia. }
  set (V := mR * 2 ^ (eR - e)) in *.
  replace (V * G - Zpos m * G) with ((V - Zpos m) * G) by ring.
  rewrite Z.abs_mul, (Z.abs_eq G), (Z.abs_eq (Zpos m * G)) by lia.
  destruct Herr as [Herr | [Hsub Herr]].
  - left. rewrite Z.mul_assoc.
    apply Z.mul_le_mono_nonneg_r; [ lia | exact Herr ].
  - right.
    assert (HG2 : 2 ^ (-1074 - e) * G = 2 ^ 1074).
    { unfold G. rewrite <- (pow2_split (-1074 - e) (e + 2148))
        by (unfold e; lia). f_equal. lia. }
    rewrite <- HG2, Z.mul_assoc.
    apply Z.mul_le_mono_nonneg_r; [ lia | exact Herr ].
Qed.


(** *** Sum *)

Lemma iter_xO_value (m d : positive) :
  Zpos (Pos.iter xO m d) = Zpos m * 2 ^ Zpos d.
Proof.
  induction d as [ | d IH] using Pos.peano_ind.
  - cbn [Pos.iter]. rewrite Pos2Z.inj_xO. change (2 ^ 1) with 2. ring.
  - rewrite Pos.iter_succ, Pos2Z.inj_succ, Z.pow_succ_r by lia.
    rewrite Pos2Z.inj_xO, IH. ring.
Qed.

(** [shl_align m e e'] lowers the exponent to [e'] when [e' < e], and keeps
    the value. *)
Lemma shl_align_value (m : positive) (e e' : Z) :
  let (m2, e2) := shl_align m e e' in
  e2 = Z.min e e' /\ Zpos m2 = Zpos m * 2 ^ (e - e2).
Proof.
  unfold shl_align. destruct (e' - e) as [ | p | p] eqn:E.
  - split; [ lia | ]. rewrite Z.sub_diag. change (2 ^ 0) with 1. lia.
  - split; [ lia | ]. rewrite Z.sub_diag. change (2 ^ 0) with 1. lia.
  - split; [ lia | ]. rewrite iter_xO_value. f_equal. f_equal. lia.
Qed.

Lemma digits_shift (m m2 : positive) (k : Z) :
  0 <= k -> Zpos m2 = Zpos m * 2 ^ k ->
  Zpos (digits2_pos m2) = Zpos (digits2_pos m) + k.
Proof.
  intros Hk H.
  pose proof (digits2_pos_lower m) as Hlo.
  pose proof (digits2_pos_upper m) as Hup.
  pose proof (pow2_pos k Hk) as HK.
  change (Zpos (digits2_pos m2)) with (Zdigits2 (Zpos m2)).
  apply Zdigits2_unique; [ lia | ].
  replace (Zpos (digits2_pos m) + k - 1)
    with ((Zpos (digits2_pos m) - 1) + k) by lia.
  rewrite (pow2_split (Zpos (digits2_pos m) - 1) k) by lia.
  rewrite (pow2_split (Zpos (digits2_pos m)) k) by lia.
  rewrite H. nia.
Qed.

(** The rounding of [m * 2^e] by [binary_round], for [e] the exponent of a
    binary64 number: no error beyond [2^-53] of the value. *)
Lemma binary_round_value (s : bool) (m : positive) (e : Z) :
  -1074 <= e ->
  Zpos m * 2 ^ (e + 1074) < 2 ^ 2097 ->
  let R := binary_round prec emax s m e in
  SFfinite R = true
  /\ 2 ^ 53 * Z.abs (SF2Z R - cond_Zopp s (Zpos m * 2 ^ (e + 1074)))
     <= Zpos m * 2 ^ (e + 1074).
Proof.
  intros He Hmag. unfold binary_round. rewrite fexp_fexp64.
  set (d := Zpos (digits2_pos m)).
  pose proof (shl_align_value m e (fexp64 (d + e))) as Hal.
  destruct (shl_align m e (fexp64 (d + e))) as [mz ez].
  destruct Hal as [Hez Hmz].
  assert (Hez' : -1074 <= ez <= e) by (unfold fexp64 in Hez; lia).
  pose proof (digits_shift m mz (e - ez) ltac:(lia) Hmz) as Hdz. fold d in Hdz.
  pose proof (digits2_pos_lower m) as Hlo. fold d in Hlo.
  assert (Hd : d + e <= 1023).
  { assert (H : 2 ^ (d - 1 + (e + 1074)) < 2 ^ 2097).
    { rewrite (pow2_split (d - 1) (e + 1074)) by lia.
      pose proof (pow2_pos (e + 1074) ltac:(lia)).
      eapply Z.le_lt_trans; [ | exact Hmag ].
      apply Z.mul_le_mono_nonneg_r; lia. }
    apply pow2_lt_inv in H; lia. }
  destruct (binary_round_aux_rounded s mz ez)
    as [mR [eR [HR [HmR [HeR [HeR' Herr]]]]]];
    [ rewrite Hdz; lia | rewrite Hdz; unfold fexp64 in Hez; lia | ].
  rewrite HR.
  destruct (SF_of_value s mR eR HmR) as [Hfin Hval].
  split; [ exact Hfin | ].
  rewrite Hval, cond_Zopp_sub, abs_cond_Zopp.
  set (G := 2 ^ (ez + 1074)).
  assert (HG : 0 < G) by (apply pow2_pos; lia).
  replace (mR * 2 ^ (eR + 1074)) with (mR * 2 ^ (eR - ez) * G).
  2: { unfold G. rewrite <- Z.mul_assoc.
       rewrite <- (pow2_split (eR - ez) (ez + 1074)) by lia.
       do 2 f_equal. lia. }
  replace (Zpos m * 2 ^ (e + 1074)) with (Zpos mz * G).
  2: { unfold G. rewrite Hmz, <- Z.mul_assoc.
       rewrite <- (pow2_split (e - ez) (ez + 1074)) by lia.
       do 2 f_equal. lia. }
  set (V := mR * 2 ^ (eR - ez)) in *.
  replace (V * G - Zpos mz * G) with ((V - Zpos mz) * G) by ring.
  rewrite Z.abs_mul, (Z.abs_eq G) by lia.
  destruct Herr as [Herr | [Hsub _]]; [ | lia ].
  rewrite Z.mul_assoc. apply Z.mul_le_mono_nonneg_r; [ lia | exact Herr ].
Qed.

Lemma binary_normalize_value (M e : Z) :
  -1074 <= e ->
  Z.abs M * 2 ^ (e + 1074) < 2 ^ 2097 ->
  let R := binary_normalize prec emax M e false in
  SFfinite R = true
  /\ 2 ^ 53 * Z.abs (SF2Z R - M * 2 ^ (e + 1074))
     <= Z.abs (M * 2 ^ (e + 1074)).
Proof.
  intros He Hmag. pose proof (pow2_pos (e + 1074) ltac:(lia)) as HG.
  destruct M as [ | m | m]; cbn [binary_normalize].
  - split; [ reflexivity | cbn; lia ].
  - destruct (binary_round_value false m e He Hmag) as [Hfin Herr].
    split; [ exact Hfin | ].
    cbn [cond_Zopp] in Herr.
    rewrite (Z.abs_eq (Zpos m * 2 ^ (e + 1074))) by lia. exact Herr.
  - destruct (binary_round_value true m e He Hmag) as [Hfin Herr].
    split; [ exact Hfin | ].
    cbn [cond_Zopp] in Herr.
    replace (Z.neg m * 2 ^ (e + 1074)) with (- (Zpos m * 2 ^ (e + 1074)))
      by (rewrite <- Pos2Z.opp_pos; ring).
    rewrite (Z.abs_opp (Zpos m * 2 ^ (e + 1074))).
    rewrite (Z.abs_eq (Zpos m * 2 ^ (e + 1074))) by lia. exact Herr.
Qed.

Lemma SFadd_value (x y : spec_float) :
  valid_binary x = true -> valid_binary y = true ->
  SFfinite x = true -> SFfinite y = true ->
  Z.abs (SF2Z x + SF2Z y) < 2 ^ 2097 ->
  let r := SFadd prec emax x y in
  SFfinite r = true
  /\ 2 ^ 53 * Z.abs (SF2Z r - (SF2Z x + SF2Z y)) <= Z.abs (SF2Z x + SF2Z y).
Proof.
  intros Vx Vy Fx Fy Hmag.
  destruct x as [sx | sx | | sx mx ex], y as [sy | sy | | sy my ey];
    try discriminate; cbn [SFadd].
  - split; [ destruct sx, sy; reflexivity | destruct sx, sy; cbn; lia ].
  - split; [ reflexivity | ]. cbn [SF2Z].
    rewrite Z.add_0_l, Z.sub_diag. cbn. lia.
  - split; [ reflexivity | ]. cbn [SF2Z].
    rewrite Z.add_0_r, Z.sub_diag. cbn. lia.
  - apply valid_finite in Vx, Vy.
    destruct Vx as [Hex _]. destruct Vy as [Hey _].
    set (ez := Z.min ex ey).
    pose proof (shl_align_value mx ex ez) as Hax.
    pose proof (shl_align_value my ey ez) as Hay.
    destruct (shl_align mx ex ez) as [Mx ex'].
    destruct (shl_align my ey ez) as [My ey'].
    destruct Hax as [Hex' HMx]. destruct Hay as [Hey' HMy].
    cbn [fst].
    assert (Ex : ex' = ez) by (unfold ez in *; lia).
    assert (Ey : ey' = ez) by (unfold ez in *; lia).
    rewrite Ex in HMx. rewrite Ey in HMy. clear Hex' Hey' Ex Ey.
    set (M := cond_Zopp sx (Zpos Mx) + cond_Zopp sy (Zpos My)).
    assert (Hsum : SF2Z (S754_finite sx mx ex) + SF2Z (S754_finite sy my ey)
                   = M * 2 ^ (ez + 1074)).
    { unfold M. cbn [SF2Z]. rewrite Z.mul_add_distr_r, !cond_Zopp_mul.
      rewrite HMx, HMy, <- !Z.mul_assoc.
      rewrite <- (pow2_split (ex - ez) (ez + 1074)) by (unfold ez; lia).
      rewrite <- (pow2_split (ey - ez) (ez + 1074)) by (unfold ez; lia).
      replace (ex - ez + (ez + 1074)) with (ex + 1074) by lia.
      replace (ey - ez + (ez + 1074)) with (ey + 1074) by lia.
      reflexivity. }
    rewrite Hsum in *.
    apply binary_normalize_value; [ unfold ez; lia | ].
    rewrite Z.abs_mul in Hmag.
    rewrite (Z.abs_eq (2 ^ (ez + 1074))) in Hmag; [ exact Hmag | ].
    apply Z.lt_le_incl, pow2_pos. unfold ez. lia.
Qed.


End Rounding.

(** ** Values and order of binary64 numbers *)

Lemma magnitude_order (m1 m2 : positive) (e1 e2 : Z) (s1 s2 : bool) :
  valid_binary (S754_finite s1 m1 e1) = true ->
  valid_binary (S754_finite s2 m2 e2) = true ->
  (e1 + 1075) * 2 ^ 53 + Zpos m1 < (e2 + 1075) * 2 ^ 53 + Zpos m2 ->
  Zpos m1 * 2 ^ (e1 + 1074) < Zpos m2 * 2 ^ (e2 + 1074).
Proof.
  intros V1 V2 Hk.
  pose proof V1 as B1. pose proof V2 as B2.
  cbn [valid_binary SpecFloat.valid_binary] in B1, B2.
  apply F64.bounded_range in B1, B2.
  apply Rounding.valid_finite in V1, V2.
  destruct V1 as [He1 [Hd1 Hn1]]. destruct V2 as [He2 [Hd2 Hn2]].
  set (K := 2 ^ 53) in *. assert (HK : K = 9007199254740992) by reflexivity.
  assert (Hcases : e1 < e2 \/ (e1 = e2 /\ Zpos m1 < Zpos m2)) by lia.
  pose proof (Rounding.pow2_pos (e1 + 1074) ltac:(lia)) as HG1.
  destruct Hcases as [Hlt | [-> Hlt]].
  - pose proof (Rounding.digits2_pos_lower m2) as Hlo.
    rewrite Hn2 in Hlo by lia. change (2 ^ (53 - 1)) with (2 ^ 52) in Hlo.
    replace (e2 + 1074) with ((e2 - e1 - 1) + 1 + (e1 + 1074)) by lia.
    rewrite (Rounding.pow2_split (e2 - e1 - 1 + 1) (e1 + 1074)) by lia.
    rewrite (Rounding.pow2_split (e2 - e1 - 1) 1) by lia.
    change (2 ^ 1) with 2.
    pose proof (Rounding.pow2_pos (e2 - e1 - 1) ltac:(lia)) as HG2.
    set (G := 2 ^ (e1 + 1074)) in *. set (H := 2 ^ (e2 - e1 - 1)) in *.
    assert (S1 : Zpos m1 * G < K * G)
      by (apply Z.mul_lt_mono_pos_r; lia).
    assert (S2 : K * G <= Zpos m2 * (2 * G)).
    { replace (K * G) with (2 ^ 52 * (2 * G))
        by (rewrite HK; change (2 ^ 52) with 4503599627370496; ring).
      apply Z.mul_le_mono_nonneg_r; lia. }
    assert (S3 : Zpos m2 * (2 * G) <= Zpos m2 * (H * 2 * G)).
    { apply Z.mul_le_mono_nonneg_l; [ lia | ].
      replace (H * 2 * G) with (H * (2 * G)) by ring.
      rewrite <- (Z.mul_1_l (2 * G)) at 1.
      apply Z.mul_le_mono_nonneg_r; lia. }
    lia.
  - apply Z.mul_lt_mono_pos_r; [ exact HG1 | exact Hlt ].
Qed.

Lemma key_lt_value (x y : spec_float) (a b : Z) :
  valid_binary x = true -> valid_binary y = true ->
  SFfinite x = true -> SFfinite y = true ->
  F64.SFkey x = Some a -> F64.SFkey y = Some b ->
  (a < b -> SF2Z x < SF2Z y)
  /\ (a = b -> SF2Z x = SF2Z y).
Proof.
  intros Vx Vy Fx Fy Kx Ky.
  destruct x as [sx | sx | | sx mx ex], y as [sy | sy | | sy my ey];
    try discriminate; cbn [F64.SFkey SF2Z] in *;
    injection Kx as <-; injection Ky as <-.
  - split; lia.
  - pose proof Vy as By. cbn [valid_binary SpecFloat.valid_binary] in By.
    apply F64.bounded_range in By. apply Rounding.valid_finite in Vy.
    pose proof (Rounding.pow2_pos (ey + 1074) ltac:(lia)).
    destruct sy; cbn [cond_Zopp]; split; nia.
  - pose proof Vx as Bx. cbn [valid_binary SpecFloat.valid_binary] in Bx.
    apply F64.bounded_range in Bx. apply Rounding.valid_finite in Vx.
    pose proof (Rounding.pow2_pos (ex + 1074) ltac:(lia)).
    destruct sx; cbn [cond_Zopp]; split; nia.
  - pose proof (magnitude_order mx my ex ey sx sy Vx Vy) as Hxy.
    pose proof (magnitude_order my mx ey ex sy sx Vy Vx) as Hyx.
    pose proof Vx as Bx. cbn [valid_binary SpecFloat.valid_binary] in Bx.
    apply F64.bounded_range in Bx.
    pose proof Vy as By. cbn [valid_binary SpecFloat.valid_binary] in By.
    apply F64.bounded_range in By.
    apply Rounding.valid_finite in Vx, Vy.
    pose proof (Rounding.pow2_pos (ex + 1074) ltac:(lia)).
    pose proof (Rounding.pow2_pos (ey + 1074) ltac:(lia)).
    set (K := 2 ^ 53) in *. assert (HK : K = 9007199254740992) by reflexivity.
    set (kx := (ex + 1075) * K + Zpos mx) in *.
    set (ky := (ey + 1075) * K + Zpos my) in *.
    set (gx := Zpos mx * 2 ^ (ex + 1074)) in *.
    set (gy := Zpos my * 2 ^ (ey + 1074)) in *.
    assert (Hkx : 0 < kx) by (unfold kx; lia).
    assert (Hky : 0 < ky) by (unfold ky; lia).
    assert (Hgx : 0 < gx) by (unfold gx; nia).
    assert (Hgy : 0 < gy) by (unfold gy; nia).
    assert (Heq : kx = ky -> gx = gy).
    { intros E. assert (ex = ey /\ Zpos mx = Zpos my) as [E1 E2]
        by (unfold kx, ky in E; lia).
      unfold gx, gy. rewrite E1, E2. reflexivity. }
    destruct sx, sy; cbn [cond_Zopp]; split; lia.
Qed.

Lemma finite_key (x : float) :
  finite x = true -> exists a, F64.key x = Some a /\ Z.abs a < 2 ^ 65.
Proof.
  unfold finite, F64.key. pose proof (Prim2SF_valid x) as V.
  destruct (Prim2SF x) as [s | s | | s m e]; try discriminate; intros _.
  - exists 0. split; [ reflexivity | reflexivity ].
  - cbn [valid_binary SpecFloat.valid_binary] in V.
    apply F64.bounded_range in V. cbn [F64.SFkey].
    eexists. split; [ reflexivity | ].
    change (2 ^ 65) with (4096 * 2 ^ 53).
    set (K := 2 ^ 53) in *. assert (HK : K = 9007199254740992) by reflexivity.
    destruct s; lia.
Qed.

(** A float between two finite floats is finite and its value lies between
    theirs. *)
Lemma between_finite (a b x : float) :
  finite a = true -> finite b = true ->
  (a <=? x)%float = true -> (x <=? b)%float = true ->
  finite x = true /\ F2Z a <= F2Z x <= F2Z b.
Proof.
  intros Fa Fb Hax Hxb.
  destruct (finite_key a Fa) as [ka [Ka HKa]].
  destruct (finite_key b Fb) as [kb [Kb HKb]].
  rewrite F64.leb_key in Hax, Hxb. rewrite Ka in Hax. rewrite Kb in Hxb.
  unfold F64.cmp_keys in Hax, Hxb.
  destruct (F64.key x) as [kx | ] eqn:Kx; [ | discriminate ].
  apply Z.leb_le in Hax, Hxb.
  assert (Fx : finite x = true).
  { unfold finite. unfold F64.key in Kx.
    destruct (Prim2SF x) as [s | s | | s m e]; try reflexivity;
      try discriminate.
    cbn [F64.SFkey] in Kx. injection Kx as <-. destruct s; lia. }
  split; [ exact Fx | ].
  unfold finite, F2Z, F64.key in *.
  destruct (key_lt_value (Prim2SF a) (Prim2SF x) ka kx
              (Prim2SF_valid a) (Prim2SF_valid x) Fa Fx Ka Kx) as [H1 H2].
  destruct (key_lt_value (Prim2SF x) (Prim2SF b) kx kb
              (Prim2SF_valid x) (Prim2SF_valid b) Fx Fb Kx Kb) as [H3 H4].
  lia.
Qed.

(** A finite float whose value is below that of another one compares
    below it. *)
Lemma value_lt_ltb (x y : float) :
  finite x = true -> finite y = true ->
  F2Z x < F2Z y -> (x <? y)%float = true.
Proof.
  intros Fx Fy H.
  destruct (finite_key x Fx) as [kx [Kx _]].
  destruct (finite_key y Fy) as [ky [Ky _]].
  rewrite F64.ltb_key, Kx, Ky. unfold F64.cmp_keys. apply Z.ltb_lt.
  unfold finite, F2Z, F64.key in *.
  destruct (key_lt_value (Prim2SF y) (Prim2SF x) ky kx
              (Prim2SF_valid y) (Prim2SF_valid x) Fy Fx Ky Kx) as [H1 H2].
  lia.
Qed.

(** One rounded product and one rounded sum of finite floats. *)
Lemma mul_value (x y : float) :
  finite x = true -> finite y = true ->
  Z.abs (F2Z x * F2Z y) < 2 ^ 3171 ->
  finite (x * y) = true
  /\ (2 ^ 53 * Z.abs (F2Z (x * y) * 2 ^ 1074 - F2Z x * F2Z y)
        <= Z.abs (F2Z x * F2Z y)
      \/ 2 * Z.abs (F2Z (x * y) * 2 ^ 1074 - F2Z x * F2Z y) <= 2 ^ 1074).
Proof.
  intros Fx Fy H. unfold finite, F2Z in *. rewrite mul_spec.
  apply Rounding.SFmul_value; try assumption; apply Prim2SF_valid.
Qed.

Lemma add_value (x y : float) :
  finite x = true -> finite y = true ->
  Z.abs (F2Z x + F2Z y) < 2 ^ 2097 ->
  finite (x + y) = true
  /\ 2 ^ 53 * Z.abs (F2Z (x + y) - (F2Z x + F2Z y)) <= Z.abs (F2Z x + F2Z y).
Proof.
  intros Fx Fy H. unfold finite, F2Z in *. rewrite add_spec.
  apply Rounding.SFadd_value; try assumption; apply Prim2SF_valid.
Qed.

(** ** Soundness of the bounds *)

Lemma ivl_unit_pos : 0 < ivl_unit.
Proof. reflexivity. Qed.

Lemma ivl_unit_facts :
  2 ^ 1074 = ivl_unit * 2 ^ 256
  /\ ivl_unit * 2 ^ 256 <= 2 * (ivl_unit * ivl_unit)
  /\ 2 ^ 1400 * (ivl_unit * ivl_unit) < 2 ^ 3171
  /\ 2 ^ 1200 * ivl_unit < 2 ^ 2097.
Proof. repeat split; vm_compute; (reflexivity || discriminate). Qed.

Lemma ivl_of_sound (z : Z) : in_ivl z (ivl_of z).
Proof.
  unfold in_ivl, ivl_of. cbv [fst snd].
  pose proof ivl_unit_pos as HW.
  pose proof (Z.mul_div_le z ivl_unit HW).
  pose proof (Z.mul_succ_div_gt z ivl_unit HW). lia.
Qed.

Lemma corners (rl ru xl xu r x : Z) :
  rl <= r <= ru -> xl <= x <= xu ->
  Z.min (Z.min (rl * xl) (rl * xu)) (Z.min (ru * xl) (ru * xu)) <= r * x
  <= Z.max (Z.max (rl * xl) (rl * xu)) (Z.max (ru * xl) (ru * xu)).
Proof.
  intros [Hr1 Hr2] [Hx1 Hx2].
  assert (Hlo : Z.min (rl * x) (ru * x) <= r * x <= Z.max (rl * x) (ru * x)).
  { destruct (Z.le_gt_cases 0 x) as [Hx | Hx].
    - assert (rl * x <= r * x) by (apply Z.mul_le_mono_nonneg_r; lia).
      assert (r * x <= ru * x) by (apply Z.mul_le_mono_nonneg_r; lia). lia.
    - assert (r * x <= rl * x) by (apply Z.mul_le_mono_nonpos_r; lia).
      assert (ru * x <= r * x) by (apply Z.mul_le_mono_nonpos_r; lia). lia. }
  assert (Hl : Z.min (rl * xl) (rl * xu) <= rl * x
               <= Z.max (rl * xl) (rl * xu)).
  { destruct (Z.le_gt_cases 0 rl) as [H | H].
    - assert (rl * xl <= rl * x) by (apply Z.mul_le_mono_nonneg_l; lia).
      assert (rl * x <= rl * xu) by (apply Z.mul_le_mono_nonneg_l; lia). lia.
    - assert (rl * x <= rl * xl) by (apply Z.mul_le_mono_nonpos_l; lia).
      assert (rl * xu <= rl * x) by (apply Z.mul_le_mono_nonpos_l; lia). lia. }
  assert (Hu : Z.min (ru * xl) (ru * xu) <= ru * x
               <= Z.max (ru * xl) (ru * xu)).
  { destruct (Z.le_gt_cases 0 ru) as [H | H].
    - assert (ru * xl <= ru * x) by (apply Z.mul_le_mono_nonneg_l; lia).
      assert (ru * x <= ru * xu) by (apply Z.mul_le_mono_nonneg_l; lia). lia.
    - assert (ru * x <= ru * xl) by (apply Z.mul_le_mono_nonpos_l; lia).
      assert (ru * xu <= ru * x) by (apply Z.mul_le_mono_nonpos_l; lia). lia. }
  lia.
Qed.

(** Products: bounds in units of [2^-512]. *)
Lemma ivl_mul_sound (R X : ivl) (r x : Z) :
  in_ivl r R -> in_ivl x X ->
  fst (ivl_mul R X) * (ivl_unit * ivl_unit) <= r * x
  <= snd (ivl_mul R X) * (ivl_unit * ivl_unit).
Proof.
  destruct R as [rl ru], X as [xl xu]. unfold in_ivl, ivl_mul. cbv [fst snd].
  intros Hr Hx. pose proof ivl_unit_pos as HW.
  set (W := ivl_unit) in *.
  pose proof (corners (rl * W) (ru * W) (xl * W) (xu * W) r x Hr Hx) as H.
  assert (HW2 : 0 <= W * W) by nia.
  replace (rl * W * (xl * W)) with (rl * xl * (W * W)) in H by ring.
  replace (rl * W * (xu * W)) with (rl * xu * (W * W)) in H by ring.
  replace (ru * W * (xl * W)) with (ru * xl * (W * W)) in H by ring.
  replace (ru * W * (xu * W)) with (ru * xu * (W * W)) in H by ring.
  rewrite !Z.mul_min_distr_nonneg_r, !Z.mul_max_distr_nonneg_r in H
    by exact HW2.
  exact H.
Qed.

Lemma div_pow_bound (a b : Z) :
  Z.abs a <= b -> Z.abs a <= 2 ^ 53 * (b / 2 ^ 53 + 1).
Proof.
  intros H. pose proof (Z.mul_succ_div_gt b (2 ^ 53) ltac:(reflexivity)).
  lia.
Qed.

Lemma log2_below (a k : Z) : 0 <= k -> 0 <= a -> Z.log2 a < k -> a < 2 ^ k.
Proof.
  intros Hk Ha H. destruct (Z.eq_dec a 0) as [-> | Hne].
  - apply Rounding.pow2_pos. exact Hk.
  - apply Z.log2_lt_pow2; lia.
Qed.

(** The arithmetic of one rounded product: [z] is the exact product in
    units of [1 / (W * W)], [p] the rounded one in units of [1 / (W * Q)],
    and the result bounds [p] in units of [1 / Q]. *)
Lemma round_mul_core (W Q z p pl pu : Z) :
  0 < W -> 0 < Q -> W * Q <= 2 * (W * W) ->
  pl * (W * W) <= z <= pu * (W * W) ->
  (2 ^ 53 * Z.abs (p * (W * Q) - z) <= Z.abs z
   \/ 2 * Z.abs (p * (W * Q) - z) <= W * Q) ->
  let mag := Z.max (Z.abs pl) (Z.abs pu) in
  let err := mag / 2 ^ 53 + 2 in
  (pl - err) / Q * W <= p <= ((pu + err) / Q + 1) * W.
Proof.
  intros HW HQ Hhalf [Hl Hu] Herr mag err.
  set (W2 := W * W) in *.
  assert (HW2 : 0 < W2) by (apply Z.mul_pos_pos; assumption).
  assert (Hmag0 : 0 <= mag) by (unfold mag; lia).
  assert (Hd0 : 0 <= mag / 2 ^ 53) by (apply Z.div_pos; [ exact Hmag0 | reflexivity ]).
  assert (Hz : Z.abs z <= mag * W2).
  { assert (pu * W2 <= mag * W2)
      by (apply Z.mul_le_mono_nonneg_r; unfold mag; lia).
    assert (- mag * W2 <= pl * W2)
      by (apply Z.mul_le_mono_nonneg_r; unfold mag; lia).
    lia. }
  assert (Hp : Z.abs (p * (W * Q) - z) <= err * W2).
  { unfold err. destruct Herr as [Herr | Herr].
    - pose proof (div_pow_bound mag mag ltac:(lia)) as Hdiv.
      assert (H1 : mag * W2 <= 2 ^ 53 * (mag / 2 ^ 53 + 1) * W2)
        by (apply Z.mul_le_mono_nonneg_r; lia).
      assert (H2 : (mag / 2 ^ 53 + 1) * W2 <= (mag / 2 ^ 53 + 2) * W2)
        by (apply Z.mul_le_mono_nonneg_r; lia).
      replace (2 ^ 53 * (mag / 2 ^ 53 + 1) * W2)
        with (2 ^ 53 * ((mag / 2 ^ 53 + 1) * W2)) in H1 by ring.
      lia.
    - assert (H2 : 1 * W2 <= (mag / 2 ^ 53 + 2) * W2)
        by (apply Z.mul_le_mono_nonneg_r; lia).
      lia. }
  assert (Hlo : (pl - err) * W <= p * Q).
  { apply (Rounding.mul_le_cancel _ _ W HW).
    replace ((pl - err) * W * W) with (pl * W2 - err * W2) by (unfold W2; ring).
    replace (p * Q * W) with (p * (W * Q)) by ring. lia. }
  assert (Hhi : p * Q <= (pu + err) * W).
  { apply (Rounding.mul_le_cancel _ _ W HW).
    replace ((pu + err) * W * W) with (pu * W2 + err * W2) by (unfold W2; ring).
    replace (p * Q * W) with (p * (W * Q)) by ring. lia. }
  pose proof (Z.mul_div_le (pl - err) Q HQ) as D1.
  pose proof (Z.mul_succ_div_gt (pu + err) Q HQ) as D2.
  split.
  - apply (Rounding.mul_le_cancel _ _ Q HQ).
    replace ((pl - err) / Q * W * Q) with (Q * ((pl - err) / Q) * W) by ring.
    assert (Q * ((pl - err) / Q) * W <= (pl - err) * W)
      by (apply Z.mul_le_mono_nonneg_r; lia).
    lia.
  - apply (Rounding.mul_le_cancel _ _ Q HQ).
    replace (((pu + err) / Q + 1) * W * Q)
      with (Q * Z.succ ((pu + err) / Q) * W) by (unfold Z.succ; ring).
    assert ((pu + err) * W <= Q * Z.succ ((pu + err) / Q) * W)
      by (apply Z.mul_le_mono_nonneg_r; lia).
    lia.
Qed.

Lemma magnitude_bound (W2 z pl pu B T : Z) :
  0 < W2 -> pl * W2 <= z <= pu * W2 ->
  Z.max (Z.abs pl) (Z.abs pu) < B -> B * W2 < T -> Z.abs z < T.
Proof.
  intros HW2 [Hl Hu] Hmag HB.
  set (mag := Z.max (Z.abs pl) (Z.abs pu)) in *.
  assert (pu * W2 <= mag * W2)
    by (apply Z.mul_le_mono_nonneg_r; unfold mag; lia).
  assert (- mag * W2 <= pl * W2)
    by (apply Z.mul_le_mono_nonneg_r; unfold mag; lia).
  assert (mag * W2 < B * W2) by (apply Z.mul_lt_mono_pos_r; assumption).
  lia.
Qed.

Lemma ivl_round_mul_sound (P : ivl) (x y : float) :
  finite x = true -> finite y = true ->
  fst P * (ivl_unit * ivl_unit) <= F2Z x * F2Z y
    <= snd P * (ivl_unit * ivl_unit) ->
  match ivl_round_mul P with
  | Some J => finite (x * y) = true /\ in_ivl (F2Z (x * y)) J
  | None => True
  end.
Proof.
  destruct P as [pl pu]. unfold ivl_round_mul, in_ivl. cbv [fst snd].
  intros Fx Fy Hz.
  destruct (Z.ltb_spec (Z.log2 (Z.max (Z.abs pl) (Z.abs pu))) 1400)
    as [Hlog | ]; [ | exact I ].
  destruct ivl_unit_facts as [HS [Hhalf [Hbig _]]].
  pose proof ivl_unit_pos as HW.
  assert (Hover : Z.abs (F2Z x * F2Z y) < 2 ^ 3171).
  { apply (magnitude_bound (ivl_unit * ivl_unit) _ pl pu (2 ^ 1400));
      [ apply Z.mul_pos_pos; exact HW | exact Hz | | exact Hbig ].
    apply log2_below; [ lia | lia | exact Hlog ]. }
  destruct (mul_value x y Fx Fy Hover) as [Fp Herr].
  split; [ exact Fp | ].
  rewrite HS in Herr.
  apply (round_mul_core ivl_unit (2 ^ 256) (F2Z x * F2Z y));
    [ exact HW | reflexivity | exact Hhalf | exact Hz | exact Herr ].
Qed.

Lemma round_add_core (W z s sl su : Z) :
  0 < W -> sl * W <= z <= su * W ->
  2 ^ 53 * Z.abs (s - z) <= Z.abs z ->
  let mag := Z.max (Z.abs sl) (Z.abs su) in
  let err := mag / 2 ^ 53 + 1 in
  (sl - err) * W <= s <= (su + err) * W.
Proof.
  intros HW [Hl Hu] Herr mag err.
  assert (Hmag0 : 0 <= mag) by (unfold mag; lia).
  assert (Hz : Z.abs z <= mag * W).
  { assert (su * W <= mag * W)
      by (apply Z.mul_le_mono_nonneg_r; unfold mag; lia).
    assert (- mag * W <= sl * W)
      by (apply Z.mul_le_mono_nonneg_r; unfold mag; lia).
    lia. }
  pose proof (div_pow_bound mag mag ltac:(lia)) as Hdiv.
  assert (H1 : mag * W <= 2 ^ 53 * (mag / 2 ^ 53 + 1) * W)
    by (apply Z.mul_le_mono_nonneg_r; lia).
  replace (2 ^ 53 * (mag / 2 ^ 53 + 1) * W)
    with (2 ^ 53 * (err * W)) in H1 by (unfold err; ring).
  replace ((sl - err) * W) with (sl * W - err * W) by ring.
  replace ((su + err) * W) with (su * W + err * W) by ring.
  lia.
Qed.

Lemma ivl_round_add_sound (Sx : ivl) (x y : float) :
  finite x = true -> finite y = true ->
  in_ivl (F2Z x + F2Z y) Sx ->
  match ivl_round_add Sx with
  | Some J => finite (x + y) = true /\ in_ivl (F2Z (x + y)) J
  | None => True
  end.
Proof.
  destruct Sx as [sl su]. unfold ivl_round_add, in_ivl. cbv [fst snd].
  intros Fx Fy Hz.
  destruct (Z.ltb_spec (Z.log2 (Z.max (Z.abs sl) (Z.abs su))) 1200)
    as [Hlog | ]; [ | exact I ].
  destruct ivl_unit_facts as [_ [_ [_ Hbig]]].
  pose proof ivl_unit_pos as HW.
  assert (Hover : Z.abs (F2Z x + F2Z y) < 2 ^ 2097).
  { apply (magnitude_bound ivl_unit _ sl su (2 ^ 1200));
      [ exact HW | exact Hz | | exact Hbig ].
    apply log2_below; [ lia | lia | exact Hlog ]. }
  destruct (add_value x y Fx Fy Hover) as [Fs Herr].
  split; [ exact Fs | ].
  apply (round_add_core ivl_unit (F2Z x + F2Z y));
    [ exact HW | exact Hz | exact Herr ].
Qed.

Lemma ivl_step_sound (R X C J : ivl) (r x c : float) :
  finite r = true -> finite x = true -> finite c = true ->
  in_ivl (F2Z r) R -> in_ivl (F2Z x) X -> in_ivl (F2Z c) C ->
  ivl_step R X C = Some J ->
  finite (r * x + c) = true /\ in_ivl (F2Z (r * x + c)) J.
Proof.
  intros Fr Fx Fc Hr Hx Hc. unfold ivl_step.
  pose proof (ivl_round_mul_sound _ r x Fr Fx (ivl_mul_sound R X _ _ Hr Hx))
    as Hmul.
  destruct (ivl_round_mul (ivl_mul R X)) as [[pl pu] | ]; [ | discriminate ].
  destruct Hmul as [Fp Hp].
  intros Eadd.
  assert (Hsum : in_ivl (F2Z (r * x) + F2Z c) (pl + fst C, pu + snd C)).
  { unfold in_ivl in *. cbv [fst snd] in *. destruct C as [cl cu]. lia. }
  pose proof (ivl_round_add_sound _ (r * x)%float c Fp Fc Hsum) as Hadd.
  rewrite Eadd in Hadd. exact Hadd.
Qed.

(** Soundness: for finite coefficients and a finite input whose value is in
    [X], the nested Horner form computed in binary64 is a finite number and
    its value is within the bounds. *)
Lemma Horner_bounds_sound (c : list float) (X J : ivl) (x : float) :
  forallb finite c = true -> finite x = true -> in_ivl (F2Z x) X ->
  Horner_bounds (map (fun ci => ivl_of (F2Z ci)) c) X = Some J ->
  finite (Horner_double c x) = true /\ in_ivl (F2Z (Horner_double c x)) J.
Proof.
  intros Hc Fx Hx. revert J.
  induction c as [ | ci c IH]; intros J.
  - cbn [map Horner_bounds]. intros E.
    assert (EJ : J = (0, 0)) by congruence. subst J.
    split; [ reflexivity | ]. unfold in_ivl. cbv [fst snd].
    change (F2Z (Horner_double [] x)) with 0. lia.
  - cbn [forallb] in Hc. apply andb_prop in Hc. destruct Hc as [Fci Hc].
    cbn [map Horner_bounds].
    destruct (Horner_bounds (map (fun ci => ivl_of (F2Z ci)) c) X)
      as [R | ] eqn:ER; [ | discriminate ].
    destruct (IH Hc R eq_refl) as [Fr Hr].
    intros Estep.
    apply (ivl_step_sound R X (ivl_of (F2Z ci)) J (Horner_double c x) x ci
             Fr Fx Fci Hr Hx (ivl_of_sound _) Estep).
Qed.

Lemma ivl_pieces_cover (lo hi width : Z) (n : nat) (z : Z) :
  0 <= width -> lo * ivl_unit <= z <= hi * ivl_unit ->
  exists X, In X (ivl_pieces lo hi width n) /\ in_ivl z X.
Proof.
  intros Hw. pose proof ivl_unit_pos as HW.
  revert lo. induction n as [ | n IH]; intros lo Hz.
  - exists (lo, hi). split; [ left; reflexivity | exact Hz ].
  - cbn [ivl_pieces]. destruct (Z.ltb_spec (lo + width) hi) as [Hlt | Hge].
    + destruct (Z.le_gt_cases z ((lo + width) * ivl_unit)) as [Hin | Hout].
      * exists (lo, lo + width). split; [ left; reflexivity | ].
        unfold in_ivl. cbv [fst snd]. lia.
      * destruct (IH (lo + width) ltac:(lia)) as [X [HX Hz']].
        exists X. split; [ right; exact HX | exact Hz' ].
    + exists (lo, hi). split; [ left; reflexivity | exact Hz ].
Qed.

Lemma Horner_bounds_pieces_sound (c : list float) (pieces : list ivl)
    (X J : ivl) (x : float) :
  forallb finite c = true -> finite x = true ->
  In X pieces -> in_ivl (F2Z x) X ->
  Horner_bounds_pieces (map (fun ci => ivl_of (F2Z ci)) c) pieces = Some J ->
  finite (Horner_double c x) = true /\ in_ivl (F2Z (Horner_double c x)) J.
Proof.
  intros Hc Fx. pose proof ivl_unit_pos as HW. revert J.
  induction pieces as [ | Y rest IH]; intros J HX Hx; [ contradiction | ].
  cbn [Horner_bounds_pieces].
  destruct rest as [ | Y' rest'].
  - destruct HX as [-> | []]. apply (Horner_bounds_sound c X J x Hc Fx Hx).
  - destruct (Horner_bounds (map (fun ci => ivl_of (F2Z ci)) c) Y)
      as [[l1 u1] | ] eqn:E1; [ | discriminate ].
    destruct (Horner_bounds_pieces (map (fun ci => ivl_of (F2Z ci)) c)
                (Y' :: rest')) as [[l2 u2] | ] eqn:E2; [ | discriminate ].
    intros E. assert (EJ : J = (Z.min l1 l2, Z.max u1 u2)) by congruence.
    subst J.
    destruct HX as [-> | HX].
    + destruct (Horner_bounds_sound c X (l1, u1) x Hc Fx Hx E1) as [F H].
      split; [ exact F | ]. unfold in_ivl in *. cbv [fst snd] in *. nia.
    + destruct (IH (l2, u2) HX Hx eq_refl) as [F H].
      split; [ exact F | ]. unfold in_ivl in *. cbv [fst snd] in *. nia.
Qed.
(** ** The monad *)

Lemma result_bind {A B} (m : M A) (k : A -> M B) :
  result (bind m k) =
    match result m with
    | None => None
    | Some a => result (k a)
    end.
Proof.
  destruct m as [t [a | ]]; cbn; [ destruct (k a); reflexivity | reflexivity ].
Qed.

Lemma trace_bind {A B} (m : M A) (k : A -> M B) :
  trace (bind m k) =
    match result m with
    | None => trace m
    | Some a => trace m ++ trace (k a)
    end.
Proof.
  destruct m as [t [a | ]]; cbn; [ destruct (k a); reflexivity | reflexivity ].
Qed.

Lemma load_in_bounds {A} (ev : Z -> event) (l : list A) (i : nat) (a : A) :
  nth_error l i = Some a ->
  load ev (Some l) (Z.of_nat i) = ([ev (Z.of_nat i)], Some a).
Proof.
  intros H. unfold load.
  destruct (Z.ltb_spec (Z.of_nat i) 0) as [Hneg | _]; [ lia | ].
  rewrite Nat2Z.id, H. reflexivity.
Qed.

(** ** [FindPolyCoeff] *)

Lemma skipn_nth_error {A} (l : list A) (i : nat) (a : A) :
  nth_error l i = Some a -> skipn i l = a :: skipn (S i) l.
Proof.
  revert l. induction i as [ | i IH]; intros [ | b l] H; try discriminate.
  - cbn in H. injection H as ->. reflexivity.
  - cbn in H. cbn [skipn]. rewrite (IH l H). reflexivity.
Qed.

Lemma FindPolyCoeff_loop_find (ranges : list RangePoly) (value : float)
    (n i : nat) :
  (i + n <= List.length ranges)%nat ->
  result (FindPolyCoeff_loop (Some ranges) n (Z.of_nat i) value) =
    Some (option_map poly (find (in_range value) (firstn n (skipn i ranges)))).
Proof.
  revert i. induction n as [ | n IH]; intros i Hlen.
  - reflexivity.
  - cbn [FindPolyCoeff_loop].
    destruct (nth_error ranges i) as [r | ] eqn:Hr.
    2: { apply nth_error_None in Hr. lia. }
    rewrite result_bind, (load_in_bounds _ _ _ _ Hr). cbn [result snd].
    rewrite (skipn_nth_error _ _ _ Hr). cbn [firstn find].
    change ((min r <=? value)%float && (value <=? max r)%float)
      with (in_range value r).
    destruct (in_range value r); [ reflexivity | ].
    replace (Z.of_nat i + 1) with (Z.of_nat (S i)) by lia.
    apply IH. lia.
Qed.

(** [FindPolyCoeff] on the first [len] entries of a table: never a fault,
    and the result is the polynomial of the first entry containing the
    probe, [NULL] when there is none. *)
Lemma FindPolyCoeff_find (ranges : list RangePoly) (len : Z) (value : float) :
  0 <= len <= countof ranges ->
  result (FindPolyCoeff (Some ranges) len value) =
    Some (option_map poly
            (find (in_range value) (firstn (Z.to_nat len) ranges))).
Proof.
  intros Hlen. unfold FindPolyCoeff, countof in *.
  rewrite result_bind. cbn [tell result snd].
  apply (FindPolyCoeff_loop_find ranges value (Z.to_nat len) 0). lia.
Qed.

Lemma FindPolyCoeff_table (ranges : list RangePoly) (value : float) :
  result (FindPolyCoeff (Some ranges) (countof ranges) value) =
    Some (option_map poly (find (in_range value) ranges)).
Proof.
  rewrite FindPolyCoeff_find by (unfold countof; lia).
  unfold countof. rewrite Nat2Z.id, firstn_all. reflexivity.
Qed.

Lemma find_first {A} (f : A -> bool) (l : list A) (i : nat) (a : A) :
  nth_error l i = Some a -> f a = true ->
  (forall j b, (j < i)%nat -> nth_error l j = Some b -> f b = false) ->
  find f l = Some a.
Proof.
  revert i. induction l as [ | x l IH]; intros [ | i] Hi Ha Hbefore;
    try discriminate.
  - cbn in Hi. injection Hi as ->. cbn. rewrite Ha. reflexivity.
  - cbn. rewrite (Hbefore 0%nat x) by (cbn; (lia || reflexivity)).
    apply (IH i); [ exact Hi | exact Ha | ].
    intros j b Hj Hb. apply (Hbefore (S j) b); [ lia | exact Hb ].
Qed.

Lemma find_none {A} (f : A -> bool) (l : list A) :
  (forall a, In a l -> f a = false) -> find f l = None.
Proof.
  induction l as [ | x l IH]; intros H; [ reflexivity | ].
  cbn. rewrite (H x) by (left; reflexivity).
  apply IH. intros a Ha. apply H. right. exact Ha.
Qed.

(** C4.  On a table [ranges] scanned in full, [FindPolyCoeff] returns the
    polynomial of the first entry, in table order, whose closed interval
    [[min, max]] contains the probe; it returns [NULL] when no entry
    contains the probe; and a probe equal to the bound shared by two
    adjacent entries selects the earlier of the two. *)
Theorem FindPolyCoeff_first_match (ranges : list RangePoly) (value : float) :
  (forall i r,
     nth_error ranges i = Some r ->
     in_range value r = true ->
     (forall j r', (j < i)%nat -> nth_error ranges j = Some r' ->
                   in_range value r' = false) ->
     result (FindPolyCoeff (Some ranges) (countof ranges) value)
       = Some (Some (poly r)))
  /\ ((forall r, In r ranges -> in_range value r = false) ->
      result (FindPolyCoeff (Some ranges) (countof ranges) value) = Some None)
  /\ (forall i r1 r2,
        nth_error ranges i = Some r1 ->
        nth_error ranges (S i) = Some r2 ->
        (min r1 <=? max r1)%float = true ->
        (min r2 <=? max r2)%float = true ->
        value = max r1 -> value = min r2 ->
        (forall j r', (j < i)%nat -> nth_error ranges j = Some r' ->
                      in_range value r' = false) ->
        in_range value r1 = true /\ in_range value r2 = true /\
        result (FindPolyCoeff (Some ranges) (countof ranges) value)
          = Some (Some (poly r1))).
Proof.
  assert (Hfirst : forall i r,
     nth_error ranges i = Some r ->
     in_range value r = true ->
     (forall j r', (j < i)%nat -> nth_error ranges j = Some r' ->
                   in_range value r' = false) ->
     result (FindPolyCoeff (Some ranges) (countof ranges) value)
       = Some (Some (poly r))).
  { intros i r Hi Hr Hbefore. rewrite FindPolyCoeff_table.
    rewrite (find_first _ _ i r Hi Hr Hbefore). reflexivity. }
  split; [ exact Hfirst | split ].
  - intros Hnone. rewrite FindPolyCoeff_table, (find_none _ _ Hnone).
    reflexivity.
  - intros i r1 r2 H1 H2 Hv1 Hv2 E1 E2 Hbefore.
    assert (Hin1 : in_range value r1 = true).
    { unfold in_range. rewrite E1. clear - Hv1. float_order. }
    assert (Hin2 : in_range value r2 = true).
    { unfold in_range. rewrite E2. clear - Hv2. float_order. }
    split; [ exact Hin1 | split; [ exact Hin2 | ] ].
    apply (Hfirst i r1 H1 Hin1 Hbefore).
Qed.

(** ** [Polynomial_Evaluate] *)

Lemma firstn_succ_nth_error {A} (l : list A) (i : nat) (a : A) :
  nth_error l i = Some a -> firstn (S i) l = firstn i l ++ [a].
Proof.
  revert l. induction i as [ | i IH]; intros [ | b l] H; try discriminate.
  - cbn in H. injection H as ->. reflexivity.
  - cbn in H. rewrite (firstn_cons (S i)), (firstn_cons i), (IH l H).
    reflexivity.
Qed.

Lemma Polynomial_Evaluate_loop_fold (c : list float) (input : float)
    (n : nat) (acc : float) :
  (n <= List.length c)%nat ->
  result (Polynomial_Evaluate_loop (Some c) n input acc) =
    Some (fold_left (fun r ci => (r * input + ci)%float) (rev (firstn n c)) acc).
Proof.
  revert acc. induction n as [ | n IH]; intros acc Hn.
  - reflexivity.
  - cbn [Polynomial_Evaluate_loop].
    destruct (nth_error c n) as [cn | ] eqn:Hc.
    2: { apply nth_error_None in Hc. lia. }
    rewrite result_bind, (load_in_bounds _ _ _ _ Hc). cbn [result snd].
    rewrite (firstn_succ_nth_error _ _ _ Hc), rev_app_distr. cbn [rev app fold_left].
    apply IH. lia.
Qed.

(** The reads of the loop: [pCoefficient[n-1]], ..., [pCoefficient[0]]. *)
Lemma Polynomial_Evaluate_loop_trace (c : list float) (input : float)
    (n : nat) (acc : float) :
  (n <= List.length c)%nat ->
  trace (Polynomial_Evaluate_loop (Some c) n input acc) =
    map (fun i => Read_pCoefficient (Z.of_nat i)) (rev (seq 0 n)).
Proof.
  revert acc. induction n as [ | n IH]; intros acc Hn.
  - reflexivity.
  - cbn [Polynomial_Evaluate_loop].
    destruct (nth_error c n) as [cn | ] eqn:Hc.
    2: { apply nth_error_None in Hc. lia. }
    rewrite trace_bind, (load_in_bounds _ _ _ _ Hc). cbn [result snd trace fst].
    rewrite seq_S, rev_app_distr. cbn [rev app map]. f_equal.
    apply IH. lia.
Qed.

Lemma int8_index (n : Z) :
  1 <= n <= 128 -> to_int8 (to_uint8 n - 1) = n - 1.
Proof.
  intros H. unfold to_uint8, to_int8.
  rewrite (Z.mod_small n 256) by lia.
  rewrite (Z.mod_small (n - 1 + 128) 256) by lia. lia.
Qed.

Lemma Horner_recurrence_nested {T} (zero : T) (add mul : T -> T -> T)
    (c : list T) (x : T) :
  Horner_recurrence zero add mul c x = Horner zero add mul c x.
Proof.
  unfold Horner_recurrence. rewrite <- fold_left_rev_right, rev_involutive.
  induction c as [ | ci c IH]; [ reflexivity | ].
  cbn [fold_right Horner]. rewrite IH. reflexivity.
Qed.

Lemma power_sum_from_shift (c : list Z) (x : Z) (k : nat) :
  power_sum_from c x (S k) = x * power_sum_from c x k.
Proof.
  revert k. induction c as [ | ci c IH]; intros k; cbn [power_sum_from].
  - lia.
  - rewrite (IH (S k)), Nat2Z.inj_succ, Z.pow_succ_r by lia. ring.
Qed.

(** Over exact arithmetic the recurrence is the value of the polynomial. *)
Lemma Horner_power_sum (c : list Z) (x : Z) :
  Horner_recurrence 0 Z.add Z.mul c x = power_sum c x.
Proof.
  rewrite Horner_recurrence_nested. unfold power_sum.
  induction c as [ | ci c IH]; [ reflexivity | ].
  cbn [Horner power_sum_from]. rewrite IH, power_sum_from_shift.
  change (Z.of_nat 0) with 0. rewrite Z.pow_0_r. ring.
Qed.

(** The value and the reads of [Polynomial_Evaluate] on an array of
    [n] coefficients, [1 <= n <= 128]. *)
Lemma Polynomial_Evaluate_result (c : list float) (x : float) :
  1 <= countof c <= 128 ->
  result (Polynomial_Evaluate (Some c) (countof c) x)
    = Some (Horner_recurrence_double c x).
Proof.
  intros Hn. unfold Polynomial_Evaluate. rewrite result_bind.
  cbn [tell result snd].
  rewrite int8_index by exact Hn.
  replace (Z.to_nat (countof c - 1 + 1)) with (List.length c)
    by (unfold countof; lia).
  rewrite Polynomial_Evaluate_loop_fold by lia.
  rewrite firstn_all. reflexivity.
Qed.

Lemma Polynomial_Evaluate_trace (c : list float) (x : float) :
  1 <= countof c <= 128 ->
  trace (Polynomial_Evaluate (Some c) (countof c) x)
    = Call_Polynomial_Evaluate
      :: map (fun i => Read_pCoefficient (Z.of_nat i))
             (rev (seq 0 (List.length c))).
Proof.
  intros Hn. unfold Polynomial_Evaluate. rewrite trace_bind.
  cbn [tell result snd trace fst app].
  rewrite int8_index by exact Hn.
  replace (Z.to_nat (countof c - 1 + 1)) with (List.length c)
    by (unfold countof; lia).
  rewrite Polynomial_Evaluate_loop_trace by lia. reflexivity.
Qed.

(** X: for a coefficient array of [n] elements with [1 <= n <= 128],
    [Polynomial_Evaluate] reads [c[n-1]], ..., [c[0]] and returns the result
    of Horner's recurrence [result = 0; for i from n-1 downto 0:
    result = result*x + c[i]], which is the nested Horner form of
    [c[0] + c[1]*x + ... + c[n-1]*x^(n-1)]; computed over exact integers
    that recurrence is the value of the polynomial. *)
Theorem Polynomial_Evaluate_Horner (c : list float) (x : float) :
  1 <= countof c <= 128 ->
  result (Polynomial_Evaluate (Some c) (countof c) x)
    = Some (Horner_recurrence_double c x)
  /\ Horner_recurrence_double c x = Horner_double c x
  /\ trace (Polynomial_Evaluate (Some c) (countof c) x)
     = Call_Polynomial_Evaluate
       :: map (fun i => Read_pCoefficient (Z.of_nat i))
              (rev (seq 0 (List.length c)))
  /\ (forall (cz : list Z) (xz : Z),
        Horner_recurrence 0 Z.add Z.mul cz xz = power_sum cz xz).
Proof.
  intros Hn. split; [ | split; [ | split ] ].
  - apply Polynomial_Evaluate_result. exact Hn.
  - apply Horner_recurrence_nested.
  - apply Polynomial_Evaluate_trace. exact Hn.
  - exact Horner_power_sum.
Qed.

(** With zero coefficients to read, the loop body never runs: whatever the
    pointer, [NULL] included, the call reads nothing and returns [0.0]. *)
Lemma Polynomial_Evaluate_length_0 (pCoefficient : ptr float) (input : float) :
  Polynomial_Evaluate pCoefficient 0 input
    = ([Call_Polynomial_Evaluate], Some 0%float).
Proof. reflexivity. Qed.

(** ** Tables as chains of intervals *)

(** [float_bool] decides a goal made of comparisons of floats and boolean
    connectives, by cases on every comparison of keys. *)
Ltac float_bool :=
  float_keys;
  repeat match goal with
         | H : true = true |- _ => clear H
         | H : _ && _ = true |- _ => apply andb_prop in H; destruct H
         | H : context [(?a <=? ?b)%Z] |- _ => destruct (Z.leb_spec a b)
         | |- context [(?a <=? ?b)%Z] => destruct (Z.leb_spec a b)
         | H : context [(?a <? ?b)%Z] |- _ => destruct (Z.ltb_spec a b)
         | |- context [(?a <? ?b)%Z] => destruct (Z.ltb_spec a b)
         | H : context [(?a =? ?b)%Z] |- _ => destruct (Z.eqb_spec a b)
         | |- context [(?a =? ?b)%Z] => destruct (Z.eqb_spec a b)
         end;
  cbn [andb orb negb] in *;
  try discriminate; try reflexivity; try lia.

Lemma last_cons_default {A} (l : list A) (a d : A) :
  last (a :: l) d = last l a.
Proof.
  revert a d. induction l as [ | b l IH]; intros a d; [ reflexivity | ].
  change (last (a :: b :: l) d) with (last (b :: l) d).
  rewrite (IH b d). symmetry. apply (IH b a).
Qed.

Lemma chain_ok_cons (r : RangePoly) (l : list RangePoly) :
  chain_ok (r :: l) = true ->
  (min r <? max r)%float = true /\ chain_ok l = true /\
  match l with
  | [] => True
  | r2 :: _ => max r = min r2
  end.
Proof.
  cbn [chain_ok]. intros H.
  apply andb_prop in H. destruct H as [H Hl].
  apply andb_prop in H. destruct H as [Hr He].
  split; [ exact Hr | split; [ exact Hl | ] ].
  destruct l as [ | r2 l]; [ exact I | ].
  apply FloatAxioms.Leibniz.eqb_spec. exact He.
Qed.

(** The intervals of a chain cover exactly the interval from the first
    [min] to the last [max]. *)
Lemma chain_cover (l : list RangePoly) (r : RangePoly) (v : float) :
  chain_ok (r :: l) = true ->
  existsb (in_range v) (r :: l) = in_domain v (min r, max (last l r))
  /\ (min r <? max (last l r))%float = true.
Proof.
  revert r. induction l as [ | r2 l IH]; intros r Hc.
  - apply chain_ok_cons in Hc. destruct Hc as [Hr _].
    cbn [existsb last]. rewrite orb_false_r. split; [ reflexivity | exact Hr ].
  - apply chain_ok_cons in Hc. destruct Hc as [Hr [Hl He]].
    destruct (IH r2 Hl) as [Hcover Hlt].
    rewrite last_cons_default.
    change (existsb (in_range v) (r :: r2 :: l))
      with (in_range v r || existsb (in_range v) (r2 :: l)).
    rewrite Hcover. unfold in_range, in_domain. cbn [fst snd].
    rewrite <- He in *. clear - Hr Hlt.
    split; float_bool.
Qed.

(** In a chain, a later entry starts where an earlier one ends or above;
    strictly above unless it is the next entry. *)
Lemma chain_later (l : list RangePoly) (r rj : RangePoly) (k : nat) :
  chain_ok (r :: l) = true ->
  nth_error l k = Some rj ->
  (max r <=? min rj)%float = true
  /\ (k <> 0%nat -> (max r <? min rj)%float = true).
Proof.
  revert r k. induction l as [ | r2 l IH]; intros r k Hc Hk.
  - destruct k; discriminate.
  - apply chain_ok_cons in Hc. destruct Hc as [Hr [Hl He]].
    destruct k as [ | k].
    + cbn in Hk. injection Hk as <-. rewrite <- He.
      split; [ clear - Hr; float_bool | intros H; contradiction ].
    + cbn in Hk. destruct (IH r2 k Hl Hk) as [Hle _].
      apply chain_ok_cons in Hl. destruct Hl as [Hr2 _].
      rewrite <- He in *. clear - Hr Hr2 Hle.
      split; [ | intros _ ]; float_bool.
Qed.

(** Two different entries of a chain have at most one value in common: the
    bound that two adjacent entries share. *)
Lemma chain_overlap (l : list RangePoly) (i j : nat) (ri rj : RangePoly)
    (v : float) :
  chain_ok l = true -> (i < j)%nat ->
  nth_error l i = Some ri -> nth_error l j = Some rj ->
  in_range v ri = true -> in_range v rj = true ->
  j = S i /\ (v =? max ri)%float = true /\ (v =? min rj)%float = true.
Proof.
  revert i j. induction l as [ | r l IH]; intros i j Hc Hij Hi Hj Hvi Hvj.
  - destruct i; discriminate.
  - destruct j as [ | j]; [ lia | ].
    destruct i as [ | i].
    + cbn in Hi, Hj. injection Hi as ->.
      destruct (chain_later l ri rj j Hc Hj) as [Hle Hlt].
      unfold in_range in Hvi, Hvj.
      destruct j as [ | j].
      * split; [ reflexivity | ]. clear - Hle Hvi Hvj. split; float_bool.
      * exfalso. assert (H : (max ri <? min rj)%float = true)
          by (apply Hlt; discriminate).
        clear - H Hvi Hvj. float_bool.
    + cbn in Hi, Hj. apply chain_ok_cons in Hc. destruct Hc as [_ [Hl _]].
      destruct (IH i j Hl ltac:(lia) Hi Hj Hvi Hvj) as [E H].
      split; [ lia | exact H ].
Qed.

(** ** The tables of the source *)

Lemma valid_type_cases (type : ThermocoupleType) :
  valid_type type = true ->
  type = TC_TYPE_R \/ type = TC_TYPE_S \/ type = TC_TYPE_B \/ type = TC_TYPE_J
  \/ type = TC_TYPE_T \/ type = TC_TYPE_E \/ type = TC_TYPE_K \/ type = TC_TYPE_N.
Proof.
  unfold valid_type, TC_TYPE_R, TC_TYPE_S, TC_TYPE_B, TC_TYPE_J, TC_TYPE_T,
    TC_TYPE_E, TC_TYPE_K, TC_TYPE_N.
  intros H. apply andb_prop in H. destruct H as [H0 H7].
  apply Z.leb_le in H0. apply Z.leb_le in H7. lia.
Qed.

Ltac each_type H :=
  apply valid_type_cases in H;
  destruct H as [H | [H | [H | [H | [H | [H | [H | H]]]]]]]; subst.

(** What every table must satisfy for [chain_cover] and
    [Polynomial_Evaluate_result] to apply, with the interval it covers. *)
Definition table_ok (l : list RangePoly) (d : float * float) : Prop :=
  chain_ok l = true /\ forallb entry_ok l = true /\ hull l = Some d.

Lemma all_tables_ok (l : list RangePoly) (d : float * float) :
  In (l, d) all_tables -> table_ok l d.
Proof.
  unfold all_tables. cbn [In]. intros H.
  repeat (destruct H as [H | H];
          [ injection H as <- <-; repeat split; vm_compute; reflexivity | ]).
  contradiction.
Qed.

Lemma mVToTemp_table_ok (type : ThermocoupleType) :
  valid_type type = true ->
  TC_mVToTemp_table type
    = (Some (mVToTemp_ranges type), countof (mVToTemp_ranges type))
  /\ table_ok (mVToTemp_ranges type) (voltage_domain type).
Proof.
  intros H. each_type H; (split; [ reflexivity | ]);
    apply all_tables_ok; unfold all_tables; cbn [In]; tauto.
Qed.

Lemma TempToMV_table_ok (type : ThermocoupleType) :
  valid_type type = true -> type <> TC_TYPE_K ->
  table_ok (TempToMV_ranges type) (temperature_domain type).
Proof.
  intros H HK. each_type H; try contradiction;
    apply all_tables_ok; unfold all_tables; cbn [In]; tauto.
Qed.

Lemma existsb_find {A} (f : A -> bool) (l : list A) :
  existsb f l = match find f l with Some _ => true | None => false end.
Proof.
  induction l as [ | a l IH]; [ reflexivity | ].
  cbn. destruct (f a); [ reflexivity | exact IH ].
Qed.

Lemma table_cover (l : list RangePoly) (d : float * float) (v : float) :
  table_ok l d -> existsb (in_range v) l = in_domain v d.
Proof.
  intros [Hc [_ Hh]]. destruct l as [ | r l]; [ discriminate | ].
  cbn [hull] in Hh. injection Hh as <-.
  apply (chain_cover l r v Hc).
Qed.

(** ** Lookup followed by evaluation *)

(** On a table whose entries are well formed, the code after the [switch]
    never faults: it returns the value of Horner's recurrence for the first
    entry containing [x], and leaves [current] when there is none. *)
Lemma lookup_and_evaluate_result (l : list RangePoly) (x current : float) :
  forallb entry_ok l = true ->
  result (lookup_and_evaluate (Some l) (countof l) x current) =
    match find (in_range x) l with
    | Some r =>
        match pCoefficients (poly r) with
        | Some c => Some (Horner_recurrence_double c x)
        | None => None
        end
    | None => Some current
    end.
Proof.
  intros Hok. unfold lookup_and_evaluate.
  rewrite result_bind, FindPolyCoeff_table.
  destruct (find (in_range x) l) as [r | ] eqn:Hfind; cbn [option_map];
    [ | reflexivity ].
  apply find_some in Hfind. destruct Hfind as [Hin _].
  rewrite forallb_forall in Hok. specialize (Hok r Hin).
  unfold entry_ok in Hok.
  destruct (pCoefficients (poly r)) as [c | ]; [ | discriminate ].
  apply andb_prop in Hok. destruct Hok as [Hok H128].
  apply andb_prop in Hok. destruct Hok as [Hlen H1].
  apply Z.eqb_eq in Hlen. apply Z.leb_le in H1. apply Z.leb_le in H128.
  rewrite Hlen. apply Polynomial_Evaluate_result. lia.
Qed.

Lemma lookup_and_evaluate_inside (l : list RangePoly) (d : float * float)
    (x current : float) :
  table_ok l d -> in_domain x d = true ->
  exists r c,
    find (in_range x) l = Some r /\ pCoefficients (poly r) = Some c /\
    result (lookup_and_evaluate (Some l) (countof l) x current)
      = Some (Horner_recurrence_double c x).
Proof.
  intros Hok Hin. pose proof (table_cover l d x Hok) as Hcover.
  destruct Hok as [_ [Hentries _]].
  rewrite lookup_and_evaluate_result by exact Hentries.
  rewrite existsb_find, Hin in Hcover.
  destruct (find (in_range x) l) as [r | ] eqn:Hfind; [ | discriminate ].
  apply find_some in Hfind. destruct Hfind as [Hr _].
  rewrite forallb_forall in Hentries. specialize (Hentries r Hr).
  unfold entry_ok in Hentries.
  destruct (pCoefficients (poly r)) as [c | ] eqn:Hc; [ | discriminate ].
  exists r, c. split; [ reflexivity | split; [ exact Hc | reflexivity ] ].
Qed.

Lemma lookup_and_evaluate_outside (l : list RangePoly) (d : float * float)
    (x current : float) :
  table_ok l d -> in_domain x d = false ->
  result (lookup_and_evaluate (Some l) (countof l) x current) = Some current.
Proof.
  intros Hok Hout. pose proof (table_cover l d x Hok) as Hcover.
  destruct Hok as [_ [Hentries _]].
  rewrite lookup_and_evaluate_result by exact Hentries.
  rewrite existsb_find, Hout in Hcover.
  destruct (find (in_range x) l); [ discriminate | reflexivity ].
Qed.

(** ** [TC_CalculateTemperature] *)

Lemma TC_CalculateTemperature_lookup (type : ThermocoupleType) (voltage : float) :
  valid_type type = true ->
  TC_CalculateTemperature type voltage =
    lookup_and_evaluate (Some (mVToTemp_ranges type))
      (countof (mVToTemp_ranges type)) voltage TC_CONVERSION_FAILED.
Proof.
  intros H. unfold TC_CalculateTemperature.
  destruct (mVToTemp_table_ok type H) as [-> _]. reflexivity.
Qed.

Lemma strictly_outside (x : float) (d : float * float) :
  (x <? fst d)%float = true \/ (snd d <? x)%float = true ->
  in_domain x d = false.
Proof.
  unfold in_domain. intros [H | H]; float_bool.
Qed.

(** At both bounds of every entry of every voltage table the conversion
    yields a number that is not the failure value. *)
Definition mVToTemp_bounds_converted (type : ThermocoupleType) : bool :=
  forallb (fun r => converted (TC_CalculateTemperature type (min r))
                    && converted (TC_CalculateTemperature type (max r)))
          (mVToTemp_ranges type).

(** C3.  For each of the 8 types, a voltage inside the closed voltage domain
    of section 6 is matched by a range of the type's table and
    [TC_CalculateTemperature] returns that range's polynomial evaluated at
    the voltage (Horner's recurrence on the range's coefficients); at both
    bounds of every range, so at both ends of the domain, that value is a
    number other than the failure value; a voltage strictly outside the
    domain, or any voltage not inside it, gives [TC_CONVERSION_FAILED]. *)
Theorem TC_CalculateTemperature_domain (type : ThermocoupleType)
    (voltage : float) :
  valid_type type = true ->
  (in_domain voltage (voltage_domain type) = true ->
   exists r c,
     find (in_range voltage) (mVToTemp_ranges type) = Some r /\
     pCoefficients (poly r) = Some c /\
     result (TC_CalculateTemperature type voltage)
       = Some (Horner_recurrence_double c voltage))
  /\ mVToTemp_bounds_converted type = true
  /\ hull (mVToTemp_ranges type) = Some (voltage_domain type)
  /\ ((voltage <? fst (voltage_domain type))%float = true
      \/ (snd (voltage_domain type) <? voltage)%float = true ->
      result (TC_CalculateTemperature type voltage) = Some TC_CONVERSION_FAILED)
  /\ (in_domain voltage (voltage_domain type) = false ->
      result (TC_CalculateTemperature type voltage) = Some TC_CONVERSION_FAILED).
Proof.
  intros Hty. rewrite (TC_CalculateTemperature_lookup type voltage Hty).
  destruct (mVToTemp_table_ok type Hty) as [_ Hok].
  split; [ | split; [ | split; [ | split ] ] ].
  - intros Hin. apply (lookup_and_evaluate_inside _ _ _ _ Hok Hin).
  - clear Hok. each_type Hty; vm_compute; reflexivity.
  - apply Hok.
  - intros Hout. apply strictly_outside in Hout.
    apply (lookup_and_evaluate_outside _ _ _ _ Hok Hout).
  - intros Hout. apply (lookup_and_evaluate_outside _ _ _ _ Hok Hout).
Qed.

(** ** [TC_CalculateVoltage] *)

Section Voltage.

Variable exp : float -> float.
Variable pow : float -> float -> float.

Lemma TC_CalculateVoltage_lookup (type : ThermocoupleType)
    (temperature : float) :
  valid_type type = true -> type <> TC_TYPE_K ->
  result (TC_CalculateVoltage exp pow type temperature) =
    result (lookup_and_evaluate (Some (TempToMV_ranges type))
              (countof (TempToMV_ranges type)) temperature
              TC_CONVERSION_FAILED)
  /\ trace (TC_CalculateVoltage exp pow type temperature) =
    trace (lookup_and_evaluate (Some (TempToMV_ranges type))
             (countof (TempToMV_ranges type)) temperature
             TC_CONVERSION_FAILED).
Proof.
  intros H HK. unfold TC_CalculateVoltage.
  rewrite result_bind, trace_bind.
  each_type H; try contradiction; split; reflexivity.
Qed.

Lemma TC_CalculateVoltage_K (temperature : float) :
  result (TC_CalculateVoltage exp pow TC_TYPE_K temperature)
    = result (TC_CalculateVoltage_case_K exp pow temperature)
  /\ trace (TC_CalculateVoltage exp pow TC_TYPE_K temperature)
    = trace (TC_CalculateVoltage_case_K exp pow temperature).
Proof.
  unfold TC_CalculateVoltage, TC_CalculateVoltage_switch.
  cbn [Z.eqb TC_TYPE_K TC_TYPE_R TC_TYPE_S TC_TYPE_B TC_TYPE_J TC_TYPE_T
       TC_TYPE_E Pos.eqb].
  destruct (TC_CalculateVoltage_case_K exp pow temperature) as [t [v | ]];
    cbn; rewrite ?app_nil_r; split; reflexivity.
Qed.

(** The three branches of [case TC_TYPE_K]. *)
Lemma case_K_below_zero (temperature : float) :
  (-270.5 <=? temperature)%float = true ->
  (temperature <=? 0.0)%float = true ->
  result (TC_CalculateVoltage_case_K exp pow temperature)
    = Some (Horner_recurrence_double TC_Coeff_K_TempToMV_Range1 temperature).
Proof.
  intros Hlo Hhi. unfold TC_CalculateVoltage_case_K.
  rewrite Hlo, Hhi. cbn [andb].
  rewrite result_bind, Polynomial_Evaluate_result by (vm_compute; split; discriminate).
  replace (0.0 <? temperature)%float with false by (symmetry; clear Hlo; float_bool).
  reflexivity.
Qed.

Lemma case_K_above_zero (temperature : float) :
  (0.0 <? temperature)%float = true ->
  (temperature <=? 1372.5)%float = true ->
  result (TC_CalculateVoltage_case_K exp pow temperature)
    = Some (Horner_recurrence_double TC_Coeff_K_TempToMV_Range2 temperature
            + K_correction exp pow temperature)%float.
Proof.
  intros Hlo Hhi. unfold TC_CalculateVoltage_case_K.
  replace (temperature <=? 0.0)%float with false by (symmetry; clear Hhi; float_bool).
  rewrite Hlo, Hhi, andb_false_r. cbn [andb].
  rewrite result_bind, Polynomial_Evaluate_result by (vm_compute; split; discriminate).
  reflexivity.
Qed.

Lemma case_K_no_range (temperature : float) :
  ((-270.5 <=? temperature) && (temperature <=? 0.0))%float = false ->
  ((0.0 <? temperature) && (temperature <=? 1372.5))%float = false ->
  TC_CalculateVoltage_case_K exp pow temperature
    = ([Call_Polynomial_Evaluate],
       Some (if (0.0 <? temperature)%float
             then (0 + K_correction exp pow temperature)%float else 0%float)).
Proof.
  intros H1 H2. unfold TC_CalculateVoltage_case_K.
  rewrite H1, H2. rewrite Polynomial_Evaluate_length_0.
  cbn [bind]. destruct (0.0 <? temperature)%float; reflexivity.
Qed.

(** C1.  Type K, temperature -300.0: the temperature is below the
    supported domain [-270.5, 1372.5], and [TC_CalculateVoltage] returns
    0.0, a value different from [TC_CONVERSION_FAILED]. *)
Theorem TC_CalculateVoltage_K_below_domain :
  in_domain (-300.0) (temperature_domain TC_TYPE_K) = false
  /\ result (TC_CalculateVoltage exp pow TC_TYPE_K (-300.0)) = Some 0%float
  /\ (0 =? TC_CONVERSION_FAILED)%float = false.
Proof.
  split; [ reflexivity | split; [ | reflexivity ] ].
  destruct (TC_CalculateVoltage_K (-300.0)) as [-> _].
  rewrite case_K_no_range by reflexivity. reflexivity.
Qed.

(** For the seven types that have a table, a temperature that is not
    inside the supported domain gives [TC_CONVERSION_FAILED]. *)
Lemma TC_CalculateVoltage_outside (type : ThermocoupleType)
    (temperature : float) :
  valid_type type = true -> type <> TC_TYPE_K ->
  in_domain temperature (temperature_domain type) = false ->
  result (TC_CalculateVoltage exp pow type temperature)
    = Some TC_CONVERSION_FAILED.
Proof.
  intros Hty HK Hout.
  destruct (TC_CalculateVoltage_lookup type temperature Hty HK) as [-> _].
  apply (lookup_and_evaluate_outside _ _ _ _ (TempToMV_table_ok type Hty HK) Hout).
Qed.

Lemma TC_CalculateVoltage_inside (type : ThermocoupleType)
    (temperature : float) :
  valid_type type = true -> type <> TC_TYPE_K ->
  in_domain temperature (temperature_domain type) = true ->
  exists r c,
    find (in_range temperature) (TempToMV_ranges type) = Some r /\
    pCoefficients (poly r) = Some c /\
    result (TC_CalculateVoltage exp pow type temperature)
      = Some (Horner_recurrence_double c temperature).
Proof.
  intros Hty HK Hin.
  destruct (TC_CalculateVoltage_lookup type temperature Hty HK) as [-> _].
  apply (lookup_and_evaluate_inside _ _ _ _ (TempToMV_table_ok type Hty HK) Hin).
Qed.

(** C2.  The constants are A0 = 0.1185976, A1 = -0.0001183432 and
    A2 = 126.9686.  For type K and a temperature above 0.0 (up to 1372.5)
    the result is the polynomial of the upper range plus
    [A0 * exp(A1 * pow(temperature - A2, 2.0))]; for type K from -270.5 to
    0.0 inclusive it is the bare polynomial of the lower range; for every
    other type it is the bare polynomial of the matched range, and the
    failure value when no range matches. *)
Theorem TC_CalculateVoltage_K_correction (type : ThermocoupleType)
    (temperature : float) :
  (TC_Coeff_K_TempToMV_A0 = 0.1185976%float
   /\ TC_Coeff_K_TempToMV_A1 = (-0.0001183432)%float
   /\ TC_Coeff_K_TempToMV_A2 = 126.9686%float)
  /\ (type = TC_TYPE_K ->
      (0.0 <? temperature)%float = true ->
      (temperature <=? 1372.5)%float = true ->
      result (TC_CalculateVoltage exp pow type temperature)
        = Some (Horner_recurrence_double TC_Coeff_K_TempToMV_Range2 temperature
                + TC_Coeff_K_TempToMV_A0
                  * exp (TC_Coeff_K_TempToMV_A1
                         * pow (temperature - TC_Coeff_K_TempToMV_A2) 2.0))%float)
  /\ (type = TC_TYPE_K ->
      (-270.5 <=? temperature)%float = true ->
      (temperature <=? 0.0)%float = true ->
      result (TC_CalculateVoltage exp pow type temperature)
        = Some (Horner_recurrence_double TC_Coeff_K_TempToMV_Range1 temperature))
  /\ (valid_type type = true -> type <> TC_TYPE_K ->
      in_domain temperature (temperature_domain type) = true ->
      exists r c,
        find (in_range temperature) (TempToMV_ranges type) = Some r /\
        pCoefficients (poly r) = Some c /\
        result (TC_CalculateVoltage exp pow type temperature)
          = Some (Horner_recurrence_double c temperature))
  /\ (valid_type type = true -> type <> TC_TYPE_K ->
      in_domain temperature (temperature_domain type) = false ->
      result (TC_CalculateVoltage exp pow type temperature)
        = Some TC_CONVERSION_FAILED).
Proof.
  split; [ repeat split; reflexivity | ].
  split; [ | split; [ | split ] ].
  - intros -> Hlo Hhi.
    destruct (TC_CalculateVoltage_K temperature) as [-> _].
    apply (case_K_above_zero temperature Hlo Hhi).
  - intros -> Hlo Hhi.
    destruct (TC_CalculateVoltage_K temperature) as [-> _].
    apply (case_K_below_zero temperature Hlo Hhi).
  - apply TC_CalculateVoltage_inside.
  - apply TC_CalculateVoltage_outside.
Qed.

Lemma invalid_type_tests (type : ThermocoupleType) :
  valid_type type = false ->
  (type =? TC_TYPE_R) = false /\ (type =? TC_TYPE_S) = false /\
  (type =? TC_TYPE_B) = false /\ (type =? TC_TYPE_J) = false /\
  (type =? TC_TYPE_T) = false /\ (type =? TC_TYPE_E) = false /\
  (type =? TC_TYPE_K) = false /\ (type =? TC_TYPE_N) = false.
Proof.
  unfold valid_type, TC_TYPE_R, TC_TYPE_S, TC_TYPE_B, TC_TYPE_J, TC_TYPE_T,
    TC_TYPE_E, TC_TYPE_K, TC_TYPE_N.
  intros H. apply andb_false_iff in H.
  rewrite !Z.eqb_neq. rewrite !Z.leb_gt in H. lia.
Qed.

Lemma invalid_type_runs (type : ThermocoupleType) (x : float) :
  valid_type type = false ->
  TC_CalculateTemperature type x = ([], Some TC_CONVERSION_FAILED)
  /\ TC_CalculateVoltage exp pow type x = ([], Some TC_CONVERSION_FAILED).
Proof.
  intros H. apply invalid_type_tests in H.
  destruct H as [HR [HS [HB [HJ [HT [HE [HK HN]]]]]]].
  unfold TC_CalculateTemperature, TC_mVToTemp_table, TC_CalculateVoltage,
    TC_CalculateVoltage_switch.
  rewrite HR, HS, HB, HJ, HT, HE, HK, HN.
  split; reflexivity.
Qed.

(** C6.  For a type argument that is none of the 8 enumerators, both
    conversions return [TC_CONVERSION_FAILED], which is -1.0e6, and
    perform no call of [FindPolyCoeff] or [Polynomial_Evaluate] and no
    array read. *)
Theorem invalid_type_fails (type : ThermocoupleType) (x : float) :
  valid_type type = false ->
  TC_CalculateTemperature type x = ([], Some TC_CONVERSION_FAILED)
  /\ TC_CalculateVoltage exp pow type x = ([], Some TC_CONVERSION_FAILED)
  /\ TC_CONVERSION_FAILED = (-1000000)%float.
Proof.
  intros H. destruct (invalid_type_runs type x H) as [HT HV].
  split; [ exact HT | split; [ exact HV | reflexivity ] ].
Qed.

(** C9.  Called with length 0, [Polynomial_Evaluate] performs no array
    read and returns 0.0 whatever the pointer, [NULL] included (with
    [NULL] and a length from 1 to 128 it faults).  In the branch of
    [case TC_TYPE_K] taken when neither range test holds, this is the only
    call: no array is read, the call yields 0.0, and the function returns
    normally, with 0.0 when the temperature is not above 0.0 and with 0.0
    plus the correction term when it is. *)
Theorem Polynomial_Evaluate_no_coefficients (pCoefficient : ptr float)
    (input temperature : float) :
  Polynomial_Evaluate pCoefficient 0 input
    = ([Call_Polynomial_Evaluate], Some 0%float)
  /\ (forall n, 1 <= n <= 128 ->
      result (Polynomial_Evaluate None n input) = None)
  /\ (((-270.5 <=? temperature) && (temperature <=? 0.0))%float = false ->
      ((0.0 <? temperature) && (temperature <=? 1372.5))%float = false ->
      trace (TC_CalculateVoltage exp pow TC_TYPE_K temperature)
        = [Call_Polynomial_Evaluate]
      /\ result (TC_CalculateVoltage exp pow TC_TYPE_K temperature)
        = Some (if (0.0 <? temperature)%float
                then (0 + K_correction exp pow temperature)%float
                else 0%float)).
Proof.
  split; [ apply Polynomial_Evaluate_length_0 | split ].
  - intros n Hn. unfold Polynomial_Evaluate.
    rewrite result_bind. cbn [tell result snd].
    rewrite int8_index by exact Hn.
    destruct (Z.to_nat (n - 1 + 1)) as [ | k] eqn:Hk; [ lia | ].
    reflexivity.
  - intros H1 H2.
    destruct (TC_CalculateVoltage_K temperature) as [-> ->].
    rewrite (case_K_no_range temperature H1 H2).
    split; reflexivity.
Qed.

(** C10.  For each of the 8 types, [TC_CalculateVoltage] at temperature
    0.0 returns exactly 0.0: the coefficients evaluated at 0.0 start with
    the constant term 0.0, Horner's recurrence at 0.0 yields that
    constant term, and the test [temperature > 0.0] of type K fails. *)
Theorem TC_CalculateVoltage_at_zero (type : ThermocoupleType) :
  valid_type type = true ->
  (exists c,
     matched_TempToMV type 0 = Some c /\ nth_error c 0 = Some 0%float /\
     Horner_recurrence_double c 0 = 0%float)
  /\ (0.0 <? 0.0)%float = false
  /\ result (TC_CalculateVoltage exp pow type 0) = Some 0%float.
Proof.
  intros H. split; [ | split; [ reflexivity | ] ].
  - each_type H; eexists; (split; [ reflexivity | ]);
      split; vm_compute; reflexivity.
  - each_type H; vm_compute; reflexivity.
Qed.

End Voltage.

(** ** The tables and the domains of the specification *)

(** C7.  For each of the 15 [RangePoly] tables of the source (every type
    and direction except type K from temperature to voltage, which has no
    table), the [max] of an entry is the [min] of the next one, two different
    entries have no value in common except that shared bound, and the union
    of the intervals is exactly the domain that section 6 of the
    specification lists for the type and direction. *)
Theorem tables_contiguous_and_cover (l : list RangePoly) (d : float * float) :
  In (l, d) all_tables ->
  (forall i r1 r2,
     nth_error l i = Some r1 -> nth_error l (S i) = Some r2 ->
     max r1 = min r2)
  /\ (forall i j ri rj v,
        (i < j)%nat -> nth_error l i = Some ri -> nth_error l j = Some rj ->
        in_range v ri = true -> in_range v rj = true ->
        j = S i /\ (v =? max ri)%float = true /\ (v =? min rj)%float = true)
  /\ (forall v, existsb (in_range v) l = in_domain v d)
  /\ List.length all_tables = 15%nat.
Proof.
  intros Hin. pose proof (all_tables_ok l d Hin) as Hok.
  split; [ | split; [ | split ] ].
  - destruct Hok as [Hc _]. clear Hin. revert Hc.
    induction l as [ | r l IH]; intros Hc i r1 r2 H1 H2.
    + destruct i; discriminate.
    + apply chain_ok_cons in Hc. destruct Hc as [_ [Hl He]].
      destruct i as [ | i].
      * cbn in H1. injection H1 as ->.
        destruct l as [ | r' l]; [ discriminate | ].
        cbn in H2. injection H2 as ->. exact He.
      * apply (IH Hl i r1 r2 H1 H2).
  - intros i j ri rj v. apply chain_overlap. apply Hok.
  - intros v. apply (table_cover l d v Hok).
  - reflexivity.
Qed.

(** ** Round trip *)



(** ** Bounds on the conversions *)

Lemma polynomial_bounds_sound (c : list float) (lo hi x : float) (J : ivl) :
  polynomial_bounds c lo hi = Some J ->
  (lo <=? x)%float = true -> (x <=? hi)%float = true ->
  finite (Horner_double c x) = true /\ in_ivl (F2Z (Horner_double c x)) J.
Proof.
  unfold polynomial_bounds. intros E Hlo Hhi.
  destruct (forallb finite c) eqn:Fc; [ | discriminate ].
  destruct (finite lo) eqn:Flo; [ | discriminate ].
  destruct (finite hi) eqn:Fhi; [ | discriminate ].
  cbn [andb] in E.
  destruct (between_finite lo hi x Flo Fhi Hlo Hhi) as [Fx [H1 H2]].
  apply (Horner_bounds_sound c (fst (ivl_of (F2Z lo)), snd (ivl_of (F2Z hi))) J x Fc Fx);
    [ | exact E ].
  destruct (ivl_of_sound (F2Z lo)) as [L _].
  destruct (ivl_of_sound (F2Z hi)) as [_ U].
  unfold in_ivl. change (fst (?a, ?b)) with a. change (snd (?a, ?b)) with b.
  lia.
Qed.

Lemma limit_values :
  F2Z 1.0e6 = ivl_limit * ivl_unit
  /\ F2Z TC_CONVERSION_FAILED = - ivl_limit * ivl_unit
  /\ finite 1.0e6 = true /\ finite TC_CONVERSION_FAILED = true.
Proof. repeat split; vm_compute; reflexivity. Qed.

Lemma within_limit_inside (J : ivl) (t : float) :
  within_limit (Some J) = true -> finite t = true -> in_ivl (F2Z t) J ->
  inside_limit t = true.
Proof.
  unfold within_limit, in_ivl, inside_limit. intros H Ft [L U].
  apply andb_prop in H. destruct H as [Hl Hu].
  apply Z.ltb_lt in Hl. apply Z.ltb_lt in Hu.
  destruct limit_values as [E1 [E2 [F1 F2]]].
  pose proof ivl_unit_pos as HW.
  apply andb_true_intro. split; apply value_lt_ltb; try assumption.
  - rewrite E2.
    assert (- ivl_limit * ivl_unit < fst J * ivl_unit)
      by (apply Z.mul_lt_mono_pos_r; assumption).
    lia.
  - rewrite E1.
    assert (snd J * ivl_unit < ivl_limit * ivl_unit)
      by (apply Z.mul_lt_mono_pos_r; assumption).
    lia.
Qed.

Lemma within_limit_Some (o : option ivl) :
  within_limit o = true -> exists J, o = Some J /\ within_limit (Some J) = true.
Proof.
  destruct o as [J | ]; [ | discriminate ].
  intros H. exists J. split; [ reflexivity | exact H ].
Qed.

Lemma inside_limit_not_failed (t : float) :
  inside_limit t = true -> (t =? TC_CONVERSION_FAILED)%float = false.
Proof.
  unfold inside_limit. intros H. apply andb_prop in H. destruct H as [H _].
  float_bool.
Qed.

(** Every polynomial of every table stays strictly between [-10^6] and
    [10^6] on its interval, and so do the two polynomials of type K for
    temperatures, the second one with the correction term added. *)
Lemma all_ranges_bounded :
  forallb (fun t => forallb range_bounded (fst t)) all_tables = true.
Proof. vm_cast_no_check (eq_refl true). Qed.

Lemma K_ranges_bounded :
  (exists J,
     polynomial_bounds TC_Coeff_K_TempToMV_Range1 (-270.5) 0.0 = Some J
     /\ within_limit (Some J) = true)
  /\ (exists V J,
        polynomial_bounds TC_Coeff_K_TempToMV_Range2 0.0 1372.5 = Some V
        /\ K_correction_bounds V = Some J
        /\ within_limit (Some J) = true).
Proof.
  split.
  - let o := eval vm_compute in
        (polynomial_bounds TC_Coeff_K_TempToMV_Range1 (-270.5) 0.0) in
    match o with
    | Some ?J => exists J; split; [ vm_cast_no_check (eq_refl (Some J)) | ]
    end.
    vm_compute. reflexivity.
  - let o := eval vm_compute in
        (polynomial_bounds TC_Coeff_K_TempToMV_Range2 0.0 1372.5) in
    match o with
    | Some ?V =>
        let o' := eval vm_compute in (K_correction_bounds V) in
        match o' with
        | Some ?J =>
            exists V, J;
            split; [ vm_cast_no_check (eq_refl (Some V)) | ];
            split; [ vm_cast_no_check (eq_refl (Some J)) | ]
        end
    end.
    vm_compute. reflexivity.
Qed.

Lemma range_bounded_number (r : RangePoly) (c : list float) (x : float) :
  range_bounded r = true -> pCoefficients (poly r) = Some c ->
  in_range x r = true ->
  finite (Horner_double c x) = true /\ inside_limit (Horner_double c x) = true.
Proof.
  unfold range_bounded, in_range. intros Hb Hc Hx. rewrite Hc in Hb.
  apply andb_prop in Hx. destruct Hx as [Hlo Hhi].
  destruct (polynomial_bounds c (min r) (max r)) as [J | ] eqn:E;
    [ | discriminate ].
  destruct (polynomial_bounds_sound c _ _ x J E Hlo Hhi) as [F HJ].
  split; [ exact F | apply (within_limit_inside J _ Hb F HJ) ].
Qed.

Lemma lookup_inside_number (l : list RangePoly) (d : float * float)
    (x current : float) :
  In (l, d) all_tables -> in_domain x d = true ->
  exists t,
    result (lookup_and_evaluate (Some l) (countof l) x current) = Some t
    /\ finite t = true /\ inside_limit t = true.
Proof.
  intros Hin Hx.
  destruct (lookup_and_evaluate_inside l d x current (all_tables_ok l d Hin) Hx)
    as [r [c [Hfind [Hc ->]]]].
  apply find_some in Hfind. destruct Hfind as [Hr Hxr].
  pose proof all_ranges_bounded as Hall.
  rewrite forallb_forall in Hall. specialize (Hall (l, d) Hin).
  cbn [fst] in Hall. rewrite forallb_forall in Hall.
  exists (Horner_double c x). split.
  - unfold Horner_recurrence_double, Horner_double.
    rewrite Horner_recurrence_nested. reflexivity.
  - apply (range_bounded_number r c x (Hall r Hr) Hc Hxr).
Qed.

Lemma mVToTemp_in_tables (type : ThermocoupleType) :
  valid_type type = true ->
  In (mVToTemp_ranges type, voltage_domain type) all_tables.
Proof. intros H. each_type H; unfold all_tables; cbn [In]; tauto. Qed.

Lemma TempToMV_in_tables (type : ThermocoupleType) :
  valid_type type = true -> type <> TC_TYPE_K ->
  In (TempToMV_ranges type, temperature_domain type) all_tables.
Proof.
  intros H HK. each_type H; try contradiction; unfold all_tables; cbn [In]; tauto.
Qed.

Lemma temperature_inside_number (type : ThermocoupleType) (voltage : float) :
  valid_type type = true ->
  in_domain voltage (voltage_domain type) = true ->
  exists t,
    result (TC_CalculateTemperature type voltage) = Some t
    /\ finite t = true /\ inside_limit t = true.
Proof.
  intros Hty Hin. rewrite (TC_CalculateTemperature_lookup type voltage Hty).
  apply (lookup_inside_number _ _ _ _ (mVToTemp_in_tables type Hty) Hin).
Qed.

Lemma K_correction_bounds_sound (V J : ivl) (v e : float) :
  finite v = true -> in_ivl (F2Z v) V ->
  (0 <=? e)%float = true -> (e <=? 1)%float = true ->
  K_correction_bounds V = Some J ->
  finite (v + TC_Coeff_K_TempToMV_A0 * e) = true
  /\ in_ivl (F2Z (v + TC_Coeff_K_TempToMV_A0 * e)) J.
Proof.
  intros Fv Hv He0 He1. unfold K_correction_bounds.
  destruct (between_finite 0 1 e eq_refl eq_refl He0 He1) as [Fe [E0 E1]].
  assert (FA : finite TC_Coeff_K_TempToMV_A0 = true) by reflexivity.
  assert (He : in_ivl (F2Z e) (fst (ivl_of (F2Z 0)), snd (ivl_of (F2Z 1)))).
  { destruct (ivl_of_sound (F2Z 0)) as [L _].
    destruct (ivl_of_sound (F2Z 1)) as [_ U].
    unfold in_ivl. change (fst (?a, ?b)) with a. change (snd (?a, ?b)) with b.
    split; [ apply (Z.le_trans _ _ _ L E0) | apply (Z.le_trans _ _ _ E1 U) ]. }
  pose proof (ivl_round_mul_sound _ TC_Coeff_K_TempToMV_A0 e FA Fe
                (ivl_mul_sound _ _ _ _ (ivl_of_sound _) He)) as Hmul.
  destruct (ivl_round_mul _) as [[cl cu] | ]; [ | discriminate ].
  destruct Hmul as [Fp Hp]. intros Eadd.
  assert (Hsum : in_ivl (F2Z v + F2Z (TC_Coeff_K_TempToMV_A0 * e))
                   (fst V + fst (cl, cu), snd V + snd (cl, cu))).
  { unfold in_ivl in Hv, Hp |- *. destruct V as [vl vu].
    cbv [fst snd] in Hv, Hp |- *. lia. }
  pose proof (ivl_round_add_sound _ v (TC_Coeff_K_TempToMV_A0 * e)%float
                Fv Fp Hsum) as Hadd.
  rewrite Eadd in Hadd. exact Hadd.
Qed.

Lemma K_below_zero_number (temperature : float) :
  (-270.5 <=? temperature)%float = true ->
  (temperature <=? 0.0)%float = true ->
  finite (Horner_double TC_Coeff_K_TempToMV_Range1 temperature) = true
  /\ inside_limit (Horner_double TC_Coeff_K_TempToMV_Range1 temperature) = true.
Proof.
  intros Hlo Hhi.
  destruct (proj1 K_ranges_bounded) as [J [EJ BJ]].
  destruct (polynomial_bounds_sound _ _ _ temperature J EJ Hlo Hhi) as [F HJ].
  split; [ exact F | apply (within_limit_inside J _ BJ F HJ) ].
Qed.

Lemma K_above_zero_number (temperature e : float) :
  (0.0 <=? temperature)%float = true ->
  (temperature <=? 1372.5)%float = true ->
  (0 <=? e)%float = true -> (e <=? 1)%float = true ->
  finite (Horner_double TC_Coeff_K_TempToMV_Range2 temperature
          + TC_Coeff_K_TempToMV_A0 * e) = true
  /\ inside_limit (Horner_double TC_Coeff_K_TempToMV_Range2 temperature
                   + TC_Coeff_K_TempToMV_A0 * e) = true.
Proof.
  intros Hlo Hhi He0 He1.
  destruct (proj2 K_ranges_bounded) as [V [J [EV [EJ BJ]]]].
  destruct (polynomial_bounds_sound _ _ _ temperature V EV Hlo Hhi) as [Fv Hv].
  destruct (K_correction_bounds_sound V J _ _ Fv Hv He0 He1 EJ) as [F HJ].
  split; [ exact F | apply (within_limit_inside J _ BJ F HJ) ].
Qed.

Section VoltageBounds.
Variable exp : float -> float.
Variable pow : float -> float -> float.

Lemma voltage_inside_number (type : ThermocoupleType) (temperature : float) :
valid_type type = true ->
in_domain temperature (temperature_domain type) = true ->
(type = TC_TYPE_K -> (0.0 <? temperature)%float = true ->
 ((0 <=? K_correction_exp exp pow temperature)
  && (K_correction_exp exp pow temperature <=? 1))%float = true) ->
exists v,
  result (TC_CalculateVoltage exp pow type temperature) = Some v
  /\ finite v = true /\ inside_limit v = true.
Proof.
intros Hty Hin Hexp.
destruct (Z.eqb_spec type TC_TYPE_K) as [-> | HK].
- specialize (Hexp eq_refl).
  destruct (TC_CalculateVoltage_K exp pow temperature) as [-> _].
  assert (Hin' : ((-270.5 <=? temperature) && (temperature <=? 1372.5))%float
                 = true) by exact Hin.
  clear Hin. apply andb_prop in Hin'. destruct Hin' as [Hlo Hhi].
  destruct (0.0 <? temperature)%float eqn:Hpos.
  + specialize (Hexp eq_refl). apply andb_prop in Hexp.
    destruct Hexp as [He0 He1].
    rewrite (case_K_above_zero exp pow temperature Hpos Hhi).
    unfold Horner_recurrence_double. rewrite Horner_recurrence_nested.
    fold Horner_double.
    assert (H0 : (0.0 <=? temperature)%float = true)
      by (clear - Hpos; float_bool).
    eexists. split; [ reflexivity | ].
    apply (K_above_zero_number temperature _ H0 Hhi He0 He1).
  + assert (H0 : (temperature <=? 0.0)%float = true)
      by (clear - Hlo Hpos; float_bool).
    rewrite (case_K_below_zero exp pow temperature Hlo H0).
    unfold Horner_recurrence_double. rewrite Horner_recurrence_nested.
    fold Horner_double.
    eexists. split; [ reflexivity | ].
    apply (K_below_zero_number temperature Hlo H0).
- destruct (TC_CalculateVoltage_lookup exp pow type temperature Hty HK)
    as [-> _].
  apply (lookup_inside_number _ _ _ _ (TempToMV_in_tables type Hty HK) Hin).
Qed.

End VoltageBounds.

(** ** Instances at concrete inputs *)

(** The bug behind C1, seen from above the domain as well: type K at 1400
    degrees returns the correction term alone. *)
Lemma TC_CalculateVoltage_K_above_domain :
  in_domain 1400 (temperature_domain TC_TYPE_K) = false
  /\ result (TC_CalculateVoltage exp_ref pow_ref TC_TYPE_K 1400)
     = Some (0 + K_correction exp_ref pow_ref 1400)%float
  /\ (0 + K_correction exp_ref pow_ref 1400 =? TC_CONVERSION_FAILED)%float
     = false.
Proof. repeat split; vm_compute; reflexivity. Qed.

Lemma TC_CalculateVoltage_K_correction_witness :
  ((0.0 <? 100)%float = true /\ (100 <=? 1372.5)%float = true /\
   result (TC_CalculateVoltage exp_ref pow_ref TC_TYPE_K 100)
     = Some (Horner_recurrence_double TC_Coeff_K_TempToMV_Range2 100
             + TC_Coeff_K_TempToMV_A0
               * exp_ref (TC_Coeff_K_TempToMV_A1
                          * pow_ref (100 - TC_Coeff_K_TempToMV_A2) 2.0))%float)
  /\ ((-270.5 <=? -156)%float = true /\ (-156 <=? 0.0)%float = true /\
      result (TC_CalculateVoltage exp_ref pow_ref TC_TYPE_K (-156))
        = Some (Horner_recurrence_double TC_Coeff_K_TempToMV_Range1 (-156)))
  /\ (in_domain 25 (temperature_domain TC_TYPE_J) = true /\
      exists r c,
        find (in_range 25) (TempToMV_ranges TC_TYPE_J) = Some r /\
        pCoefficients (poly r) = Some c /\
        result (TC_CalculateVoltage exp_ref pow_ref TC_TYPE_J 25)
          = Some (Horner_recurrence_double c 25))
  /\ (in_domain 5000 (temperature_domain TC_TYPE_J) = false /\
      result (TC_CalculateVoltage exp_ref pow_ref TC_TYPE_J 5000)
        = Some TC_CONVERSION_FAILED).
Proof.
  split; [ | split; [ | split ] ].
  - split; [ reflexivity | split; [ reflexivity | ] ].
    apply (proj1 (proj2
             (TC_CalculateVoltage_K_correction exp_ref pow_ref TC_TYPE_K 100)));
      reflexivity.
  - split; [ reflexivity | split; [ reflexivity | ] ].
    apply (proj1 (proj2 (proj2
             (TC_CalculateVoltage_K_correction exp_ref pow_ref TC_TYPE_K (-156)))));
      reflexivity.
  - split; [ reflexivity | ].
    apply (proj1 (proj2 (proj2 (proj2
             (TC_CalculateVoltage_K_correction exp_ref pow_ref TC_TYPE_J 25)))));
      [ reflexivity | discriminate | reflexivity ].
  - split; [ reflexivity | ].
    apply (proj2 (proj2 (proj2 (proj2
             (TC_CalculateVoltage_K_correction exp_ref pow_ref TC_TYPE_J 5000)))));
      [ reflexivity | discriminate | reflexivity ].
Defined.

Lemma TC_CalculateTemperature_domain_witness :
  valid_type TC_TYPE_K = true
  /\ (in_domain 17.85 (voltage_domain TC_TYPE_K) = true /\
      exists r c,
        find (in_range 17.85) (mVToTemp_ranges TC_TYPE_K) = Some r /\
        pCoefficients (poly r) = Some c /\
        result (TC_CalculateTemperature TC_TYPE_K 17.85)
          = Some (Horner_recurrence_double c 17.85))
  /\ ((snd (voltage_domain TC_TYPE_K) <? 60)%float = true /\
      result (TC_CalculateTemperature TC_TYPE_K 60) = Some TC_CONVERSION_FAILED)
  /\ (in_domain PrimFloat.nan (voltage_domain TC_TYPE_K) = false /\
      result (TC_CalculateTemperature TC_TYPE_K PrimFloat.nan)
        = Some TC_CONVERSION_FAILED).
Proof.
  split; [ reflexivity | split; [ | split ] ].
  - split; [ reflexivity | ].
    apply (proj1 (TC_CalculateTemperature_domain TC_TYPE_K 17.85 eq_refl)).
    reflexivity.
  - split; [ reflexivity | ].
    apply (proj1 (proj2 (proj2 (proj2
             (TC_CalculateTemperature_domain TC_TYPE_K 60 eq_refl))))).
    right. reflexivity.
  - split; [ reflexivity | ].
    apply (proj2 (proj2 (proj2 (proj2
             (TC_CalculateTemperature_domain TC_TYPE_K PrimFloat.nan eq_refl))))).
    reflexivity.
Defined.

Lemma FindPolyCoeff_first_match_witness :
  (* 0.0 is the max of the first entry of the K table and the min of the
     second: the first entry is selected. *)
  result (FindPolyCoeff (Some TC_K_mVToTemp) (countof TC_K_mVToTemp) 0)
    = Some (Some {| pCoefficients := Some TC_Coeff_K_mVToTemp_Range1;
                    length := countof TC_Coeff_K_mVToTemp_Range1 |})
  (* 17.85 lies in the second entry only. *)
  /\ result (FindPolyCoeff (Some TC_K_mVToTemp) (countof TC_K_mVToTemp) 17.85)
     = Some (Some {| pCoefficients := Some TC_Coeff_K_mVToTemp_Range2;
                     length := countof TC_Coeff_K_mVToTemp_Range2 |})
  (* 60 lies in no entry. *)
  /\ result (FindPolyCoeff (Some TC_K_mVToTemp) (countof TC_K_mVToTemp) 60)
     = Some None.
Proof.
  split; [ | split ].
  - refine (proj2 (proj2
             (proj2 (proj2 (FindPolyCoeff_first_match TC_K_mVToTemp 0))
                0%nat _ _ eq_refl eq_refl eq_refl eq_refl eq_refl eq_refl _))).
    intros j r' Hj. lia.
  - refine (proj1 (FindPolyCoeff_first_match TC_K_mVToTemp 17.85)
              1%nat _ eq_refl eq_refl _).
    intros [ | j] r' Hj Hr'; [ | lia ].
    cbn in Hr'. injection Hr' as <-. reflexivity.
  - apply (proj1 (proj2 (FindPolyCoeff_first_match TC_K_mVToTemp 60))).
    intros r [<- | [<- | [<- | []]]]; reflexivity.
Defined.

Lemma Polynomial_Evaluate_Horner_witness :
  1 <= countof TC_Coeff_K_TempToMV_Range1 <= 128
  /\ result (Polynomial_Evaluate (Some TC_Coeff_K_TempToMV_Range1)
               (countof TC_Coeff_K_TempToMV_Range1) (-156))
     = Some (Horner_recurrence_double TC_Coeff_K_TempToMV_Range1 (-156)).
Proof.
  split; [ vm_compute; split; discriminate | ].
  apply (Polynomial_Evaluate_Horner TC_Coeff_K_TempToMV_Range1 (-156)).
  vm_compute; split; discriminate.
Defined.


Lemma invalid_type_fails_witness :
  valid_type 8 = false
  /\ TC_CalculateTemperature 8 17.85 = ([], Some TC_CONVERSION_FAILED)
  /\ TC_CalculateVoltage exp_ref pow_ref 8 17.85
     = ([], Some TC_CONVERSION_FAILED)
  /\ TC_CONVERSION_FAILED = (-1000000)%float.
Proof.
  split; [ reflexivity | ].
  apply (invalid_type_fails exp_ref pow_ref 8 17.85). reflexivity.
Defined.

Lemma tables_contiguous_and_cover_witness :
  In (TC_K_mVToTemp, voltage_domain TC_TYPE_K) all_tables
  /\ forall v,
       existsb (in_range v) TC_K_mVToTemp
       = in_domain v (voltage_domain TC_TYPE_K).
Proof.
  assert (H : In (TC_K_mVToTemp, voltage_domain TC_TYPE_K) all_tables).
  { unfold all_tables. cbn [In]. tauto. }
  split; [ exact H | ].
  apply (proj1 (proj2 (proj2
           (tables_contiguous_and_cover TC_K_mVToTemp
              (voltage_domain TC_TYPE_K) H)))).
Defined.



Lemma Polynomial_Evaluate_no_coefficients_witness :
  Polynomial_Evaluate None 0 (-300) = ([Call_Polynomial_Evaluate], Some 0%float)
  /\ (1 <= 11 <= 128 /\ result (Polynomial_Evaluate None 11 (-300)) = None)
  /\ (((-270.5 <=? -300) && (-300 <=? 0.0))%float = false
      /\ ((0.0 <? -300) && (-300 <=? 1372.5))%float = false
      /\ trace (TC_CalculateVoltage exp_ref pow_ref TC_TYPE_K (-300))
         = [Call_Polynomial_Evaluate]
      /\ result (TC_CalculateVoltage exp_ref pow_ref TC_TYPE_K (-300))
         = Some 0%float).
Proof.
  pose proof (Polynomial_Evaluate_no_coefficients exp_ref pow_ref
                None (-300) (-300)) as [H0 [Hfault HK]].
  split; [ exact H0 | split ].
  - split; [ lia | apply Hfault; lia ].
  - split; [ reflexivity | split; [ reflexivity | ] ].
    apply (HK eq_refl eq_refl).
Defined.

Lemma TC_CalculateVoltage_at_zero_witness :
  valid_type TC_TYPE_K = true
  /\ result (TC_CalculateVoltage exp_ref pow_ref TC_TYPE_K 0) = Some 0%float.
Proof.
  split; [ reflexivity | ].
  apply (proj2 (proj2
           (TC_CalculateVoltage_at_zero exp_ref pow_ref TC_TYPE_K eq_refl))).
Defined.

(** ** Further properties of [FindPolyCoeff] *)

Lemma FindPolyCoeff_loop_trace (ranges : list RangePoly) (value : float)
    (n i : nat) :
  (i + n <= List.length ranges)%nat ->
  trace (FindPolyCoeff_loop (Some ranges) n (Z.of_nat i) value) =
    map (fun j => Read_ranges (Z.of_nat j))
        (seq i (scanned value (firstn n (skipn i ranges)))).
Proof.
  revert i. induction n as [ | n IH]; intros i Hlen.
  - reflexivity.
  - cbn [FindPolyCoeff_loop].
    destruct (nth_error ranges i) as [r | ] eqn:Hr.
    2: { apply nth_error_None in Hr. lia. }
    rewrite trace_bind, (load_in_bounds _ _ _ _ Hr). cbn [result snd trace fst].
    rewrite (skipn_nth_error _ _ _ Hr). cbn [firstn scanned].
    change ((min r <=? value)%float && (value <=? max r)%float)
      with (in_range value r).
    destruct (in_range value r); [ reflexivity | ].
    replace (Z.of_nat i + 1) with (Z.of_nat (S i)) by lia.
    rewrite IH by lia. reflexivity.
Qed.

(** X: the scan reads the entries in order from index 0 and stops at the
    first entry containing the probe ([break]); without a match it reads
    each of the [len] entries once. *)
Theorem FindPolyCoeff_scan (ranges : list RangePoly) (len : Z) (value : float) :
  0 <= len <= countof ranges ->
  trace (FindPolyCoeff (Some ranges) len value) =
    Call_FindPolyCoeff
    :: map (fun j => Read_ranges (Z.of_nat j))
           (seq 0 (scanned value (firstn (Z.to_nat len) ranges)))
  /\ (scanned value (firstn (Z.to_nat len) ranges) <= Z.to_nat len)%nat
  /\ (forall r,
        find (in_range value) (firstn (Z.to_nat len) ranges) = Some r ->
        nth_error ranges
          (pred (scanned value (firstn (Z.to_nat len) ranges))) = Some r)
  /\ (find (in_range value) (firstn (Z.to_nat len) ranges) = None ->
      scanned value (firstn (Z.to_nat len) ranges) = Z.to_nat len).
Proof.
  intros Hlen. unfold countof in Hlen.
  assert (Hn : (Z.to_nat len <= List.length ranges)%nat) by lia.
  split; [ | split; [ | split ] ].
  - unfold FindPolyCoeff. rewrite trace_bind.
    cbn [tell result snd trace fst app].
    f_equal.
    exact (FindPolyCoeff_loop_trace ranges value (Z.to_nat len) 0 ltac:(lia)).
  - clear Hlen. revert ranges Hn.
    induction (Z.to_nat len) as [ | n IH]; intros [ | r l] Hn; cbn; try lia.
    destruct (in_range value r); [ lia | ].
    cbn in Hn. specialize (IH l ltac:(lia)). lia.
  - clear Hlen. revert ranges Hn.
    induction (Z.to_nat len) as [ | n IH]; intros [ | r l] Hn r0;
      cbn [firstn find scanned]; try discriminate.
    destruct (in_range value r) eqn:Hr.
    + intros H. injection H as <-. reflexivity.
    + intros H. cbn in Hn. specialize (IH l ltac:(lia) r0 H).
      destruct (scanned value (firstn n l)) as [ | k] eqn:Hk.
      * destruct n as [ | n]; [ discriminate | ].
        destruct l as [ | r1 l]; [ discriminate | ].
        cbn in Hk. destruct (in_range value r1); discriminate.
      * exact IH.
  - clear Hlen. revert ranges Hn.
    induction (Z.to_nat len) as [ | n IH]; intros [ | r l] Hn;
      cbn [firstn find scanned]; try reflexivity.
    + cbn in Hn. lia.
    + destruct (in_range value r); [ discriminate | ].
      intros H. cbn in Hn. rewrite (IH l ltac:(lia) H). reflexivity.
Qed.

(** X: only the first [len] entries take part: the result is the polynomial
    of the first of them that contains the probe, [NULL] when none does;
    with [len = 0] the result is [NULL] and nothing is read, even through a
    [NULL] pointer; with [len] greater than the number of entries and no
    match, the scan reads past the end of the table. *)
Theorem FindPolyCoeff_partial (ranges : list RangePoly) (len : Z)
    (value : float) :
  (0 <= len <= countof ranges ->
   result (FindPolyCoeff (Some ranges) len value) =
     Some (option_map poly
             (find (in_range value) (firstn (Z.to_nat len) ranges))))
  /\ (forall p, FindPolyCoeff p 0 value = ([Call_FindPolyCoeff], Some None))
  /\ (countof ranges < len ->
      find (in_range value) ranges = None ->
      result (FindPolyCoeff (Some ranges) len value) = None).
Proof.
  split; [ apply FindPolyCoeff_find | split; [ reflexivity | ] ].
  intros Hlen Hnone. unfold FindPolyCoeff, countof in *.
  rewrite result_bind. cbn [tell result snd].
  assert (Hgen : forall n i,
            (List.length ranges < i + n)%nat -> (i <= List.length ranges)%nat ->
            find (in_range value) (skipn i ranges) = None ->
            result (FindPolyCoeff_loop (Some ranges) n (Z.of_nat i) value)
              = None).
  { induction n as [ | n IH]; intros i Hi Hi' Hf; [ lia | ].
    cbn [FindPolyCoeff_loop]. rewrite result_bind.
    destruct (nth_error ranges i) as [r | ] eqn:Hr.
    - rewrite (load_in_bounds _ _ _ _ Hr). cbn [result snd].
      rewrite (skipn_nth_error _ _ _ Hr) in Hf. cbn [find] in Hf.
      change ((min r <=? value)%float && (value <=? max r)%float)
        with (in_range value r).
      destruct (in_range value r); [ discriminate | ].
      replace (Z.of_nat i + 1) with (Z.of_nat (S i)) by lia.
      assert (Hlt : (i < List.length ranges)%nat)
        by (apply nth_error_Some; rewrite Hr; discriminate).
      apply IH; [ lia | lia | exact Hf ].
    - unfold load.
      destruct (Z.ltb_spec (Z.of_nat i) 0) as [Hneg | _]; [ lia | ].
      rewrite Nat2Z.id, Hr. reflexivity. }
  apply (Hgen (Z.to_nat len) 0%nat); [ lia | lia | exact Hnone ].
Qed.

(** ** Further properties of [Polynomial_Evaluate] *)

(** X: with 129 to 255 coefficients announced, the [int8_t] index starts
    negative: the call reads nothing and returns 0.0. *)
Theorem Polynomial_Evaluate_index_wraps (pCoefficient : ptr float)
    (length : Z) (input : float) :
  129 <= length <= 255 ->
  to_int8 (to_uint8 length - 1) < 0
  /\ Polynomial_Evaluate pCoefficient length input
     = ([Call_Polynomial_Evaluate], Some 0%float).
Proof.
  intros H.
  assert (Hi : to_int8 (to_uint8 length - 1) = length - 257).
  { unfold to_uint8, to_int8. rewrite (Z.mod_small length 256) by lia.
    replace (length - 1 + 128) with ((length - 129) + 1 * 256) by ring.
    rewrite Z.mod_add by lia. rewrite Z.mod_small by lia. lia. }
  split; [ lia | ].
  unfold Polynomial_Evaluate. cbv zeta. rewrite Hi.
  replace (Z.to_nat (length - 257 + 1)) with 0%nat by lia.
  reflexivity.
Qed.

(** ** The conversions as functions *)

(** X: [TC_CalculateTemperature] never faults, for any type value and any
    binary64 voltage (NaN and infinities included), and its value is
    [temperature_of_voltage]: the nested Horner form of the first matching
    range of the type's table, [TC_CONVERSION_FAILED] otherwise. *)
Theorem TC_CalculateTemperature_function (type : ThermocoupleType)
    (voltage : float) :
  result (TC_CalculateTemperature type voltage)
    = Some (temperature_of_voltage type voltage).
Proof.
  unfold temperature_of_voltage.
  destruct (valid_type type) eqn:Hty.
  - rewrite (TC_CalculateTemperature_lookup type voltage Hty).
    destruct (mVToTemp_table_ok type Hty) as [_ [_ [Hentries _]]].
    rewrite (lookup_and_evaluate_result _ _ _ Hentries).
    destruct (find (in_range voltage) (mVToTemp_ranges type)) as [r | ] eqn:Hf;
      [ | reflexivity ].
    apply find_some in Hf. destruct Hf as [Hr _].
    rewrite forallb_forall in Hentries. specialize (Hentries r Hr).
    unfold entry_ok in Hentries.
    destruct (pCoefficients (poly r)) as [c | ]; [ | discriminate ].
    unfold Horner_recurrence_double, Horner_double.
    rewrite Horner_recurrence_nested. reflexivity.
  - apply invalid_type_tests in Hty.
    destruct Hty as [HR [HS [HB [HJ [HT [HE [HK HN]]]]]]].
    unfold TC_CalculateTemperature, mVToTemp_ranges, TC_mVToTemp_table.
    rewrite HR, HS, HB, HJ, HT, HE, HK, HN. reflexivity.
Qed.

Section VoltageFunction.
Variable exp : float -> float.
Variable pow : float -> float -> float.

Lemma matched_TempToMV_table (type : ThermocoupleType) (temperature : float) :
(type =? TC_TYPE_K) = false ->
matched_TempToMV type temperature
  = match find (in_range temperature) (TempToMV_ranges type) with
    | Some r => pCoefficients (poly r)
    | None => None
    end.
Proof. intros H. unfold matched_TempToMV. rewrite H. reflexivity. Qed.

(** X: [TC_CalculateVoltage] never faults, for any type value and any
  binary64 temperature, and its value is [voltage_of_temperature]: for a
  type with a table, the nested Horner form of the first matching range
  and [TC_CONVERSION_FAILED] without a match; for type K, the polynomial
  of the range chosen by the two tests, or 0.0 when neither holds, plus
  the correction term when the temperature is above 0.0. *)
Theorem TC_CalculateVoltage_function (type : ThermocoupleType)
  (temperature : float) :
result (TC_CalculateVoltage exp pow type temperature)
  = Some (voltage_of_temperature exp pow type temperature).
Proof.
destruct (valid_type type) eqn:Hty.
- destruct (Z.eqb_spec type TC_TYPE_K) as [-> | HK].
  + destruct (TC_CalculateVoltage_K exp pow temperature) as [-> _].
    unfold voltage_of_temperature, matched_TempToMV.
    cbn [Z.eqb TC_TYPE_K Pos.eqb].
    destruct ((-270.5 <=? temperature) && (temperature <=? 0.0))%float eqn:H1.
    * apply andb_prop in H1. destruct H1 as [Hlo Hhi].
      rewrite (case_K_below_zero exp pow temperature Hlo Hhi).
      replace (0.0 <? temperature)%float with false
        by (symmetry; clear Hlo; float_bool).
      unfold Horner_recurrence_double, Horner_double.
      rewrite Horner_recurrence_nested. reflexivity.
    * destruct ((0.0 <? temperature) && (temperature <=? 1372.5))%float eqn:H2.
      -- apply andb_prop in H2. destruct H2 as [Hlo Hhi].
         rewrite (case_K_above_zero exp pow temperature Hlo Hhi), Hlo.
         unfold Horner_recurrence_double, Horner_double.
         rewrite Horner_recurrence_nested. reflexivity.
      -- rewrite (case_K_no_range exp pow temperature H1 H2). reflexivity.
  + destruct (TC_CalculateVoltage_lookup exp pow type temperature Hty HK)
      as [-> _].
    destruct (TempToMV_table_ok type Hty HK) as [_ [Hentries _]].
    rewrite (lookup_and_evaluate_result _ _ _ Hentries).
    unfold voltage_of_temperature.
    apply Z.eqb_neq in HK. rewrite HK, (matched_TempToMV_table _ _ HK).
    destruct (find (in_range temperature) (TempToMV_ranges type))
      as [r | ] eqn:Hf; [ | reflexivity ].
    apply find_some in Hf. destruct Hf as [Hr _].
    rewrite forallb_forall in Hentries. specialize (Hentries r Hr).
    unfold entry_ok in Hentries.
    destruct (pCoefficients (poly r)) as [c | ]; [ | discriminate ].
    unfold Horner_recurrence_double, Horner_double.
    rewrite Horner_recurrence_nested. reflexivity.
- pose proof (invalid_type_runs exp pow type temperature Hty) as [_ ->].
  apply invalid_type_tests in Hty.
  destruct Hty as [HR [HS [HB [HJ [HT [HE [HK HN]]]]]]].
  unfold voltage_of_temperature, matched_TempToMV, TempToMV_ranges.
  rewrite HR, HS, HB, HJ, HT, HE, HK, HN. reflexivity.
Qed.

(** X: for the seven types that have a temperature table, every
  temperature that is not inside the domain of the type (below it, above
  it, infinite or NaN) gives [TC_CONVERSION_FAILED], and the evaluator is
  not called. *)
Theorem TC_CalculateVoltage_out_of_domain (type : ThermocoupleType)
  (temperature : float) :
valid_type type = true -> type <> TC_TYPE_K ->
in_domain temperature (temperature_domain type) = false ->
result (TC_CalculateVoltage exp pow type temperature)
  = Some TC_CONVERSION_FAILED
/\ ~ In Call_Polynomial_Evaluate
       (trace (TC_CalculateVoltage exp pow type temperature)).
Proof.
intros Hty HK Hout.
split; [ apply (TC_CalculateVoltage_outside exp pow type temperature Hty HK Hout) | ].
destruct (TC_CalculateVoltage_lookup exp pow type temperature Hty HK)
  as [_ ->].
pose proof (TempToMV_table_ok type Hty HK) as Hok.
pose proof (table_cover _ _ temperature Hok) as Hcover.
rewrite existsb_find, Hout in Hcover.
unfold lookup_and_evaluate. rewrite trace_bind, FindPolyCoeff_table.
destruct (find (in_range temperature) (TempToMV_ranges type));
  [ discriminate | ].
cbn [option_map ret trace fst]. rewrite app_nil_r.
unfold FindPolyCoeff. rewrite trace_bind. cbn [tell result snd trace fst app].
intros [H | H]; [ discriminate | ].
rewrite (FindPolyCoeff_loop_trace _ _ _ 0) in H
  by (unfold countof; lia).
apply in_map_iff in H. destruct H as [j [H _]]. discriminate.
Qed.

End VoltageFunction.

(** ** Shared bounds *)

Lemma chain_find_max (l : list RangePoly) (i : nat) (r : RangePoly) :
  chain_ok l = true -> nth_error l i = Some r ->
  find (in_range (max r)) l = Some r.
Proof.
  intros Hc Hi. apply (find_first _ _ i r Hi).
  - assert (Hr : (min r <? max r)%float = true).
    { clear - Hc Hi. revert i Hi. induction l as [ | a l IH]; intros i Hi.
      - destruct i; discriminate.
      - apply chain_ok_cons in Hc. destruct Hc as [Ha [Hl _]].
        destruct i as [ | i]; [ cbn in Hi; injection Hi as <-; exact Ha | ].
        apply (IH Hl i Hi). }
    unfold in_range. clear - Hr. float_bool.
  - intros j b Hj Hb.
    clear - Hc Hi Hj Hb. revert i j Hi Hj Hb.
    induction l as [ | a l IH]; intros i j Hi Hj Hb.
    + destruct i; discriminate.
    + destruct i as [ | i]; [ lia | ]. cbn in Hi.
      destruct j as [ | j].
      * cbn in Hb. injection Hb as <-.
        destruct (chain_later l a r i Hc Hi) as [Hle _].
        apply chain_ok_cons in Hc. destruct Hc as [Ha [Hl _]].
        assert (Hr : (min r <? max r)%float = true).
        { clear - Hl Hi. revert i Hi. induction l as [ | a l IH]; intros i Hi.
          - destruct i; discriminate.
          - apply chain_ok_cons in Hl. destruct Hl as [Ha [Hl _]].
            destruct i as [ | i]; [ cbn in Hi; injection Hi as <-; exact Ha | ].
            apply (IH Hl i Hi). }
        unfold in_range. clear - Hle Ha Hr. float_bool.
      * cbn in Hb. apply chain_ok_cons in Hc. destruct Hc as [_ [Hl _]].
        apply (IH Hl i j Hi ltac:(lia) Hb).
Qed.

(** X: in every table of the source, the probe equal to the [max] of an
    entry selects that entry: at a bound shared by two ranges the lower
    range's polynomial is the one evaluated, and at the highest bound of the
    table the last range's. *)
Theorem shared_bound_selects_lower_range (l : list RangePoly)
    (d : float * float) (i : nat) (r : RangePoly) :
  In (l, d) all_tables -> nth_error l i = Some r ->
  result (FindPolyCoeff (Some l) (countof l) (max r)) = Some (Some (poly r))
  /\ (forall r2, nth_error l (S i) = Some r2 ->
      result (FindPolyCoeff (Some l) (countof l) (min r2))
        = Some (Some (poly r))).
Proof.
  intros Hin Hi. destruct (all_tables_ok l d Hin) as [Hc _].
  assert (H : result (FindPolyCoeff (Some l) (countof l) (max r))
              = Some (Some (poly r))).
  { rewrite FindPolyCoeff_table, (chain_find_max l i r Hc Hi). reflexivity. }
  split; [ exact H | ].
  intros r2 H2. replace (min r2) with (max r); [ exact H | ].
  clear - Hc Hi H2. revert i Hi H2.
  induction l as [ | a l IH]; intros i Hi H2.
  - destruct i; discriminate.
  - apply chain_ok_cons in Hc. destruct Hc as [_ [Hl He]].
    destruct i as [ | i].
    + cbn in Hi. injection Hi as <-.
      destruct l as [ | b l]; [ discriminate | ].
      cbn in H2. injection H2 as <-. exact He.
    + apply (IH Hl i Hi H2).
Qed.
(** ** Work done by one conversion *)

Lemma count_app (f : event -> bool) (t1 t2 : list event) :
  count f (t1 ++ t2) = (count f t1 + count f t2)%nat.
Proof. unfold count. rewrite filter_app, length_app. reflexivity. Qed.

Lemma count_cons (f : event -> bool) (e : event) (t : list event) :
  count f (e :: t) = ((if f e then 1 else 0) + count f t)%nat.
Proof. unfold count. cbn [filter]. destruct (f e); reflexivity. Qed.

Lemma count_map (f : event -> bool) (g : nat -> event) (b : bool)
    (l : list nat) :
  (forall j, f (g j) = b) ->
  count f (map g l) = if b then List.length l else 0%nat.
Proof.
  intros Hf. unfold count.
  induction l as [ | j l IH]; [ destruct b; reflexivity | ].
  cbn [map filter]. rewrite (Hf j).
  destruct b; cbn [List.length]; rewrite IH; reflexivity.
Qed.

(** The counts in a trace made of one call followed by [n] reads. *)
Lemma count_call_reads (f : event -> bool) (e : event) (g : nat -> event)
    (b : bool) (l : list nat) :
  (forall j, f (g j) = b) ->
  count f (e :: map g l)
  = ((if f e then 1 else 0) + (if b then List.length l else 0))%nat.
Proof. intros Hf. rewrite count_cons, (count_map f g b l Hf). reflexivity. Qed.

(** The events of the code after the [switch] on a well-formed table. *)
Lemma lookup_and_evaluate_trace (l : list RangePoly) (x current : float) :
  forallb entry_ok l = true ->
  trace (lookup_and_evaluate (Some l) (countof l) x current) =
    (Call_FindPolyCoeff
     :: map (fun j => Read_ranges (Z.of_nat j)) (seq 0 (scanned x l)))
    ++ match find (in_range x) l with
       | Some r =>
           Call_Polynomial_Evaluate
           :: map (fun j => Read_pCoefficient (Z.of_nat j))
                  (rev (seq 0 (Z.to_nat (length (poly r)))))
       | None => []
       end.
Proof.
  intros Hok. unfold lookup_and_evaluate.
  rewrite trace_bind, FindPolyCoeff_table.
  assert (Hscan : trace (FindPolyCoeff (Some l) (countof l) x)
                  = Call_FindPolyCoeff
                    :: map (fun j => Read_ranges (Z.of_nat j))
                           (seq 0 (scanned x l))).
  { unfold FindPolyCoeff. rewrite trace_bind.
    cbn [tell result snd trace fst app]. f_equal.
    pose proof (FindPolyCoeff_loop_trace l x (Z.to_nat (countof l)) 0) as H.
    unfold countof in *. rewrite Nat2Z.id in *.
    cbn [skipn] in H. rewrite firstn_all in H. apply H. lia. }
  rewrite Hscan.
  destruct (find (in_range x) l) as [r | ] eqn:Hfind; cbn [option_map];
    [ | reflexivity ].
  apply find_some in Hfind. destruct Hfind as [Hin _].
  rewrite forallb_forall in Hok. specialize (Hok r Hin).
  unfold entry_ok in Hok.
  destruct (pCoefficients (poly r)) as [c | ]; [ | discriminate ].
  apply andb_prop in Hok. destruct Hok as [Hok H128].
  apply andb_prop in Hok. destruct Hok as [Hlen H1].
  apply Z.eqb_eq in Hlen. apply Z.leb_le in H1. apply Z.leb_le in H128.
  rewrite Hlen, Polynomial_Evaluate_trace by lia.
  unfold countof. rewrite Nat2Z.id. reflexivity.
Qed.

Lemma scanned_bound (x : float) (l : list RangePoly) :
  (scanned x l
   + match find (in_range x) l with
     | Some r => Z.to_nat (length (poly r))
     | None => 0
     end <= reads_bound l)%nat.
Proof.
  induction l as [ | r l IH]; [ cbn; lia | ].
  cbn [scanned find reads_bound].
  destruct (in_range x r); lia.
Qed.

Lemma lookup_and_evaluate_work (l : list RangePoly) (x current : float) :
  forallb entry_ok l = true ->
  calls_FindPolyCoeff
    (trace (lookup_and_evaluate (Some l) (countof l) x current)) = 1%nat
  /\ (calls_Polynomial_Evaluate
        (trace (lookup_and_evaluate (Some l) (countof l) x current)) <= 1)%nat
  /\ (reads (trace (lookup_and_evaluate (Some l) (countof l) x current))
      <= reads_bound l)%nat.
Proof.
  intros Hok. rewrite (lookup_and_evaluate_trace l x current Hok).
  unfold calls_FindPolyCoeff, calls_Polynomial_Evaluate, reads.
  rewrite !count_app.
  rewrite (count_call_reads is_Call_FindPolyCoeff _ _ false)
    by reflexivity.
  rewrite (count_call_reads is_Call_Polynomial_Evaluate _ _ false)
    by reflexivity.
  rewrite (count_call_reads is_read _ _ true) by reflexivity.
  rewrite length_seq.
  pose proof (scanned_bound x l) as Hb.
  destruct (find (in_range x) l) as [r | ].
  - rewrite (count_call_reads is_Call_FindPolyCoeff _ _ false)
      by reflexivity.
    rewrite (count_call_reads is_Call_Polynomial_Evaluate _ _ false)
      by reflexivity.
    rewrite (count_call_reads is_read _ _ true) by reflexivity.
    rewrite length_rev, length_seq. cbn. repeat split; lia.
  - cbn. repeat split; lia.
Qed.

(** The trace of [case TC_TYPE_K]: one call of [Polynomial_Evaluate], which
    reads the 11 coefficients of the lower range, the 10 coefficients of
    the upper range, or nothing when neither test holds. *)
Lemma case_K_trace (exp : float -> float) (pow : float -> float -> float)
    (temperature : float) :
  trace (TC_CalculateVoltage_case_K exp pow temperature)
  = Call_Polynomial_Evaluate
    :: map (fun i => Read_pCoefficient (Z.of_nat i))
         (rev (seq 0
            (if ((-270.5 <=? temperature) && (temperature <=? 0.0))%float
             then 11
             else if ((0.0 <? temperature) && (temperature <=? 1372.5))%float
                  then 10 else 0))).
Proof.
  unfold TC_CalculateVoltage_case_K.
  destruct ((-270.5 <=? temperature) && (temperature <=? 0.0))%float.
  - rewrite trace_bind, Polynomial_Evaluate_result,
      Polynomial_Evaluate_trace by (vm_compute; split; discriminate).
    destruct (0.0 <? temperature)%float; cbn [result snd ret trace fst];
      rewrite app_nil_r; reflexivity.
  - destruct ((0.0 <? temperature) && (temperature <=? 1372.5))%float.
    + rewrite trace_bind, Polynomial_Evaluate_result,
        Polynomial_Evaluate_trace by (vm_compute; split; discriminate).
      destruct (0.0 <? temperature)%float; cbn [result snd ret trace fst];
        rewrite app_nil_r; reflexivity.
    + rewrite Polynomial_Evaluate_length_0.
      destruct (0.0 <? temperature)%float; reflexivity.
Qed.

(** X: one conversion calls each of [FindPolyCoeff] and
    [Polynomial_Evaluate] at most once and reads at most 15 array elements
    (voltage to temperature) or 16 (temperature to voltage), whatever the
    type value and the input. *)
Theorem conversions_bounded_work (exp : float -> float)
    (pow : float -> float -> float) (type : ThermocoupleType) (x : float) :
  ((calls_FindPolyCoeff (trace (TC_CalculateTemperature type x)) <= 1)%nat
   /\ (calls_Polynomial_Evaluate (trace (TC_CalculateTemperature type x))
       <= 1)%nat
   /\ (reads (trace (TC_CalculateTemperature type x)) <= 15)%nat)
  /\ ((calls_FindPolyCoeff (trace (TC_CalculateVoltage exp pow type x))
       <= 1)%nat
      /\ (calls_Polynomial_Evaluate (trace (TC_CalculateVoltage exp pow type x))
          <= 1)%nat
      /\ (reads (trace (TC_CalculateVoltage exp pow type x)) <= 16)%nat).
Proof.
  destruct (valid_type type) eqn:Hty.
  - split.
    + rewrite (TC_CalculateTemperature_lookup type x Hty).
      destruct (mVToTemp_table_ok type Hty) as [_ [_ [Hentries _]]].
      destruct (lookup_and_evaluate_work _ x TC_CONVERSION_FAILED Hentries)
        as [Hf [Hp Hr]].
      split; [ lia | split; [ exact Hp | ] ].
      eapply Nat.le_trans; [ exact Hr | ].
      clear Hr Hp Hf Hentries. each_type Hty; vm_compute; lia.
    + destruct (Z.eqb_spec type TC_TYPE_K) as [-> | HK].
      * destruct (TC_CalculateVoltage_K exp pow x) as [_ ->].
        rewrite case_K_trace.
        unfold calls_FindPolyCoeff, calls_Polynomial_Evaluate, reads.
        rewrite (count_call_reads is_Call_FindPolyCoeff _ _ false)
          by reflexivity.
        rewrite (count_call_reads is_Call_Polynomial_Evaluate _ _ false)
          by reflexivity.
        rewrite (count_call_reads is_read _ _ true) by reflexivity.
        rewrite length_rev, length_seq.
        destruct ((-270.5 <=? x) && (x <=? 0.0))%float;
          [ | destruct ((0.0 <? x) && (x <=? 1372.5))%float ];
          cbn; repeat split; lia.
      * destruct (TC_CalculateVoltage_lookup exp pow type x Hty HK) as [_ ->].
        destruct (TempToMV_table_ok type Hty HK) as [_ [Hentries _]].
        destruct (lookup_and_evaluate_work _ x TC_CONVERSION_FAILED Hentries)
          as [Hf [Hp Hr]].
        split; [ lia | split; [ exact Hp | ] ].
        eapply Nat.le_trans; [ exact Hr | ].
        clear Hr Hp Hf Hentries.
        each_type Hty; try contradiction; vm_compute; lia.
  - destruct (invalid_type_runs exp pow type x Hty) as [-> ->].
    cbn. repeat split; lia.
Qed.


(** ** Instances of the further properties *)

Lemma FindPolyCoeff_scan_witness :
  0 <= 3 <= countof TC_K_mVToTemp
  /\ trace (FindPolyCoeff (Some TC_K_mVToTemp) 3 17.85)
     = [Call_FindPolyCoeff; Read_ranges 0; Read_ranges 1].
Proof.
  split; [ vm_compute; split; discriminate | ].
  apply (proj1 (FindPolyCoeff_scan TC_K_mVToTemp 3 17.85
                  ltac:(vm_compute; split; discriminate))).
Defined.

Lemma FindPolyCoeff_partial_witness :
  (0 <= 1 <= countof TC_K_mVToTemp
   /\ result (FindPolyCoeff (Some TC_K_mVToTemp) 1 17.85) = Some None)
  /\ (countof TC_K_mVToTemp < 4
      /\ find (in_range 60) TC_K_mVToTemp = None
      /\ result (FindPolyCoeff (Some TC_K_mVToTemp) 4 60) = None).
Proof.
  split.
  - split; [ vm_compute; split; discriminate | ].
    apply (proj1 (FindPolyCoeff_partial TC_K_mVToTemp 1 17.85)).
    vm_compute; split; discriminate.
  - split; [ reflexivity | split; [ reflexivity | ] ].
    apply (proj2 (proj2 (FindPolyCoeff_partial TC_K_mVToTemp 4 60)));
      reflexivity.
Defined.

Lemma Polynomial_Evaluate_index_wraps_witness :
  129 <= 200 <= 255
  /\ Polynomial_Evaluate None 200 1.5 = ([Call_Polynomial_Evaluate], Some 0%float).
Proof.
  split; [ lia | ].
  apply (proj2 (Polynomial_Evaluate_index_wraps None 200 1.5 ltac:(lia))).
Defined.

Lemma TC_CalculateVoltage_out_of_domain_witness :
  valid_type TC_TYPE_J = true /\ TC_TYPE_J <> TC_TYPE_K
  /\ in_domain PrimFloat.infinity (temperature_domain TC_TYPE_J) = false
  /\ result (TC_CalculateVoltage exp_ref pow_ref TC_TYPE_J PrimFloat.infinity)
     = Some TC_CONVERSION_FAILED.
Proof.
  split; [ reflexivity | split; [ discriminate | split; [ reflexivity | ] ] ].
  apply (proj1 (TC_CalculateVoltage_out_of_domain exp_ref pow_ref TC_TYPE_J
                  PrimFloat.infinity eq_refl ltac:(discriminate) eq_refl)).
Defined.

Lemma shared_bound_selects_lower_range_witness :
  In (TC_K_mVToTemp, voltage_domain TC_TYPE_K) all_tables
  /\ result (FindPolyCoeff (Some TC_K_mVToTemp) (countof TC_K_mVToTemp) 20.644)
     = Some (Some {| pCoefficients := Some TC_Coeff_K_mVToTemp_Range2;
                     length := countof TC_Coeff_K_mVToTemp_Range2 |}).
Proof.
  assert (H : In (TC_K_mVToTemp, voltage_domain TC_TYPE_K) all_tables).
  { unfold all_tables. cbn [In]. tauto. }
  split; [ exact H | ].
  exact (proj1 (shared_bound_selects_lower_range TC_K_mVToTemp
                  (voltage_domain TC_TYPE_K) 1%nat _ H eq_refl)).
Defined.

(** ** Results inside the domains are numbers *)

(** X: for each of the eight types and every voltage inside the voltage
    domain of the type, [TC_CalculateTemperature] returns a finite number
    strictly between -1.0e6 and 1.0e6: never NaN, never an infinity and
    never [TC_CONVERSION_FAILED].  The rounding of every product and every
    sum of the evaluation is accounted for. *)
Theorem TC_CalculateTemperature_in_domain_number (type : ThermocoupleType)
    (voltage : float) :
  valid_type type = true ->
  in_domain voltage (voltage_domain type) = true ->
  exists t,
    result (TC_CalculateTemperature type voltage) = Some t
    /\ finite t = true /\ inside_limit t = true
    /\ (t =? TC_CONVERSION_FAILED)%float = false.
Proof.
  intros Hty Hin.
  destruct (temperature_inside_number type voltage Hty Hin) as [t [E [F L]]].
  exists t. repeat split; try assumption.
  apply (inside_limit_not_failed t L).
Qed.

(** X: for each of the eight types and every temperature inside the
    temperature domain of the type, [TC_CalculateVoltage] returns a finite
    number strictly between -1.0e6 and 1.0e6, never [TC_CONVERSION_FAILED];
    for type K above 0.0 this holds when the call of [exp] in the correction
    term returns a value between 0 and 1, as the exponential of a number
    that is not positive does. *)
Theorem TC_CalculateVoltage_in_domain_number (exp : float -> float)
    (pow : float -> float -> float) (type : ThermocoupleType)
    (temperature : float) :
  valid_type type = true ->
  in_domain temperature (temperature_domain type) = true ->
  (type = TC_TYPE_K -> (0.0 <? temperature)%float = true ->
   ((0 <=? K_correction_exp exp pow temperature)
    && (K_correction_exp exp pow temperature <=? 1))%float = true) ->
  exists v,
    result (TC_CalculateVoltage exp pow type temperature) = Some v
    /\ finite v = true /\ inside_limit v = true
    /\ (v =? TC_CONVERSION_FAILED)%float = false.
Proof.
  intros Hty Hin Hexp.
  destruct (voltage_inside_number exp pow type temperature Hty Hin Hexp)
    as [v [E [F L]]].
  exists v. repeat split; try assumption.
  apply (inside_limit_not_failed v L).
Qed.

(** X: the failure value marks exactly the inputs outside the domain: for
    each of the eight types [TC_CalculateTemperature] returns
    [TC_CONVERSION_FAILED] if and only if the voltage is not inside the
    voltage domain, and for each type other than K [TC_CalculateVoltage]
    returns it if and only if the temperature is not inside the temperature
    domain. *)
Theorem failure_value_iff_outside_domain (exp : float -> float)
    (pow : float -> float -> float) (type : ThermocoupleType) (x : float) :
  valid_type type = true ->
  (exists t,
     result (TC_CalculateTemperature type x) = Some t
     /\ (t =? TC_CONVERSION_FAILED)%float
        = negb (in_domain x (voltage_domain type)))
  /\ (type <> TC_TYPE_K ->
      exists v,
        result (TC_CalculateVoltage exp pow type x) = Some v
        /\ (v =? TC_CONVERSION_FAILED)%float
           = negb (in_domain x (temperature_domain type))).
Proof.
  intros Hty. split.
  - destruct (in_domain x (voltage_domain type)) eqn:Hin.
    + destruct (temperature_inside_number type x Hty Hin) as [t [E [_ L]]].
      exists t. split; [ exact E | apply (inside_limit_not_failed t L) ].
    + exists TC_CONVERSION_FAILED. split; [ | reflexivity ].
      rewrite (TC_CalculateTemperature_lookup type x Hty).
      destruct (mVToTemp_table_ok type Hty) as [_ Hok].
      apply (lookup_and_evaluate_outside _ _ _ _ Hok Hin).
  - intros HK. destruct (in_domain x (temperature_domain type)) eqn:Hin.
    + destruct (voltage_inside_number exp pow type x Hty Hin) as [v [E [_ L]]].
      { intros HK'. contradiction. }
      exists v. split; [ exact E | apply (inside_limit_not_failed v L) ].
    + exists TC_CONVERSION_FAILED. split; [ | reflexivity ].
      apply (TC_CalculateVoltage_outside exp pow type x Hty HK Hin).
Qed.

(** X: bounds for [Polynomial_Evaluate] that hold with rounding: for 1 to
    128 finite coefficients and an input between [lo] and [hi], when
    [polynomial_bounds] finds bounds the call returns a finite number whose
    value lies within them: no product or sum of the loop overflows or
    yields NaN. *)
Theorem Polynomial_Evaluate_bounds (c : list float) (lo hi x : float)
    (J : ivl) :
  1 <= countof c <= 128 ->
  polynomial_bounds c lo hi = Some J ->
  (lo <=? x)%float = true -> (x <=? hi)%float = true ->
  exists y,
    result (Polynomial_Evaluate (Some c) (countof c) x) = Some y
    /\ finite y = true /\ in_ivl (F2Z y) J.
Proof.
  intros Hn E Hlo Hhi.
  rewrite (Polynomial_Evaluate_result c x Hn).
  unfold Horner_recurrence_double. rewrite Horner_recurrence_nested.
  fold Horner_double.
  eexists. split; [ reflexivity | ].
  apply (polynomial_bounds_sound c lo hi x J E Hlo Hhi).
Qed.

(** ** Instances *)

Lemma TC_CalculateTemperature_in_domain_number_witness :
  valid_type TC_TYPE_K = true
  /\ in_domain 17.85 (voltage_domain TC_TYPE_K) = true
  /\ exists t,
       result (TC_CalculateTemperature TC_TYPE_K 17.85) = Some t
       /\ finite t = true /\ inside_limit t = true
       /\ (t =? TC_CONVERSION_FAILED)%float = false.
Proof.
  split; [ reflexivity | split; [ reflexivity | ] ].
  apply (TC_CalculateTemperature_in_domain_number TC_TYPE_K 17.85
           eq_refl eq_refl).
Defined.

Lemma TC_CalculateVoltage_in_domain_number_witness :
  valid_type TC_TYPE_K = true
  /\ in_domain 100.0 (temperature_domain TC_TYPE_K) = true
  /\ ((0 <=? K_correction_exp exp_ref pow_ref 100.0)
      && (K_correction_exp exp_ref pow_ref 100.0 <=? 1))%float = true
  /\ exists v,
       result (TC_CalculateVoltage exp_ref pow_ref TC_TYPE_K 100.0) = Some v
       /\ finite v = true /\ inside_limit v = true
       /\ (v =? TC_CONVERSION_FAILED)%float = false.
Proof.
  split; [ reflexivity | split; [ reflexivity | ] ].
  split; [ vm_compute; reflexivity | ].
  apply (TC_CalculateVoltage_in_domain_number exp_ref pow_ref TC_TYPE_K 100.0
           eq_refl eq_refl).
  intros _ _. vm_compute. reflexivity.
Defined.

Lemma failure_value_iff_outside_domain_witness :
  valid_type TC_TYPE_B = true /\ TC_TYPE_B <> TC_TYPE_K
  /\ (exists t,
        result (TC_CalculateTemperature TC_TYPE_B 0.0) = Some t
        /\ (t =? TC_CONVERSION_FAILED)%float
           = negb (in_domain 0.0 (voltage_domain TC_TYPE_B)))
  /\ (exists v,
        result (TC_CalculateVoltage exp_ref pow_ref TC_TYPE_B 0.0) = Some v
        /\ (v =? TC_CONVERSION_FAILED)%float
           = negb (in_domain 0.0 (temperature_domain TC_TYPE_B))).
Proof.
  split; [ reflexivity | split; [ discriminate | ] ].
  split.
  - apply (proj1 (failure_value_iff_outside_domain exp_ref pow_ref TC_TYPE_B
                    0.0 eq_refl)).
  - apply (proj2 (failure_value_iff_outside_domain exp_ref pow_ref TC_TYPE_B
                    0.0 eq_refl)).
    discriminate.
Defined.

Lemma Polynomial_Evaluate_bounds_witness :
  1 <= countof TC_Coeff_K_mVToTemp_Range2 <= 128
  /\ (0.0 <=? 17.85)%float = true /\ (17.85 <=? 20.644)%float = true
  /\ exists J y,
       polynomial_bounds TC_Coeff_K_mVToTemp_Range2 0.0 20.644 = Some J
       /\ result (Polynomial_Evaluate (Some TC_Coeff_K_mVToTemp_Range2)
                    (countof TC_Coeff_K_mVToTemp_Range2) 17.85) = Some y
       /\ finite y = true /\ in_ivl (F2Z y) J.
Proof.
  split; [ vm_compute; split; discriminate | ].
  split; [ reflexivity | split; [ reflexivity | ] ].
  let o := eval vm_compute in
      (polynomial_bounds TC_Coeff_K_mVToTemp_Range2 0.0 20.644) in
  match o with
  | Some ?J =>
      assert (E : polynomial_bounds TC_Coeff_K_mVToTemp_Range2 0.0 20.644
                  = Some J) by (vm_cast_no_check (eq_refl (Some J)));
      exists J
  end.
  destruct (Polynomial_Evaluate_bounds TC_Coeff_K_mVToTemp_Range2 0.0 20.644
              17.85 _ ltac:(vm_compute; split; discriminate) E
              eq_refl eq_refl) as [y Hy].
  exists y. split; [ exact E | exact Hy ].
Defined.
